(** * PGP encoder and goal-conditioned aggregator: a shallow embedding

    The development follows [models/encoders/pgp_encoder.py] and
    [models/aggregators/goal_conditioned.py].

    Conventions of the embedding.
    - A rank-k tensor is a k-fold nested list in row-major order; an axis of
      size 0 is the empty list (so the sizes of the axes below an empty axis
      are not recorded).
    - Finite float values are dyadic rationals, so a float tensor is a tensor
      of [Q]; arithmetic on them is exact (no rounding).  The results of
      [torch.log], [torch.exp] and [LogSoftmax] live in [xreal]: the reals
      extended with the two infinities and NaN.
    - Integer tensors hold [Z]; boolean tensors hold [bool].
    - A Python exception is a value of [exn]; fallible code returns [result].
    - [s_next] is written in place by the encoder, so it lives in a store
      and dictionaries hold its address; code that touches the store runs in
      the monad [M]. *)

From Stdlib Require Import ZArith QArith Qreals Reals Lra Lia List.
From stdpp Require Import base option list gmap strings.

Set Warnings "-register-all".

(** ** Exceptions and results *)

Inductive exn :=
| KeyError (key : string)
| IndexError
| TypeError
| RuntimeError.

Inductive result (A : Type) :=
| Ok (a : A)
| Raise (e : exn).
Arguments Ok {A} a.
Arguments Raise {A} e.

#[global] Instance result_ret : MRet result := fun A a => Ok a.
#[global] Instance result_bind : MBind result := fun A B f r =>
  match r with
  | Ok a => f a
  | Raise e => Raise e
  end.

(** [for x in xs: f x], stopping at the first exception. *)
Fixpoint rmap {A B} (f : A → result B) (xs : list A) : result (list B) :=
  match xs with
  | [] => Ok []
  | x :: xs' => y ← f x; ys ← rmap f xs'; Ok (y :: ys)
  end.

(** A left fold whose step can raise. *)
Fixpoint rfold {A B} (f : A → B → result A) (a : A) (xs : list B) : result A :=
  match xs with
  | [] => Ok a
  | x :: xs' => a' ← f a x; rfold f a' xs'
  end.

(** ** State: the store of tensors written in place, and the random source *)

Abbreviation loc := nat (only parsing).
Abbreviation tensor3 A := (list (list (list A))) (only parsing).
Abbreviation tensor4 A := (list (list (list (list A)))) (only parsing).
Abbreviation heap := (gmap nat (list (list (list Q)))) (only parsing).

(** Computations that read and write a state [S] and may raise; the state
    reached when an exception is raised is kept (writes made before the
    exception are not undone). *)
Definition ST (S A : Type) : Type := S → result A * S.

#[global] Instance ST_ret {S} : MRet (ST S) := fun A a h => (Ok a, h).
#[global] Instance ST_bind {S} : MBind (ST S) := fun A B f c h =>
  match c h with
  | (Ok a, h') => f a h'
  | (Raise e, h') => (Raise e, h')
  end.

Definition lift {S A} (r : result A) : ST S A := fun h => (r, h).

(** The encoder runs over the store. *)
Abbreviation M := (ST (gmap nat (list (list (list Q))))) (only parsing).

(** Reading through a reference; a dangling address cannot happen in Python
    and is reported as [RuntimeError]. *)
Definition load (l : loc) : M (tensor3 Q) := fun h =>
  match h !! l with
  | Some t => (Ok t, h)
  | None => (Raise RuntimeError, h)
  end.

Definition store (l : loc) (t : tensor3 Q) : M unit := fun h =>
  (Ok tt, <[l := t]> h).

(** ** Casts and elementary tensor operations *)

(** [.long()]: truncation toward zero. *)
Definition long (q : Q) : Z := Z.quot (Qnum q) (Z.pos (Qden q)).

(** [.float()] of an integer. *)
Definition float (z : Z) : Q := inject_Z z.

(** [.bool()] of a float: non-zero is [True]. *)
Definition to_bool (q : Q) : bool := negb (Qeq_bool q 0).

(** [.float()] of a boolean. *)
Definition of_bool (b : bool) : Q := if b then 1%Q else 0%Q.

Definition arange (n : nat) : list Z := map Z.of_nat (seq 0 n).

Definition ones (n : nat) : list Q := replicate n 1%Q.

Definition zeros (n : nat) : list Q := replicate n 0%Q.

(** [torch.diag] of a vector: the square matrix with the vector on its
    diagonal. *)
Definition diag (v : list Q) : list (list Q) :=
  imap (fun i x => <[i := x]> (zeros (length v))) v.

(** Swapping the first two axes ([torch.transpose(t, 0, 1)], and
    [permute(1, 0, 2)] on a rank-3 tensor). *)
Definition transpose {A} (m : list (list A)) : list (list A) :=
  map (fun j => omap (fun row => row !! j) m) (seq 0 (length (hd [] m))).

Definition shape2 {A} (t : list (list A)) : list nat := map length t.

Definition shape3 {A} (t : tensor3 A) : list (list nat) := map (map length) t.

Definition shape4 {A} (t : tensor4 A) : list (list (list nat)) :=
  map (map (map length)) t.

(** Python indexing along an axis of size [n]: negative indices count from
    the end, anything else out of range raises. *)
Definition norm_index (n : nat) (i : Z) : result nat :=
  if decide (0 ≤ i < Z.of_nat n)%Z then Ok (Z.to_nat i)
  else if decide (- Z.of_nat n ≤ i < 0)%Z then Ok (Z.to_nat (i + Z.of_nat n))
  else Raise IndexError.

(** [row[0]]. *)
Definition head0 (row : list Q) : result Q :=
  match row with
  | x :: _ => Ok x
  | [] => Raise IndexError
  end.

(** [t[:, :, :, 0]]: raises when the last axis is empty. *)
Definition col0 (t : tensor4 Q) : result (tensor3 Q) :=
  rmap (rmap (rmap head0)) t.

(** [t[:, :, :-1]]. *)
Definition drop_last_slot {A} (t : tensor3 A) : tensor3 A :=
  map (map (fun slots => removelast slots)) t.

(** Broadcasting of one axis: equal sizes pair up, a size-1 axis is
    repeated, anything else is an error. *)
Definition bcast {A B} (xs : list A) (ys : list B) : result (list (A * B)) :=
  if decide (length xs = length ys) then Ok (zip xs ys)
  else match xs, ys with
       | [x], _ => Ok (map (fun y => (x, y)) ys)
       | _, [y] => Ok (map (fun x => (x, y)) xs)
       | _, _ => Raise RuntimeError
       end.

(** [torch.masked_select(t, mask)] where [mask] has size 1 on every axis
    below the second: the two leading axes are broadcast against each other
    and whole blocks of [t] are selected, in row-major order.  (The [view] or
    [reshape] that follows in the source regroups the flat result into these
    blocks.  torch also rejects that [view] when a block has no element; the
    nested lists do not record the width of an empty axis, and the theorems
    below ask for non-empty time and feature axes instead.) *)
Definition masked_select2 {A} (t : list (list A)) (mask : list (list bool))
  : result (list A) :=
  rows ← bcast t mask;
  cells ← rmap (fun tm : list A * list bool => bcast tm.1 tm.2) rows;
  Ok (map fst (List.filter snd (concat cells))).

(** [masked_scatter] on one row: the positions where [mask] holds receive
    the next elements of [src], in order; the rest of [src] is returned.
    Too few source elements is an error. *)
Fixpoint masked_scatter1 (dest : list Q) (mask : list bool) (src : list Q)
  : result (list Q * list Q) :=
  match dest, mask with
  | d :: dest', m :: mask' =>
      if m then
        match src with
        | [] => Raise RuntimeError
        | x :: src' =>
            r ← masked_scatter1 dest' mask' src'; Ok (x :: r.1, r.2)
        end
      else r ← masked_scatter1 dest' mask' src; Ok (d :: r.1, r.2)
  | _, _ => Ok ([], src)
  end.

(** Row-major traversal of one more axis, threading the source. *)
Fixpoint scatter_axis {A B} (f : A → B → list Q → result (A * list Q))
    (dest : list A) (mask : list B) (src : list Q)
  : result (list A * list Q) :=
  match dest, mask with
  | d :: dest', m :: mask' =>
      r ← f d m src;
      rs ← scatter_axis f dest' mask' r.2;
      Ok (r.1 :: rs.1, rs.2)
  | _, _ => Ok ([], src)
  end.

(** [dest.masked_scatter(mask, src)] for rank-3 tensors of one shape. *)
Definition masked_scatter3 (dest : tensor3 Q) (mask : tensor3 bool) (src : list Q)
  : result (tensor3 Q) :=
  r ← scatter_axis (scatter_axis masked_scatter1) dest mask src; Ok r.1.

(** [torch.cat((a, b), dim=1)]: the leading axis must agree. *)
Definition cat_dim1 {A} (a b : list (list A)) : result (list (list A)) :=
  if decide (length a = length b) then Ok (zip_with app a b)
  else Raise RuntimeError.

(** [torch.cat((a, b), dim=2)]: the two leading axes must agree. *)
Definition cat_dim2 {A} (a b : tensor3 A) : result (tensor3 A) :=
  if decide (shape2 a = shape2 b) then Ok (zip_with (zip_with app) a b)
  else Raise RuntimeError.

(** [a + b] for rank-3 tensors of one shape. *)
Definition add3 (a b : tensor3 Q) : result (tensor3 Q) :=
  if decide (shape3 a = shape3 b) then
    Ok (zip_with (zip_with (zip_with Qplus)) a b)
  else Raise RuntimeError.

Definition tensor_or (a b : tensor3 bool) : tensor3 bool :=
  zip_with (zip_with (zip_with orb)) a b.

Definition sumQ (xs : list Q) : Q := foldr Qplus 0%Q xs.

(** ** Extended reals: the values of [log], [exp] and [LogSoftmax] *)

Inductive xreal :=
| Fin (r : R)
| PInf
| NInf
| NaN.

Definition xadd (x y : xreal) : xreal :=
  match x, y with
  | NaN, _ | _, NaN => NaN
  | Fin a, Fin b => Fin (a + b)
  | PInf, NInf | NInf, PInf => NaN
  | PInf, _ | _, PInf => PInf
  | NInf, _ | _, NInf => NInf
  end.

Definition xneg (x : xreal) : xreal :=
  match x with
  | Fin a => Fin (- a)
  | PInf => NInf
  | NInf => PInf
  | NaN => NaN
  end.

Definition xsub (x y : xreal) : xreal := xadd x (xneg y).

Definition xexp (x : xreal) : xreal :=
  match x with
  | Fin a => Fin (exp a)
  | PInf => PInf
  | NInf => Fin 0
  | NaN => NaN
  end.

Definition xlog (x : xreal) : xreal :=
  match x with
  | Fin a =>
      if Rlt_dec 0 a then Fin (ln a)
      else if Req_dec_T a 0 then NInf else NaN
  | PInf => PInf
  | NInf | NaN => NaN
  end.

Definition xsum (xs : list xreal) : xreal := foldr xadd (Fin 0) xs.

(** [torch.log] of a float. *)
Definition torch_log (q : Q) : xreal :=
  if Qlt_le_dec 0 q then Fin (ln (Q2R q))
  else if Qeq_bool q 0 then NInf else NaN.

(** [nn.LogSoftmax] along one row: [x_i - log (sum_j (exp x_j))].  A row
    whose entries are all [-inf] has sum 0, and [-inf - -inf] is NaN. *)
Definition log_softmax (xs : list xreal) : list xreal :=
  let lse := xlog (xsum (map xexp xs)) in
  map (fun x => xsub x lse) xs.

(** ** Python objects held in the dictionaries *)

Inductive pyobj :=
| PNone
| PFloat2 (t : list (list Q))
| PFloat3 (t : list (list (list Q)))
| PFloat4 (t : list (list (list (list Q))))
| PInt3 (t : list (list (list Z)))
| PXReal2 (t : list (list xreal))
| PRef (l : nat)
| PDict (d : gmap string pyobj).

Abbreviation dict := (gmap string pyobj) (only parsing).

(** [d[k]]. *)
Definition getitem (d : dict) (k : string) : result pyobj :=
  match d !! k with
  | Some v => Ok v
  | None => Raise (KeyError k)
  end.

(** [k in d]. *)
Definition contains (d : dict) (k : string) : bool :=
  match d !! k with
  | Some _ => true
  | None => false
  end.

(** The embedding is typed, Python is not: a cast marks the place where the
    code uses a value as a dictionary or as a tensor of the documented rank
    and element type, and [TypeError] stands for a value of another kind,
    which Python would pass on to the next tensor operation. *)
Definition as_dict (v : pyobj) : result dict :=
  match v with PDict d => Ok d | _ => Raise TypeError end.
Definition as_float2 (v : pyobj) : result (list (list Q)) :=
  match v with PFloat2 t => Ok t | _ => Raise TypeError end.
Definition as_float3 (v : pyobj) : result (tensor3 Q) :=
  match v with PFloat3 t => Ok t | _ => Raise TypeError end.
Definition as_float4 (v : pyobj) : result (tensor4 Q) :=
  match v with PFloat4 t => Ok t | _ => Raise TypeError end.
Definition as_int3 (v : pyobj) : result (tensor3 Z) :=
  match v with PInt3 t => Ok t | _ => Raise TypeError end.
Definition as_ref (v : pyobj) : result loc :=
  match v with PRef l => Ok l | _ => Raise TypeError end.

(** ** Layers *)

(** [nn.Linear]: [weight] has one row per output feature. *)
Record Linear := {
  in_features : nat;
  weight : list (list Q);
  bias : list Q
}.

Definition dot (w x : list Q) : Q := sumQ (zip_with Qmult w x).

Definition linear (l : Linear) (x : list Q) : result (list Q) :=
  if decide (length x = in_features l) then
    Ok (zip_with (fun w b => dot w x + b)%Q (weight l) (bias l))
  else Raise RuntimeError.

(** [nn.LeakyReLU()] with its default slope 0.01. *)
Definition leaky_relu (x : Q) : Q :=
  if Qle_bool 0 x then x else ((1 # 100) * x)%Q.

(** [leaky_relu(layer(x))] on the last axis. *)
Definition linear_act (l : Linear) (x : list Q) : result (list Q) :=
  y ← linear l x; Ok (map leaky_relu y).

(** [nn.GRU(..., batch_first=True)], one layer, one direction.  Its gates
    use sigmoid and tanh, so the recurrence is kept abstract: [gru_h_n seqs
    lens] is the final hidden state [h_n.squeeze(0)], one row per sequence,
    of a run over [seqs] in which sequence [k] has [lens !! k] valid steps
    (a packed sequence); a plain call passes the full lengths. *)
Record GRU := {
  hidden_size : nat;
  gru_h_n : list (list (list Q)) → list Z → result (list (list Q))
}.

(** [nn.MultiheadAttention] with one head, kept abstract; [attn_mask] is a
    float tensor (added to the scores) or a boolean one (True = masked). *)
Inductive attn_mask :=
| FloatMask (m : list (list (list Q)))
| BoolMask (m : list (list (list bool))).

Record MultiheadAttention := {
  mha : tensor3 Q → tensor3 Q → tensor3 Q → attn_mask → result (tensor3 Q)
}.

(** [pack_padded_sequence(seqs, lens, batch_first=True,
    enforce_sorted=False)].  The lengths are sorted and the sequences are
    picked by the sorting permutation ([index_select]): with more lengths
    than sequences an index is out of range, with fewer only the first
    [len(lens)] sequences are packed.  Every length must be positive.  The
    packed batch is given as the sequences picked, in their own order (the
    GRU undoes the sorting), with their lengths. *)
Definition pack_padded_sequence (seqs : tensor3 Q) (lens : list Q)
  : result (tensor3 Q * list Z) :=
  if decide (length lens ≤ length seqs) then
    if forallb (fun l => (0 <? long l)%Z) lens then
      Ok (take (length lens) seqs, map long lens)
    else Raise RuntimeError
  else Raise IndexError.

(** ** [class GAT] *)

Module GAT.

Record t := {
  query_emb : Linear;
  key_emb : Linear;
  val_emb : Linear;
  att : MultiheadAttention
}.

Definition forward (self : t) (node_encodings : tensor3 Q)
    (adj_mat : tensor3 bool) : result (tensor3 Q) :=
  queries ← rmap (rmap (linear (query_emb self))) (transpose node_encodings);
  keys ← rmap (rmap (linear (key_emb self))) (transpose node_encodings);
  vals ← rmap (rmap (linear (val_emb self))) (transpose node_encodings);
  att_op ← mha (att self) queries keys vals
             (BoolMask (map (map (map negb)) adj_mat));
  Ok (transpose att_op).

End GAT.

(** ** [class PGPEncoder] *)

Module PGPEncoder.

Record t := {
  target_agent_emb : Linear;
  target_agent_enc : GRU;
  node_emb : Linear;
  node_encoder : GRU;
  nbr_emb : Linear;
  nbr_enc : GRU;
  query_emb : Linear;
  key_emb : Linear;
  val_emb : Linear;
  a_n_att : MultiheadAttention;
  mix : Linear;
  gat : list GAT.t
}.

(** [variable_size_gru_encode(feat_embedding, masks, gru)] *)
Definition variable_size_gru_encode (feat_embedding masks : tensor4 Q)
    (gru : GRU) : result (tensor3 Q) :=
  m0 ← col0 masks;
  let masks_for_batching :=
    map (map (fun steps => existsb (fun m => negb (to_bool m)) steps)) m0 in
  feat_embedding_batched ← masked_select2 feat_embedding masks_for_batching;
  m0' ← col0 masks;
  let seq_lens := map (map (fun steps => sumQ (map (fun m => 1 - m)%Q steps))) m0' in
  let seq_lens_batched :=
    List.filter (fun l => negb (Qeq_bool l 0)) (concat seq_lens) in
  if decide (length seq_lens_batched ≠ 0%nat) then
    feat_embedding_packed ←
      pack_padded_sequence feat_embedding_batched seq_lens_batched;
    encoding_batched ←
      gru_h_n gru feat_embedding_packed.1 feat_embedding_packed.2;
    let masks_for_scattering :=
      map (map (fun b : bool => replicate (length (hd [] encoding_batched)) b))
        masks_for_batching in
    let encoding :=
      map (map (map (fun _ : bool => 0%Q))) masks_for_scattering in
    masked_scatter3 encoding masks_for_scattering (concat encoding_batched)
  else
    let batch_size := length feat_embedding in
    let max_num := length (hd [] feat_embedding) in
    let hidden_state_size := hidden_size gru in
    Ok (replicate batch_size (replicate max_num (zeros hidden_state_size))).

(** [t[mask] = vals[mask]] for a boolean [mask]: both indexings need the
    mask to have the shape of the indexed tensor. *)
Definition masked_assign (t : tensor3 Q) (mask : tensor3 bool) (vals : tensor3 Q)
  : result (tensor3 Q) :=
  if decide (shape3 mask = shape3 vals) then
    if decide (shape3 mask = shape3 t) then
      Ok (zip_with (zip_with (zip_with (fun (x : Q) (md : bool * Q) =>
                                          if md.1 then md.2 else x)))
            t (zip_with (zip_with zip) mask vals))
    else Raise IndexError
  else Raise IndexError.

(** The three index tensors of an advanced-indexing assignment, read in
    lock step. *)
Definition index_triples (bi si di : tensor3 Z) : list (Z * Z * Z) :=
  zip (zip (concat (concat bi)) (concat (concat si))) (concat (concat di)).

(** [adj[b, i, d] = True] for one index triple, on a tensor of shape
    [B, n, n]. *)
Definition put_true (n : nat) (adj : tensor3 bool) (idx : Z * Z * Z)
  : result (tensor3 bool) :=
  b ← norm_index (length adj) idx.1.1;
  i ← norm_index n idx.1.2;
  d ← norm_index n idx.2;
  Ok (alter (alter (<[d := true]>) i) b adj).

(** [adj[bi, si, di] = True]. *)
Definition index_put_true (n : nat) (adj : tensor3 bool) (bi si di : tensor3 Z)
  : result (tensor3 bool) :=
  rfold (put_true n) adj (index_triples bi si di).

(** Line 261: [torch.diag(torch.ones(max_nodes)).unsqueeze(0)
    .repeat(batch_size, 1, 1).bool()]. *)
Definition identity_adj (batch_size max_nodes : nat) : tensor3 bool :=
  map (map (map to_bool)) (replicate batch_size (diag (ones max_nodes))).

(** Lines 268-274 and 282-287: [torch.arange(max_nodes).unsqueeze(0)
    .unsqueeze(2).repeat(batch_size, 1, max_edges)]. *)
Definition src_indices (batch_size max_nodes max_edges : nat) : tensor3 Z :=
  replicate batch_size
    (map (fun i => replicate max_edges i) (arange max_nodes)).

Definition dummy_vals (batch_size max_nodes max_edges : nat) : tensor3 Q :=
  map (map (map float)) (src_indices batch_size max_nodes max_edges).

(** Lines 276-281: [torch.arange(batch_size).unsqueeze(1).unsqueeze(2)
    .repeat(1, max_nodes, max_edges)]. *)
Definition batch_indices (batch_size max_nodes max_edges : nat) : tensor3 Z :=
  map (fun b => replicate max_nodes (replicate max_edges b))
    (arange batch_size).

(** [edge_type == 0]. *)
Definition no_edge (edge_type : tensor3 Z) : tensor3 bool :=
  map (map (map (Z.eqb 0))) edge_type.

(** [build_adj_mat(s_next, edge_type)]; [s_next] is the address of the
    tensor, which line 275 overwrites in place. *)
Definition build_adj_mat (s_next : loc) (edge_type : tensor3 Z)
  : M (tensor3 bool) :=
  s ← load s_next;
  let batch_size := length s in
  let max_nodes := length (hd [] s) in
  let max_edges := length (hd [] (hd [] s)) in
  let adj_mat := identity_adj batch_size max_nodes in
  s' ← lift (masked_assign s (no_edge edge_type)
               (dummy_vals batch_size max_nodes max_edges));
  _ ← store s_next s';
  adj_mat ← lift (index_put_true max_nodes adj_mat
                    (drop_last_slot (batch_indices batch_size max_nodes max_edges))
                    (drop_last_slot (src_indices batch_size max_nodes max_edges))
                    (map (map (map long)) (drop_last_slot s')));
  mret (tensor_or adj_mat (map transpose adj_mat)).

(** Lines 117-123 of [forward]: the lane-node GRU encodings. *)
Definition encode_lane_nodes (self : t) (lane_node_feats lane_node_masks : tensor4 Q)
  : result (tensor3 Q) :=
  lane_node_embedding ←
    rmap (rmap (rmap (linear_act (node_emb self)))) lane_node_feats;
  variable_size_gru_encode lane_node_embedding lane_node_masks (node_encoder self).

(** Lines 126-144: one kind of surrounding agent, with its type flag
    ([zeros_like] or [ones_like] of the slice [0:1]) appended. *)
Definition encode_nbrs (self : t) (flag : Q) (feats masks : tensor4 Q)
  : result (tensor3 Q) :=
  let feats := map (map (map (fun row : list Q =>
                 row ++ map (fun _ => flag) (take 1 row)))) feats in
  embedding ← rmap (rmap (rmap (linear_act (nbr_emb self)))) feats;
  variable_size_gru_encode embedding masks (nbr_enc self).

(** Lines 174-178: the node-level mask, 1 for a node without valid pose. *)
Definition node_masks (lane_node_masks : tensor4 Q) : result (list (list Q)) :=
  m0 ← col0 lane_node_masks;
  let valid := map (map (map (fun m => negb (to_bool m)))) m0 in
  let any_valid := map (map (existsb (fun b : bool => b))) valid in
  Ok (map (map (fun b => of_bool (negb b))) any_valid).

(** Lines 171-172: [lane_node_enc += gat_layer(lane_node_enc, adj_mat)]. *)
Definition gat_layers (layers : list GAT.t) (adj_mat : tensor3 bool)
    (lane_node_enc : tensor3 Q) : result (tensor3 Q) :=
  rfold (fun enc layer => upd ← GAT.forward layer enc adj_mat; add3 enc upd)
    lane_node_enc layers.

Definition forward (self : t) (inputs : dict) : M dict :=
  (* Encode target agent *)
  target_agent_feats ←
    lift (getitem inputs "target_agent_representation" ≫= as_float3);
  target_agent_embedding ←
    lift (rmap (rmap (linear_act (target_agent_emb self))) target_agent_feats);
  target_agent_enc ←
    lift (gru_h_n (target_agent_enc self) target_agent_embedding
            (map (fun s => Z.of_nat (length s)) target_agent_embedding));
  (* Encode lane nodes *)
  map_representation ← lift (getitem inputs "map_representation" ≫= as_dict);
  lane_node_feats ←
    lift (getitem map_representation "lane_node_feats" ≫= as_float4);
  lane_node_masks ←
    lift (getitem map_representation "lane_node_masks" ≫= as_float4);
  lane_node_enc ← lift (encode_lane_nodes self lane_node_feats lane_node_masks);
  (* Encode surrounding agents *)
  surrounding ←
    lift (getitem inputs "surrounding_agent_representation" ≫= as_dict);
  nbr_vehicle_feats ← lift (getitem surrounding "vehicles" ≫= as_float4);
  nbr_vehicle_masks ← lift (getitem surrounding "vehicle_masks" ≫= as_float4);
  nbr_vehicle_enc ←
    lift (encode_nbrs self 0 nbr_vehicle_feats nbr_vehicle_masks);
  nbr_ped_feats ← lift (getitem surrounding "pedestrians" ≫= as_float4);
  nbr_ped_masks ← lift (getitem surrounding "pedestrian_masks" ≫= as_float4);
  nbr_ped_enc ← lift (encode_nbrs self 1 nbr_ped_feats nbr_ped_masks);
  (* Agent-node attention *)
  nbr_encodings ← lift (cat_dim1 nbr_vehicle_enc nbr_ped_enc);
  queries ← lift (rmap (rmap (linear (query_emb self))) lane_node_enc);
  keys ← lift (rmap (rmap (linear (key_emb self))) nbr_encodings);
  vals ← lift (rmap (rmap (linear (val_emb self))) nbr_encodings);
  agent_node_masks ← lift (getitem inputs "agent_node_masks" ≫= as_dict);
  an_vehicles ← lift (getitem agent_node_masks "vehicles" ≫= as_float3);
  an_pedestrians ← lift (getitem agent_node_masks "pedestrians" ≫= as_float3);
  attn_masks ← lift (cat_dim2 an_vehicles an_pedestrians);
  att_op ← lift (mha (a_n_att self) (transpose queries) (transpose keys)
                   (transpose vals) (FloatMask attn_masks));
  let att_op := transpose att_op in
  (* Concatenate with original node encodings and 1x1 conv *)
  mixed ← lift (cat_dim2 lane_node_enc att_op);
  lane_node_enc ← lift (rmap (rmap (linear_act (mix self))) mixed);
  (* GAT layers *)
  s_next ← lift (getitem map_representation "s_next" ≫= as_ref);
  edge_type ← lift (getitem map_representation "edge_type" ≫= as_int3);
  adj_mat ← build_adj_mat s_next edge_type;
  lane_node_enc ← lift (gat_layers (gat self) adj_mat lane_node_enc);
  (* Lane node masks *)
  lane_node_masks ← lift (node_masks lane_node_masks);
  (* Return encodings *)
  let encodings : dict :=
    {[ "target_agent_encoding" := PFloat2 target_agent_enc;
       "context_encoding" :=
         PDict {[ "combined" := PFloat3 lane_node_enc;
                  "combined_masks" := PFloat2 lane_node_masks;
                  "map" := PNone; "vehicles" := PNone; "pedestrians" := PNone;
                  "map_masks" := PNone; "vehicle_masks" := PNone;
                  "pedestrian_masks" := PNone ]} ]} in
  (* Pass on initial nodes and edge structure to aggregator *)
  if contains inputs "init_node" then
    init_node ← lift (getitem inputs "init_node");
    let encodings := <["init_node" := init_node]> encodings in
    node_seq_gt ← lift (getitem inputs "node_seq_gt");
    let encodings := <["node_seq_gt" := node_seq_gt]> encodings in
    s_next ← lift (getitem map_representation "s_next");
    let encodings := <["s_next" := s_next]> encodings in
    edge_type ← lift (getitem map_representation "edge_type");
    mret (<["edge_type" := edge_type]> encodings)
  else mret encodings.

End PGPEncoder.

(** ** [class GoalConditioned(GlobalAttention)] *)

Module GoalConditioned.

(** [goal_op] is [nn.Linear(goal_h2_size, 1)]: one weight row and one bias.
    [training] is the mode flag of [nn.Module]. *)
Record t := {
  goal_h1 : Linear;
  goal_h2 : Linear;
  goal_op_weight : list Q;
  goal_op_bias : Q;
  num_samples : nat;
  pre_train : bool;
  training : bool
}.

Definition goal_op (self : t) : Linear :=
  {| in_features := length (goal_op_weight self);
     weight := [goal_op_weight self];
     bias := [goal_op_bias self] |}.

(** The goal prediction header applied to one row of [enc_batched]. *)
Definition goal_head (self : t) (x : list Q) : result (list Q) :=
  h1 ← linear_act (goal_h1 self) x;
  h2 ← linear_act (goal_h2 self) h1;
  linear (goal_op self) h2.

(** [compute_goal_probs(target_agent_encoding, node_encodings, node_masks)].
    The header is applied to [enc_batched] row by row; when every node is
    masked the batch has no row, and the width that [nn.Linear] would still
    compare with its [in_features] is not recorded. *)
Definition compute_goal_probs (self : t) (target_agent_encoding : list (list Q))
    (node_encodings : tensor3 Q) (node_masks : list (list Q))
  : result (list (list xreal)) :=
  let max_nodes := length (hd [] node_encodings) in
  let target_agent_encoding :=
    map (fun v => replicate max_nodes v) target_agent_encoding in
  enc ← cat_dim2 target_agent_encoding node_encodings;
  (* masks_goal = ~node_masks.unsqueeze(-1).bool() *)
  let valid := map (map (fun m => negb (to_bool m))) node_masks in
  let masks_goal := map (map (fun b : bool => [b])) valid in
  enc_batched ← masked_select2 enc valid;
  goal_ops_ ← rmap (goal_head self) enc_batched;
  let goal_ops := map (map (map (fun _ : bool => 0%Q))) masks_goal in
  goal_ops ← masked_scatter3 goal_ops masks_goal (concat goal_ops_);
  let goal_ops := map (map (fun c => hd 0%Q c)) goal_ops in
  Ok (zip_with
        (fun ops masks =>
           log_softmax
             (zip_with (fun g m => xadd (Fin (Q2R g)) (torch_log (1 - m)))
                ops masks))
        goal_ops node_masks).

(** [node_encodings[batch_indices, goals]]: the two index tensors are
    broadcast against each other. *)
Definition gather (node_encodings : tensor3 Q) (batch_indices goals : list (list Z))
  : result (tensor3 Q) :=
  rows ← bcast batch_indices goals;
  rmap (fun bg : list Z * list Z =>
          pairs ← bcast bg.1 bg.2;
          rmap (fun ij : Z * Z =>
                  b ← norm_index (length node_encodings) ij.1;
                  let nodes := default [] (node_encodings !! b) in
                  g ← norm_index (length nodes) ij.2;
                  Ok (default [] (nodes !! g)))
            pairs)
    rows.

Section Forward.

(** The random source of [torch], the sampler of
    [torch.distributions.Categorical] over a tensor of probabilities
    [batch, num_samples, max_nodes], and [GlobalAttention.forward], the
    aggregator of the base class, which is not part of these sources. *)
Context {rng : Type}.
Variable categorical_sample : tensor3 xreal → ST rng (list (list Z)).
Variable global_attention_forward : dict → result (list (list Q)).

(** Lines 75-88 of [forward]: the goals, forced or sampled. *)
Definition select_goals (self : t) (encodings : dict)
    (node_masks : list (list Q)) (goal_log_probs : list (list xreal))
  : ST rng (list (list Z)) :=
  if pre_train self && training self then
    let max_nodes := length (hd [] node_masks) in
    node_seq_gt ← lift (getitem encodings "node_seq_gt" ≫= as_float2);
    final ← lift (rmap (fun seq : list Q =>
                          match last seq with
                          | Some x => Ok x
                          | None => Raise IndexError
                          end) node_seq_gt);
    mret (map (fun x => map (fun y => (long y - Z.of_nat max_nodes)%Z)
                          (replicate (num_samples self) x)) final)
  else
    categorical_sample
      (map (fun row => replicate (num_samples self) (map xexp row))
         goal_log_probs).

Definition forward (self : t) (encodings : dict) : ST rng dict :=
  (* Unpack encodings *)
  target_agent_encoding ←
    lift (getitem encodings "target_agent_encoding" ≫= as_float2);
  context_encoding ← lift (getitem encodings "context_encoding" ≫= as_dict);
  node_encodings ← lift (getitem context_encoding "combined" ≫= as_float3);
  node_masks ← lift (getitem context_encoding "combined_masks" ≫= as_float2);
  (* Predict goal log-probabilities *)
  goal_log_probs ←
    lift (compute_goal_probs self target_agent_encoding node_encodings node_masks);
  goals ← select_goals self encodings node_masks goal_log_probs;
  (* Aggregate context *)
  agg_enc ← lift (global_attention_forward encodings);
  let agg_enc := map (fun v => replicate (num_samples self) v) agg_enc in
  let batch_indices :=
    map (fun b => replicate (num_samples self) b) (arange (length agg_enc)) in
  goal_encodings ← lift (gather node_encodings batch_indices goals);
  agg_enc ← lift (cat_dim2 agg_enc goal_encodings);
  mret ({[ "agg_encoding" := PFloat3 agg_enc;
           "goal_log_probs" := PXReal2 goal_log_probs ]} : dict).

End Forward.

End GoalConditioned.

(** * Definitions used to state the properties *)

(** ** Entries and shapes *)

(** [m[i, j]] and [t[b, i, j]], [None] out of range. *)
Definition get2 {A} (m : list (list A)) (i j : nat) : option A :=
  m !! i ≫= (fun row => row !! j).

Definition get3 {A} (t : list (list (list A))) (b i j : nat) : option A :=
  t !! b ≫= (fun m => get2 m i j).

(** An [n] by [n] matrix, and a batch of [B] of them. *)
Definition square {A} (n : nat) (m : list (list A)) : Prop :=
  length m = n ∧ Forall (fun row => length row = n) m.

Definition adj_shape (B N : nat) (X : list (list (list bool))) : Prop :=
  length X = B ∧ Forall (square N) X.

(** The position written by one index triple. *)
Definition norm_triple (B N : nat) (t : Z * Z * Z) : result (nat * nat * nat) :=
  b ← norm_index B t.1.1; i ← norm_index N t.1.2; d ← norm_index N t.2;
  Ok (b, i, d).

(** [m | m.T] on one matrix. *)
Definition sym_or (m : list (list bool)) : list (list bool) :=
  zip_with (zip_with orb) m (transpose m).

(** A rank-3 tensor: all rows of an axis have one length. *)
Definition rect3 {A} (t : list (list (list A))) : Prop :=
  shape3 t =
  replicate (length t)
    (replicate (length (hd [] t)) (length (hd [] (hd [] t)))).

(** ** The adjacency matrix of the specification *)

(** The destination written for slot [e] of node [i]: the node itself for a
    slot without edge, the entry of [s_next] otherwise. *)
Definition corrected_dest (s : list (list (list Q))) (et : list (list (list Z)))
    (b i e : nat) : option Q :=
  d ← get3 s b i e; t ← get3 et b i e;
  Some (if decide (t = 0%Z) then float (Z.of_nat i) else d).

(** Following the specification, section 4.4, entry by entry.
    Step 2: the destination of a slot, with the dummy for a slot without
    edge. *)
Definition spec_dest (s_next : list (list (list Q)))
    (edge_type : list (list (list Z))) (b i e : nat) : option Z :=
  long <$> corrected_dest s_next edge_type b i e.

(** Steps 1 and 3: the self-loop, and [adjacency[src, dest] = True] for
    every slot except the last. *)
Definition spec_marked (s_next : list (list (list Q)))
    (edge_type : list (list (list Z))) (b i j : nat) : bool :=
  let max_nodes := length (hd [] s_next) in
  let max_edges := length (hd [] (hd [] s_next)) in
  bool_decide (i = j) ||
  existsb (fun e =>
             match spec_dest s_next edge_type b i e with
             | Some d =>
                 match norm_index max_nodes d with
                 | Ok j' => bool_decide (j' = j)
                 | Raise _ => false
                 end
             | None => false
             end) (seq 0 (max_edges - 1)).

(** Step 4: the matrix or its transpose. *)
Definition adj_spec (s_next : list (list (list Q)))
    (edge_type : list (list (list Z))) (b i j : nat) : bool :=
  spec_marked s_next edge_type b i j || spec_marked s_next edge_type b j i.

(** ** Validity of time steps and entities *)

(** A time step is valid when its mask is 0 at feature index 0. *)
Definition step_valid (row : list Q) : bool :=
  match row with
  | m :: _ => Qeq_bool m 0
  | [] => false
  end.

(** An entity is valid when it has a valid time step. *)
Definition entity_valid (steps : list (list Q)) : bool := existsb step_valid steps.

(** The validity of every entity of a mask tensor. *)
Definition entity_mask (masks : list (list (list (list Q)))) : list (list bool) :=
  map (map entity_valid) masks.

(** The number of valid time steps of an entity. *)
Definition valid_steps (steps : list (list Q)) : nat :=
  length (List.filter step_valid steps).

(** The mask of a time step has an entry at feature index 0, and it is 0
    or 1. *)
Definition row_binary (row : list Q) : bool :=
  match row with
  | m :: _ => Qeq_bool m 0 || Qeq_bool m 1
  | [] => false
  end.

Definition mask_binary (masks : list (list (list (list Q)))) : bool :=
  forallb (forallb (forallb row_binary)) masks.


Definition count_true (l : list bool) : nat :=
  length (List.filter (fun b : bool => b) l).

(** Row-major position of entity [(b, e)] among the valid entities. *)
Definition rank (V : list (list bool)) (b e : nat) : nat :=
  count_true (concat (take b V)) + count_true (take e (default [] (V !! b))).

(** The blocks of [t] at the positions where [V] holds, in row-major order. *)
Definition compact {A} (t : list (list A)) (V : list (list bool)) : list A :=
  map fst (List.filter snd (concat (zip_with zip t V))).

(** Rows [hs] put back at the positions where [vs] holds, [z] elsewhere. *)
Fixpoint place (vs : list bool) (hs : list (list Q)) (z : list Q) : list (list Q) :=
  match vs with
  | [] => []
  | true :: vs' => hd z hs :: place vs' (tl hs) z
  | false :: vs' => z :: place vs' hs z
  end.

(** The same over the batch axis: each example takes as many rows of [hs]
    as it has valid entities. *)
Fixpoint place2 (V : list (list bool)) (hs : list (list Q)) (z : list Q)
  : list (list (list Q)) :=
  match V with
  | [] => []
  | vs :: V' =>
      place vs (take (count_true vs) hs) z
        :: place2 V' (drop (count_true vs) hs) z
  end.

(** The numbers of valid steps of the valid entities, in row-major order. *)
Definition valid_lens (masks : list (list (list (list Q)))) : list Z :=
  map (fun steps => Z.of_nat (valid_steps steps))
    (List.filter entity_valid (concat masks)).

(** A GRU stand-in for the examples: the hidden state of a sequence is the
    sum of the features of its valid steps, and the number of those steps. *)
Definition sum_gru : GRU :=
  {| hidden_size := 2;
     gru_h_n := fun seqs lens =>
       Ok (zip_with (fun s l => [sumQ (concat (take (Z.to_nat l) s)); inject_Z l])
             seqs lens) |}.

(** The same with the check of [nn.GRU(input_size, 2)] on its input: every
    step of every sequence has [input_size] features. *)
Definition checked_gru (input_size : nat) : GRU :=
  {| hidden_size := 2;
     gru_h_n := fun seqs lens =>
       if forallb (forallb (fun x : list Q => length x =? input_size)) seqs
       then gru_h_n sum_gru seqs lens
       else Raise RuntimeError |}.

(** ** Rows of scores *)

(** Entries of a row that are finite or [-inf]. *)
Definition fin_or_ninf (x : xreal) : Prop :=
  match x with Fin _ | NInf => True | _ => False end.

(** Finite entries. *)
Definition is_fin (x : xreal) : Prop :=
  match x with Fin _ => True | _ => False end.

(** The sum of the exponentials, as a real. *)
Definition expsum (xs : list xreal) : R :=
  foldr (fun x acc => match x with Fin a => exp a + acc | _ => acc end)%R 0%R xs.

(** The row that [log_softmax] receives: score plus [log (1 - mask)]. *)
Definition masked_scores (ops masks : list Q) : list xreal :=
  zip_with (fun g m => xadd (Fin (Q2R g)) (torch_log (1 - m))) ops masks.

(** A node mask entry is 0 or 1. *)
Definition node_binary (m : Q) : bool := Qeq_bool m 0 || Qeq_bool m 1.

(** ** The inputs and the output of the encoder *)

(** The dictionary that [PGPEncoder.forward] builds at lines 181-193. *)
Definition encoder_output (target_agent_enc : list (list Q))
    (combined : list (list (list Q))) (combined_masks : list (list Q))
  : gmap string pyobj :=
  {[ "target_agent_encoding" := PFloat2 target_agent_enc;
     "context_encoding" :=
       PDict {[ "combined" := PFloat3 combined;
                "combined_masks" := PFloat2 combined_masks;
                "map" := PNone; "vehicles" := PNone; "pedestrians" := PNone;
                "map_masks" := PNone; "vehicle_masks" := PNone;
                "pedestrian_masks" := PNone ]} ]}.

(** The inputs that [PGPEncoder.forward] reads, with their types. *)
Record encoder_inputs := {
  in_target : list (list (list Q));
  in_map : gmap string pyobj;
  in_lane_feats : list (list (list (list Q)));
  in_lane_masks : list (list (list (list Q)));
  in_surrounding : gmap string pyobj;
  in_vehicles : list (list (list (list Q)));
  in_vehicle_masks : list (list (list (list Q)));
  in_pedestrians : list (list (list (list Q)));
  in_pedestrian_masks : list (list (list (list Q)));
  in_agent_node : gmap string pyobj;
  in_an_vehicles : list (list (list Q));
  in_an_pedestrians : list (list (list Q));
  in_s_next : nat;
  in_edge_type : list (list (list Z))
}.

Definition reads_inputs (inputs : gmap string pyobj) (i : encoder_inputs) : Prop :=
  inputs !! "target_agent_representation" = Some (PFloat3 (in_target i)) ∧
  inputs !! "map_representation" = Some (PDict (in_map i)) ∧
  in_map i !! "lane_node_feats" = Some (PFloat4 (in_lane_feats i)) ∧
  in_map i !! "lane_node_masks" = Some (PFloat4 (in_lane_masks i)) ∧
  inputs !! "surrounding_agent_representation"
    = Some (PDict (in_surrounding i)) ∧
  in_surrounding i !! "vehicles" = Some (PFloat4 (in_vehicles i)) ∧
  in_surrounding i !! "vehicle_masks" = Some (PFloat4 (in_vehicle_masks i)) ∧
  in_surrounding i !! "pedestrians" = Some (PFloat4 (in_pedestrians i)) ∧
  in_surrounding i !! "pedestrian_masks"
    = Some (PFloat4 (in_pedestrian_masks i)) ∧
  inputs !! "agent_node_masks" = Some (PDict (in_agent_node i)) ∧
  in_agent_node i !! "vehicles" = Some (PFloat3 (in_an_vehicles i)) ∧
  in_agent_node i !! "pedestrians" = Some (PFloat3 (in_an_pedestrians i)) ∧
  in_map i !! "s_next" = Some (PRef (in_s_next i)) ∧
  in_map i !! "edge_type" = Some (PInt3 (in_edge_type i)).

(** ** The layers as the constructors build them *)

(** [nn.Linear(i, o)]: a weight of shape [o, i] and a bias of [o] entries;
    the values are drawn at random. *)
Definition linear_dims (l : Linear) (i o : nat) : Prop :=
  in_features l = i ∧ length (weight l) = o ∧
  Forall (fun row => length row = i) (weight l) ∧ length (bias l) = o.

(** [nn.GRU(input_size, hidden, batch_first=True)]: on a batch
    of sequences of [input_size] features, with between 1 and all of the
    steps of a sequence valid, it returns one hidden state of [hidden]
    entries per sequence. *)
Definition gru_dims (gru : GRU) (input_size hidden : nat) : Prop :=
  hidden_size gru = hidden ∧
  ∀ seqs lens T,
    length lens = length seqs →
    Forall (fun s => length s = T ∧
                     Forall (fun x : list Q => length x = input_size) s) seqs →
    Forall (fun l => (0 < l ≤ Z.of_nat T)%Z) lens →
    ∃ hs, gru_h_n gru seqs lens = Ok hs ∧ length hs = length seqs ∧
          Forall (fun r => length r = hidden) hs.

Definition mask_shape (m : attn_mask) : list (list nat) :=
  match m with
  | FloatMask m => shape3 m
  | BoolMask m => shape3 m
  end.

(** [nn.MultiheadAttention(embed_dim, 1)]: queries [L, B, embed_dim], keys
    and values [S, B, embed_dim] and a mask [B, L, S] give an output of the
    shape of the queries. *)
Definition mha_dims (att : MultiheadAttention) (embed_dim : nat) : Prop :=
  ∀ q k v m L S B,
    shape3 q = replicate L (replicate B embed_dim) →
    shape3 k = replicate S (replicate B embed_dim) →
    shape3 v = replicate S (replicate B embed_dim) →
    mask_shape m = replicate B (replicate L S) →
    ∃ out, mha att q k v m = Ok out ∧
           shape3 out = replicate L (replicate B embed_dim).

(** [GoalConditioned.__init__(args)], lines 22-53: the arguments read, and
    the header they give. *)
Module GoalConditionedInit.

Record args := {
  context_enc_size : nat;
  target_agent_enc_size : nat;
  goal_h1_size : nat;
  goal_h2_size : nat;
  num_samples : nat;
  pre_train : bool
}.

Definition init (a : args) (self : GoalConditioned.t) : Prop :=
  linear_dims (GoalConditioned.goal_h1 self)
    (context_enc_size a + target_agent_enc_size a) (goal_h1_size a) ∧
  linear_dims (GoalConditioned.goal_h2 self) (goal_h1_size a) (goal_h2_size a) ∧
  linear_dims (GoalConditioned.goal_op self) (goal_h2_size a) 1 ∧
  GoalConditioned.num_samples self = num_samples a ∧
  GoalConditioned.pre_train self = pre_train a.

End GoalConditionedInit.

(** [GAT.__init__(in_channels, out_channels)], lines 302-312, and
    [PGPEncoder.__init__(args)], lines 15-77: the arguments read, and the
    layers they give. *)
Module PGPEncoderInit.

Record args := {
  target_agent_feat_size : nat;
  target_agent_emb_size : nat;
  target_agent_enc_size : nat;
  node_feat_size : nat;
  node_emb_size : nat;
  node_enc_size : nat;
  nbr_feat_size : nat;
  nbr_emb_size : nat;
  nbr_enc_size : nat;
  num_gat_layers : nat
}.

Definition gat_init (in_channels out_channels : nat) (g : GAT.t) : Prop :=
  linear_dims (GAT.query_emb g) in_channels out_channels ∧
  linear_dims (GAT.key_emb g) in_channels out_channels ∧
  linear_dims (GAT.val_emb g) in_channels out_channels ∧
  mha_dims (GAT.att g) out_channels.

Definition init (a : args) (self : PGPEncoder.t) : Prop :=
  linear_dims (PGPEncoder.target_agent_emb self)
    (target_agent_feat_size a) (target_agent_emb_size a) ∧
  gru_dims (PGPEncoder.target_agent_enc self)
    (target_agent_emb_size a) (target_agent_enc_size a) ∧
  linear_dims (PGPEncoder.node_emb self) (node_feat_size a) (node_emb_size a) ∧
  gru_dims (PGPEncoder.node_encoder self) (node_emb_size a) (node_enc_size a) ∧
  linear_dims (PGPEncoder.nbr_emb self) (nbr_feat_size a + 1) (nbr_emb_size a) ∧
  gru_dims (PGPEncoder.nbr_enc self) (nbr_emb_size a) (nbr_enc_size a) ∧
  linear_dims (PGPEncoder.query_emb self) (node_enc_size a) (node_enc_size a) ∧
  linear_dims (PGPEncoder.key_emb self) (nbr_enc_size a) (node_enc_size a) ∧
  linear_dims (PGPEncoder.val_emb self) (nbr_enc_size a) (node_enc_size a) ∧
  mha_dims (PGPEncoder.a_n_att self) (node_enc_size a) ∧
  linear_dims (PGPEncoder.mix self) (node_enc_size a * 2) (node_enc_size a) ∧
  length (PGPEncoder.gat self) = num_gat_layers a ∧
  Forall (gat_init (node_enc_size a) (node_enc_size a)) (PGPEncoder.gat self).

End PGPEncoderInit.



(** ** Example instances *)

(** An aggregator in pretraining mode, with two goal samples. *)
Definition example_aggregator : GoalConditioned.t :=
  {| GoalConditioned.goal_h1 :=
       {| in_features := 2; weight := [[1; 1]]%Q; bias := [0]%Q |};
     GoalConditioned.goal_h2 :=
       {| in_features := 1; weight := [[1]]%Q; bias := [0]%Q |};
     GoalConditioned.goal_op_weight := [1]%Q;
     GoalConditioned.goal_op_bias := 0%Q;
     GoalConditioned.num_samples := 2;
     GoalConditioned.pre_train := true;
     GoalConditioned.training := true |}.

(** A GRU whose weights are all zero: the hidden state stays at its initial
    value 0. *)
Definition zero_gru (h : nat) : GRU :=
  {| hidden_size := h;
     gru_h_n := fun seqs _ => Ok (map (fun _ => zeros h) seqs) |}.

(** Attention whose output projection is zero. *)
Definition zero_attention : MultiheadAttention :=
  {| mha := fun queries _ _ _ => Ok (map (map (map (fun _ => 0%Q))) queries) |}.

(** A GAT layer over one feature. *)
Definition example_gat : GAT.t :=
  {| GAT.query_emb := {| in_features := 1; weight := [[1]]%Q; bias := [0]%Q |};
     GAT.key_emb := {| in_features := 1; weight := [[1]]%Q; bias := [0]%Q |};
     GAT.val_emb := {| in_features := 1; weight := [[1]]%Q; bias := [0]%Q |};
     GAT.att := zero_attention |}.

(** An encoder with one feature everywhere; [mix] adds its two inputs and a
    bias of 1. *)
Definition example_encoder : PGPEncoder.t :=
  {| PGPEncoder.target_agent_emb :=
       {| in_features := 1; weight := [[1]]%Q; bias := [0]%Q |};
     PGPEncoder.target_agent_enc := zero_gru 1;
     PGPEncoder.node_emb :=
       {| in_features := 1; weight := [[1]]%Q; bias := [0]%Q |};
     PGPEncoder.node_encoder :=
       {| hidden_size := 1;
          gru_h_n := fun seqs _ => Ok (map (fun s => [sumQ (concat s)]) seqs) |};
     PGPEncoder.nbr_emb :=
       {| in_features := 2; weight := [[1; 1]]%Q; bias := [0]%Q |};
     PGPEncoder.nbr_enc := zero_gru 1;
     PGPEncoder.query_emb :=
       {| in_features := 1; weight := [[1]]%Q; bias := [0]%Q |};
     PGPEncoder.key_emb :=
       {| in_features := 1; weight := [[1]]%Q; bias := [0]%Q |};
     PGPEncoder.val_emb :=
       {| in_features := 1; weight := [[1]]%Q; bias := [0]%Q |};
     PGPEncoder.a_n_att := zero_attention;
     PGPEncoder.mix :=
       {| in_features := 2; weight := [[1; 1]]%Q; bias := [1]%Q |};
     PGPEncoder.gat := [example_gat] |}.

(** One example, two lane nodes of one pose each (node 1 is padding), one
    vehicle and one pedestrian; every edge slot is a placeholder. *)
Definition example_map : gmap string pyobj :=
  {[ "lane_node_feats" := PFloat4 [[[[3]]; [[5]]]]%Q;
     "lane_node_masks" := PFloat4 [[[[0]]; [[1]]]]%Q;
     "s_next" := PRef 0;
     "edge_type" := PInt3 [[[0; 0]; [0; 0]]]%Z ]}.

Definition example_inputs : gmap string pyobj :=
  {[ "target_agent_representation" := PFloat3 [[[1]]]%Q;
     "map_representation" := PDict example_map;
     "surrounding_agent_representation" :=
       PDict {[ "vehicles" := PFloat4 [[[[1]]]]%Q;
                "vehicle_masks" := PFloat4 [[[[0]]]]%Q;
                "pedestrians" := PFloat4 [[[[1]]]]%Q;
                "pedestrian_masks" := PFloat4 [[[[0]]]]%Q ]};
     "agent_node_masks" :=
       PDict {[ "vehicles" := PFloat3 [[[0]; [0]]]%Q;
                "pedestrians" := PFloat3 [[[0]; [0]]]%Q ]};
     "init_node" := PFloat2 [[1; 0]]%Q;
     "node_seq_gt" := PFloat2 [[2; 3]]%Q ]}.

(** The store: [s_next] at address 0, pointing everywhere at node 7. *)
Definition example_heap : gmap nat (list (list (list Q))) :=
  {[ 0%nat := [[[7; 7]; [7; 7]]]%Q ]}.

(** The two output tensors of the encoder, when it returns. *)
Definition combined_and_masks (r : result (gmap string pyobj))
  : result (pyobj * pyobj) :=
  encodings ← r;
  context ← getitem encodings "context_encoding" ≫= as_dict;
  combined ← getitem context "combined";
  masks ← getitem context "combined_masks";
  Ok (combined, masks).

(** Encodings as the example encoder returns them, with the ground truth. *)
Definition example_encodings : gmap string pyobj :=
  {[ "target_agent_encoding" := PFloat2 [[1]]%Q;
     "context_encoding" :=
       PDict {[ "combined" := PFloat3 [[[4]; [1]]]%Q;
                "combined_masks" := PFloat2 [[0; 1]]%Q ]};
     "node_seq_gt" := PFloat2 [[2; 3]]%Q ]}.

(** A sampler for the examples: it consumes one number of the random
    source and returns that number as every goal. *)
Definition counter_sample (probs : list (list (list xreal)))
  : ST nat (list (list Z)) :=
  fun seed => (Ok (map (map (fun _ => Z.of_nat seed)) probs), S seed).

(** A stand-in for the base aggregator. *)
Definition example_attention (encodings : gmap string pyobj)
  : result (list (list Q)) := Ok [[1]]%Q.

(** An aggregator in evaluation mode: the goals are sampled. *)
Definition example_sampling_aggregator : GoalConditioned.t :=
  {| GoalConditioned.goal_h1 :=
       {| in_features := 2; weight := [[1; 1]]%Q; bias := [0]%Q |};
     GoalConditioned.goal_h2 :=
       {| in_features := 1; weight := [[1]]%Q; bias := [0]%Q |};
     GoalConditioned.goal_op_weight := [1]%Q;
     GoalConditioned.goal_op_bias := 0%Q;
     GoalConditioned.num_samples := 2;
     GoalConditioned.pre_train := true;
     GoalConditioned.training := false |}.

(** A store with a second tensor besides [s_next]. *)
Definition example_heap2 : gmap nat (list (list (list Q))) :=
  {[ 0%nat := [[[7; 7]; [7; 7]]]%Q; 1%nat := [[[9]]]%Q ]}.

(** The arguments from which the example header and the example encoder
    are built: one feature everywhere, one GAT layer. *)
Definition example_header_args : GoalConditionedInit.args :=
  {| GoalConditionedInit.context_enc_size := 1;
     GoalConditionedInit.target_agent_enc_size := 1;
     GoalConditionedInit.goal_h1_size := 1;
     GoalConditionedInit.goal_h2_size := 1;
     GoalConditionedInit.num_samples := 2;
     GoalConditionedInit.pre_train := true |}.




(** * Properties of the encoder *)

Section EncoderFacts.

Import PGPEncoder.

Lemma omap_lookup_total {A B} (f : A → option B) (l : list A) :
  Forall (fun x => is_Some (f x)) l →
  length (omap f l) = length l ∧ ∀ i, omap f l !! i = l !! i ≫= f.
Proof.
  induction 1 as [|x l [y Hy] _ [IHlen IH]].
  - split; [done|]. intros i. by rewrite lookup_nil.
  - change (omap f (x :: l))
      with (match f x with Some z => z :: omap f l | None => omap f l end).
    rewrite Hy. split; [simpl; by rewrite IHlen|].
    intros [|i]; simpl; [by rewrite Hy|apply IH].
Qed.

Lemma square_row {A} n (m : list (list A)) i row :
  square n m → m !! i = Some row → length row = n.
Proof.
  intros [_ Hrows] Hi. rewrite Forall_lookup in Hrows. eauto.
Qed.

Lemma transpose_square {A} n (m : list (list A)) :
  square n m →
  square n (transpose m) ∧ ∀ i j, get2 (transpose m) j i = get2 m i j.
Proof.
  intros Hsq. pose proof Hsq as [Hlen Hrows].
  assert (Hhd : length (hd [] m) = n).
  { destruct m as [|r m]; simpl in *; [done|]. by inversion Hrows. }
  assert (Hcol : ∀ j, j < n →
            Forall (fun row : list A => is_Some (row !! j)) m).
  { intros j Hj. eapply Forall_impl; [exact Hrows|]. simpl.
    intros row Hr. apply lookup_lt_is_Some. lia. }
  unfold transpose. rewrite Hhd. split.
  - split; [by rewrite length_map, length_seq|].
    rewrite Forall_lookup. intros j col Hcolj.
    rewrite list_lookup_fmap in Hcolj.
    assert (Hj : j < n).
    { destruct (seq 0 n !! j) eqn:Hs; [|done].
      apply lookup_lt_Some in Hs. by rewrite length_seq in Hs. }
    rewrite (lookup_seq_lt _ _ _ Hj) in Hcolj. simplify_eq/=.
    destruct (omap_lookup_total (fun row : list A => row !! j) m (Hcol j Hj)) as [-> _].
    done.
  - intros i j. unfold get2. rewrite list_lookup_fmap.
    destruct (decide (j < n)) as [Hj|Hj].
    + rewrite (lookup_seq_lt _ _ _ Hj). simpl.
      destruct (omap_lookup_total (fun row : list A => row !! j) m (Hcol j Hj)) as [_ ->].
      done.
    + rewrite lookup_seq_ge by lia. simpl.
      destruct (m !! i) as [row|] eqn:Hi; simpl; [|done].
      symmetry. apply lookup_ge_None. rewrite (square_row n m i row) by done. lia.
Qed.

Lemma square_ext {A} n (m1 m2 : list (list A)) :
  square n m1 → square n m2 →
  (∀ i j, i < n → j < n → get2 m1 i j = get2 m2 i j) → m1 = m2.
Proof.
  intros H1 H2 Hget.
  apply (list_eq_same_length _ _ n); [apply H2|apply H1|].
  intros i r1 r2 Hi Hr1 Hr2.
  apply (list_eq_same_length _ _ n);
    [exact (square_row _ _ _ _ H2 Hr2)|exact (square_row _ _ _ _ H1 Hr1)|].
  intros j x y Hj Hx Hy.
  specialize (Hget i j Hi Hj). unfold get2 in Hget.
  rewrite Hr1, Hr2 in Hget. simpl in Hget. congruence.
Qed.

Lemma adj_shape_get B N X b i j :
  adj_shape B N X → b < B → i < N → j < N → is_Some (get3 X b i j).
Proof.
  intros [Hlen Hsq] Hb Hi Hj. unfold get3, get2.
  destruct (lookup_lt_is_Some_2 X b) as [m Hm]; [lia|].
  rewrite Forall_lookup in Hsq. pose proof (Hsq _ _ Hm) as Hm'.
  destruct (lookup_lt_is_Some_2 m i) as [row Hrow]; [destruct Hm'; lia|].
  rewrite Hm. simpl. rewrite Hrow. simpl.
  apply lookup_lt_is_Some. rewrite (square_row _ _ _ _ Hm' Hrow). lia.
Qed.

Lemma identity_adj_get B N b i j :
  b < B → i < N → j < N →
  get3 (identity_adj B N) b i j = Some (bool_decide (i = j)).
Proof.
  intros Hb Hi Hj. unfold get3, get2, identity_adj, diag, ones, zeros.
  rewrite list_lookup_fmap, lookup_replicate_2 by done. simpl.
  rewrite list_lookup_fmap, list_lookup_imap, lookup_replicate_2 by done. simpl.
  rewrite list_lookup_fmap, length_replicate.
  destruct (decide (i = j)) as [->|Hne].
  - rewrite list_lookup_insert_eq by (rewrite length_replicate; lia).
    by rewrite bool_decide_eq_true_2.
  - rewrite list_lookup_insert_ne, lookup_replicate_2 by done.
    by rewrite bool_decide_eq_false_2.
Qed.

Lemma identity_adj_shape B N : adj_shape B N (identity_adj B N).
Proof.
  unfold adj_shape, identity_adj, diag, ones, zeros. split.
  - by rewrite length_map, length_replicate.
  - rewrite Forall_lookup. intros b m Hm.
    rewrite list_lookup_fmap in Hm.
    destruct (replicate B _ !! b) as [m0|] eqn:Hm0; simplify_eq/=.
    apply lookup_replicate in Hm0 as [-> _]. split.
    + by rewrite length_map, length_imap, length_replicate.
    + rewrite Forall_lookup. intros i row Hrow.
      rewrite list_lookup_fmap, list_lookup_imap in Hrow.
      destruct (replicate N 1%Q !! i) eqn:Hi; simplify_eq/=.
      by rewrite length_map, length_insert, !length_replicate.
Qed.

Lemma norm_index_lt n i k : norm_index n i = Ok k → k < n.
Proof.
  unfold norm_index. repeat case_decide; intros; simplify_eq; lia.
Qed.

Lemma norm_index_of_nat n k : k < n → norm_index n (Z.of_nat k) = Ok k.
Proof.
  intros Hk. unfold norm_index. rewrite decide_True by lia.
  by rewrite Nat2Z.id.
Qed.

Lemma put_true_spec B N X t X' :
  adj_shape B N X → put_true N X t = Ok X' →
  adj_shape B N X' ∧
  ∃ p, norm_triple B N t = Ok p ∧
    ∀ b i j, get3 X' b i j = Some true ↔
             get3 X b i j = Some true ∨ p = (b, i, j).
Proof.
  intros [Hlen Hsq] Hput. unfold put_true in Hput. unfold norm_triple.
  rewrite Hlen in Hput.
  destruct (norm_index B t.1.1) as [b0|] eqn:Hb; simpl in *; [|done].
  destruct (norm_index N t.1.2) as [i0|] eqn:Hi; simpl in *; [|done].
  destruct (norm_index N t.2) as [d0|] eqn:Hd; simpl in *; [|done].
  simplify_eq. apply norm_index_lt in Hb, Hi, Hd. split.
  - split; [by rewrite length_alter|].
    rewrite Forall_lookup. intros b m Hm.
    rewrite Forall_lookup in Hsq.
    rewrite list_lookup_alter in Hm. case_decide; [|by eauto].
    subst. destruct (X !! b) as [m0|] eqn:Hm0; simplify_eq/=.
    destruct (Hsq _ _ Hm0) as [Hl Hr]. split; [by rewrite length_alter|].
    rewrite Forall_lookup. intros i row Hrow.
    rewrite Forall_lookup in Hr.
    rewrite list_lookup_alter in Hrow. case_decide; [|by eauto].
    subst. destruct (m0 !! i) as [r0|] eqn:Hr0; simplify_eq/=.
    rewrite length_insert. eauto.
  - eexists. split; [done|]. intros b i j. unfold get3, get2.
    rewrite list_lookup_alter. case_decide as Hbb; subst.
    2:{ split; [by left|]. intros [?|?]; [done|congruence]. }
    destruct (X !! b) as [m0|] eqn:Hm0; simpl.
    2:{ apply lookup_ge_None in Hm0. lia. }
    rewrite list_lookup_alter. case_decide as Hii; subst.
    2:{ split; [by left|]. intros [?|?]; [done|congruence]. }
    rewrite Forall_lookup in Hsq. pose proof (Hsq _ _ Hm0) as Hm0'.
    destruct (m0 !! i) as [r0|] eqn:Hr0; simpl.
    2:{ apply lookup_ge_None in Hr0. destruct Hm0'. lia. }
    pose proof (square_row _ _ _ _ Hm0' Hr0) as Hlr.
    rewrite list_lookup_insert. case_decide as Hjj.
    + destruct Hjj as [-> _]. split; [by right|done].
    + split; [by left|]. intros [?|?]; [done|]. simplify_eq. lia.
Qed.

Lemma rfold_put_true_spec B N L : ∀ X X',
  adj_shape B N X → rfold (put_true N) X L = Ok X' →
  adj_shape B N X' ∧
  ∀ b i j, get3 X' b i j = Some true ↔
           get3 X b i j = Some true ∨
           ∃ t, t ∈ L ∧ norm_triple B N t = Ok (b, i, j).
Proof.
  induction L as [|t L IH]; intros X X' Hsh Hfold; simpl in Hfold.
  - simplify_eq. split; [done|]. intros b i j. split; [by left|].
    intros [?|(t & Ht & _)]; [done|]. by apply elem_of_nil in Ht.
  - destruct (put_true N X t) as [X1|] eqn:Hput; simpl in Hfold; [|done].
    destruct (put_true_spec _ _ _ _ _ Hsh Hput) as (Hsh1 & p & Hp & Hget1).
    destruct (IH _ _ Hsh1 Hfold) as [Hsh' Hget']. split; [done|].
    intros b i j. rewrite Hget', Hget1. split.
    + intros [[?| ->]|(t' & Ht' & Hn)]; [by left|right..].
      * exists t. split; [left|done].
      * exists t'. split; [by right|done].
    + intros [?|(t' & Ht' & Hn)]; [by left; left|].
      apply elem_of_cons in Ht' as [->|Ht'].
      * left. right. congruence.
      * right. eauto.
Qed.

Lemma rfold_put_true_ok B N L : ∀ X,
  adj_shape B N X →
  (∀ t, t ∈ L → ∃ p, norm_triple B N t = Ok p) →
  ∃ X', rfold (put_true N) X L = Ok X'.
Proof.
  induction L as [|t L IH]; intros X Hsh Hall; simpl; [by eauto|].
  destruct (Hall t) as [p Hp]; [left|].
  assert (∃ X1, put_true N X t = Ok X1) as [X1 HX1].
  { unfold put_true. unfold norm_triple in Hp. destruct Hsh as [-> _].
    destruct (norm_index B t.1.1); simpl in *; [|done].
    destruct (norm_index N t.1.2); simpl in *; [|done].
    destruct (norm_index N t.2); simpl in *; [|done]. eauto. }
  rewrite HX1. simpl.
  destruct (put_true_spec _ _ _ _ _ Hsh HX1) as [Hsh1 _].
  apply IH; [done|]. intros t' Ht'. apply Hall. by right.
Qed.

Lemma sym_or_spec n m :
  square n m →
  square n (sym_or m) ∧
  ∀ i j, i < n → j < n →
    get2 (sym_or m) i j = x ← get2 m i j; y ← get2 m j i; Some (x || y).
Proof.
  intros Hsq. destruct (transpose_square n m Hsq) as [Hsqt Hgt].
  pose proof Hsq as [Hlen Hrows]. pose proof Hsqt as [Hlent Hrowst].
  unfold sym_or. split.
  - split; [rewrite length_zip_with; lia|].
    rewrite Forall_lookup. intros i row Hrow.
    apply lookup_zip_with_Some in Hrow as (r1 & r2 & -> & Hr1 & Hr2).
    rewrite length_zip_with.
    rewrite (square_row _ _ _ _ Hsq Hr1), (square_row _ _ _ _ Hsqt Hr2). lia.
  - intros i j Hi Hj. rewrite <- (Hgt j i). unfold get2.
    rewrite lookup_zip_with.
    destruct (m !! i) as [r1|]; simpl; [|done].
    destruct (transpose m !! i) as [r2|]; simpl.
    + rewrite lookup_zip_with. by destruct (r1 !! j).
    + by destruct (r1 !! j).
Qed.

Lemma sym_or_transpose n m : square n m → transpose (sym_or m) = sym_or m.
Proof.
  intros Hsq. destruct (sym_or_spec n m Hsq) as [Hsqa Hga].
  destruct (transpose_square n _ Hsqa) as [Hsqt Hgt].
  apply (square_ext n); [done..|]. intros i j Hi Hj.
  rewrite Hgt, !Hga by done.
  destruct (get2 m i j), (get2 m j i); simpl; try done.
  by rewrite orb_comm.
Qed.

Lemma tensor_or_transpose X :
  tensor_or X (map transpose X) = map sym_or X.
Proof.
  unfold tensor_or. rewrite zip_with_fmap_r.
  induction X as [|m X IH]; simpl; [done|]. by rewrite IH.
Qed.

Lemma sym_adj_spec B N X :
  adj_shape B N X →
  adj_shape B N (map sym_or X) ∧
  map transpose (map sym_or X) = map sym_or X ∧
  ∀ b i j, b < B → i < N → j < N →
    get3 (map sym_or X) b i j =
      x ← get3 X b i j; y ← get3 X b j i; Some (x || y).
Proof.
  intros [Hlen Hsq]. split; [|split].
  - split; [by rewrite length_map|].
    rewrite Forall_fmap. eapply Forall_impl; [exact Hsq|].
    intros m Hm. simpl. by apply sym_or_spec.
  - rewrite <- list_fmap_compose. apply Forall_fmap_ext_1.
    eapply Forall_impl; [exact Hsq|]. intros m Hm. simpl.
    by apply (sym_or_transpose N).
  - intros b i j Hb Hi Hj. unfold get3. rewrite list_lookup_fmap.
    destruct (X !! b) as [m|] eqn:Hm; simpl; [|done].
    rewrite Forall_lookup in Hsq.
    by apply (sym_or_spec N m (Hsq _ _ Hm)).
Qed.

(** The run of [build_adj_mat], step by step. *)
Lemma build_adj_mat_run l et (h : gmap nat (list (list (list Q)))) :
  build_adj_mat l et h =
  match h !! l with
  | None => (Raise RuntimeError, h)
  | Some s =>
      let B := length s in
      let N := length (hd [] s) in
      let E := length (hd [] (hd [] s)) in
      match masked_assign s (no_edge et) (dummy_vals B N E) with
      | Raise e => (Raise e, h)
      | Ok s' =>
          match index_put_true N (identity_adj B N)
                  (drop_last_slot (batch_indices B N E))
                  (drop_last_slot (src_indices B N E))
                  (map (map (map long)) (drop_last_slot s')) with
          | Raise e => (Raise e, <[l := s']> h)
          | Ok X => (Ok (map sym_or X), <[l := s']> h)
          end
      end
  end.
Proof.
  unfold build_adj_mat, mbind, ST_bind, load, lift, store, mret, ST_ret.
  destruct (h !! l) as [s|]; [|done]. simpl.
  destruct (masked_assign _ _ _) as [s'|]; [|done].
  destruct (index_put_true _ _ _ _ _) as [X|]; [|done].
  by rewrite tensor_or_transpose.
Qed.

Lemma build_adj_mat_sym l et (h h' : gmap nat (list (list (list Q)))) s A :
  h !! l = Some s → build_adj_mat l et h = (Ok A, h') →
  adj_shape (length s) (length (hd [] s)) A ∧
  map transpose A = A ∧
  ∀ b i, b < length s → i < length (hd [] s) → get3 A b i i = Some true.
Proof.
  intros Hs Hrun. rewrite build_adj_mat_run, Hs in Hrun. simpl in Hrun.
  destruct (masked_assign _ _ _) as [s'|]; [|done].
  destruct (index_put_true _ _ _ _ _) as [X|] eqn:HX; [|done].
  simplify_eq. unfold index_put_true in HX.
  destruct (rfold_put_true_spec _ _ _ _ _ (identity_adj_shape _ _) HX)
    as [Hsh Hget].
  destruct (sym_adj_spec _ _ _ Hsh) as (Hsh' & Hsym & Hget').
  split; [done|]. split; [done|].
  intros b i Hb Hi. rewrite Hget' by done.
  assert (get3 X b i i = Some true) as ->; [|done].
  apply Hget. left. rewrite identity_adj_get by done.
  by rewrite bool_decide_eq_true_2.
Qed.

Lemma elem_of_concat {A} (x : A) (ls : list (list A)) :
  x ∈ concat ls ↔ ∃ l, l ∈ ls ∧ x ∈ l.
Proof.
  induction ls as [|l ls IH]; simpl.
  - split; [by intros ?%elem_of_nil|]. by intros (l & ?%elem_of_nil & _).
  - rewrite elem_of_app, IH. split.
    + intros [?|(l' & ? & ?)]; [exists l; split; [left|done]|].
      exists l'. split; [by right|done].
    + intros (l' & [->|?]%elem_of_cons & ?); [by left|right; eauto].
Qed.

Lemma elem_of_flat3 {A} (x : A) (t : list (list (list A))) :
  x ∈ concat (concat t) ↔ ∃ b i e, get3 t b i e = Some x.
Proof.
  rewrite elem_of_concat. unfold get3, get2. split.
  - intros (row & (m & Hm & Hrow)%elem_of_concat & Hx).
    apply list_elem_of_lookup in Hm as [b Hb], Hrow as [i Hi], Hx as [e He].
    exists b, i, e. rewrite Hb. simpl. rewrite Hi. done.
  - intros (b & i & e & Hget).
    destruct (t !! b) as [m|] eqn:Hm; simpl in *; [|done].
    destruct (m !! i) as [row|] eqn:Hrow; simpl in *; [|done].
    exists row. split; [|by eapply list_elem_of_lookup_2].
    apply elem_of_concat. exists m.
    split; by eapply list_elem_of_lookup_2.
Qed.

Lemma map_length_Forall2 {A B} (xs : list (list A)) (ys : list (list B)) :
  map length xs = map length ys →
  Forall2 (fun x y => length x = length y) xs ys.
Proof.
  revert ys. induction xs as [|x xs IH]; intros [|y ys] Heq;
    simplify_eq/=; constructor; auto.
Qed.

Lemma zip_with_concat {A B C} (f : A → B → C) xs ys :
  Forall2 (fun x y => length x = length y) xs ys →
  zip_with f (concat xs) (concat ys) = concat (zip_with (zip_with f) xs ys).
Proof.
  induction 1 as [|x y xs ys Hlen _ IH]; simpl; [done|].
  by rewrite zip_with_app, IH.
Qed.

Lemma shape3_Forall2 {A B} (a : list (list (list A))) (b : list (list (list B))) :
  shape3 a = shape3 b →
  Forall2 (fun x y => map length x = map length y) a b.
Proof.
  unfold shape3. revert b. induction a as [|x a IH]; intros [|y b] Heq;
    simplify_eq/=; constructor; auto.
Qed.

Lemma zip_flat3 {A B} (a : list (list (list A))) (b : list (list (list B))) :
  shape3 a = shape3 b →
  zip (concat (concat a)) (concat (concat b)) =
    concat (concat (zip_with (zip_with zip) a b)) ∧
  shape3 (zip_with (zip_with zip) a b) = shape3 a.
Proof.
  intros Hsh%shape3_Forall2. split.
  - rewrite zip_with_concat.
    + f_equal. apply zip_with_concat.
      eapply Forall2_impl; [exact Hsh|]. intros x y Hxy. simpl.
      by rewrite <- (length_map length x), Hxy, length_map.
    + induction Hsh as [|x y a b Hxy _ IH]; simpl; [constructor|].
      apply Forall2_app; [by apply map_length_Forall2|done].
  - unfold shape3. induction Hsh as [|x y a b Hxy _ IH]; simpl; [done|].
    f_equal; [|done]. clear IH.
    apply map_length_Forall2 in Hxy.
    induction Hxy as [|r1 r2 x y Hr _ IH]; simpl; [done|].
    f_equal; [|done]. rewrite length_zip_with. lia.
Qed.

Lemma get3_zip {A B} (a : list (list (list A))) (b : list (list (list B))) i j k :
  get3 (zip_with (zip_with zip) a b) i j k =
    x ← get3 a i j k; y ← get3 b i j k; Some (x, y).
Proof.
  unfold get3, get2. rewrite lookup_zip_with.
  destruct (a !! i) as [m1|]; simpl; [|done].
  destruct (b !! i) as [m2|]; simpl.
  2:{ by destruct (m1 !! j ≫= _). }
  rewrite lookup_zip_with.
  destruct (m1 !! j) as [r1|]; simpl; [|done].
  destruct (m2 !! j) as [r2|]; simpl.
  2:{ by destruct (r1 !! k). }
  rewrite lookup_zip_with.
  destruct (r1 !! k); simpl; [|done]. by destruct (r2 !! k).
Qed.

Lemma index_triples_elem bi si di t :
  shape3 bi = shape3 si → shape3 bi = shape3 di →
  t ∈ index_triples bi si di ↔
  ∃ b i e, get3 bi b i e = Some t.1.1 ∧ get3 si b i e = Some t.1.2 ∧
           get3 di b i e = Some t.2.
Proof.
  intros H1 H2. unfold index_triples.
  destruct (zip_flat3 bi si H1) as [-> Hsh].
  destruct (zip_flat3 (zip_with (zip_with zip) bi si) di) as [-> _];
    [congruence|].
  rewrite elem_of_flat3. destruct t as [[tb ti] td]. simpl. split.
  - intros (b & i & e & Hg). exists b, i, e. rewrite !get3_zip in Hg.
    destruct (get3 bi b i e), (get3 si b i e), (get3 di b i e);
      simplify_eq/=; done.
  - intros (b & i & e & Hb & Hi & He). exists b, i, e.
    by rewrite !get3_zip, Hb, Hi, He.
Qed.

Lemma shape3_lookup {A} (t : list (list (list A))) B N E b i m row :
  shape3 t = replicate B (replicate N E) →
  t !! b = Some m → m !! i = Some row →
  length t = B ∧ length m = N ∧ length row = E.
Proof.
  unfold shape3. intros Hsh Hm Hrow.
  assert (length t = B) as HB.
  { by rewrite <- (length_map (map length) t), Hsh, length_replicate. }
  split; [done|].
  assert (map length m = replicate N E) as Hm'.
  { assert (map (map length) t !! b = Some (map length m)) as Hl
      by (by rewrite list_lookup_fmap, Hm).
    rewrite Hsh in Hl. by apply lookup_replicate in Hl as [-> _]. }
  split; [by rewrite <- (length_map length m), Hm', length_replicate|].
  assert (map length m !! i = Some (length row)) as Hl
    by (by rewrite list_lookup_fmap, Hrow).
  rewrite Hm' in Hl. by apply lookup_replicate in Hl as [-> _].
Qed.

Lemma shape3_get3 {A} (t : list (list (list A))) B N E b i e :
  shape3 t = replicate B (replicate N E) →
  is_Some (get3 t b i e) ↔ b < B ∧ i < N ∧ e < E.
Proof.
  intros Hsh. unfold get3, get2. split.
  - intros [x Hx].
    destruct (t !! b) as [m|] eqn:Hm; simpl in *; [|done].
    destruct (m !! i) as [row|] eqn:Hrow; simpl in *; [|done].
    destruct (shape3_lookup _ _ _ _ _ _ _ _ Hsh Hm Hrow) as (? & ? & ?).
    apply lookup_lt_Some in Hm, Hrow, Hx. lia.
  - intros (Hb & Hi & He).
    assert (length t = B) as HB.
    { unfold shape3 in Hsh.
      by rewrite <- (length_map (map length) t), Hsh, length_replicate. }
    destruct (lookup_lt_is_Some_2 t b) as [m Hm]; [lia|].
    rewrite Hm. simpl.
    assert (length m = N) as HN.
    { unfold shape3 in Hsh.
      assert (map (map length) t !! b = Some (map length m)) as Hl
        by (by rewrite list_lookup_fmap, Hm).
      rewrite Hsh in Hl. apply lookup_replicate in Hl as [Hl _].
      by rewrite <- (length_map length m), Hl, length_replicate. }
    destruct (lookup_lt_is_Some_2 m i) as [row Hrow]; [lia|].
    rewrite Hrow. simpl.
    destruct (shape3_lookup _ _ _ _ _ _ _ _ Hsh Hm Hrow) as (? & ? & ?).
    apply lookup_lt_is_Some. lia.
Qed.

Lemma removelast_lookup {A} (l : list A) e :
  removelast l !! e = if decide (e + 1 < length l) then l !! e else None.
Proof.
  rewrite removelast_firstn_len. case_decide.
  - apply lookup_take_lt. lia.
  - apply lookup_take_ge. lia.
Qed.

Lemma length_removelast {A} (l : list A) :
  length (removelast l) = length l - 1.
Proof. rewrite removelast_firstn_len, length_take. lia. Qed.

Lemma shape3_drop_last {A} (t : list (list (list A))) B N E :
  shape3 t = replicate B (replicate N E) →
  shape3 (drop_last_slot t) = replicate B (replicate N (E - 1)).
Proof.
  unfold shape3, drop_last_slot. intros Hsh.
  rewrite <- list_fmap_compose.
  apply list_eq. intros b. rewrite list_lookup_fmap.
  destruct (t !! b) as [m|] eqn:Hm; simpl.
  - assert (b < B) as Hb.
    { apply lookup_lt_Some in Hm.
      by rewrite <- (length_map (map length) t), Hsh, length_replicate in Hm. }
    rewrite lookup_replicate_2 by done. f_equal.
    rewrite <- list_fmap_compose. apply list_eq. intros i.
    rewrite list_lookup_fmap.
    destruct (m !! i) as [row|] eqn:Hrow; simpl.
    + destruct (shape3_lookup _ _ _ _ _ _ _ _ Hsh Hm Hrow) as (_ & HN & HE).
      apply lookup_lt_Some in Hrow.
      rewrite lookup_replicate_2 by lia. by rewrite length_removelast, HE.
    + symmetry. apply lookup_replicate_None.
      apply lookup_ge_None in Hrow.
      assert (map (map length) t !! b = Some (map length m)) as Hl
        by (by rewrite list_lookup_fmap, Hm).
      rewrite Hsh in Hl. apply lookup_replicate in Hl as [Hl _].
      by rewrite <- (length_map length m), Hl, length_replicate in Hrow.
  - symmetry. apply lookup_replicate_None. apply lookup_ge_None in Hm.
    by rewrite <- (length_map (map length) t), Hsh, length_replicate in Hm.
Qed.

Lemma get3_drop_last {A} (t : list (list (list A))) B N E b i e :
  shape3 t = replicate B (replicate N E) →
  get3 (drop_last_slot t) b i e =
  if decide (e + 1 < E) then get3 t b i e else None.
Proof.
  intros Hsh. unfold get3, get2, drop_last_slot. rewrite list_lookup_fmap.
  destruct (t !! b) as [m|] eqn:Hm; simpl; [|by case_decide].
  rewrite list_lookup_fmap.
  destruct (m !! i) as [row|] eqn:Hrow; simpl; [|by case_decide].
  destruct (shape3_lookup _ _ _ _ _ _ _ _ Hsh Hm Hrow) as (_ & _ & HE).
  by rewrite removelast_lookup, HE.
Qed.

Lemma get3_fmap {A B} (f : A → B) (t : list (list (list A))) b i e :
  get3 (map (map (map f)) t) b i e = f <$> get3 t b i e.
Proof.
  unfold get3, get2. rewrite list_lookup_fmap.
  destruct (t !! b) as [m|]; simpl; [|done]. rewrite list_lookup_fmap.
  destruct (m !! i) as [row|]; simpl; [|done]. by rewrite list_lookup_fmap.
Qed.

Lemma shape3_fmap {A B} (f : A → B) (t : list (list (list A))) :
  shape3 (map (map (map f)) t) = shape3 t.
Proof.
  unfold shape3. rewrite <- list_fmap_compose. apply list_fmap_ext.
  intros _ m _. simpl. rewrite <- list_fmap_compose. apply list_fmap_ext.
  intros _ row _. simpl. by rewrite length_map.
Qed.

Lemma arange_lookup n i : arange n !! i = if decide (i < n) then Some (Z.of_nat i) else None.
Proof.
  unfold arange. rewrite list_lookup_fmap. case_decide.
  - by rewrite lookup_seq_lt.
  - by rewrite lookup_seq_ge by lia.
Qed.

Lemma src_indices_shape B N E :
  shape3 (src_indices B N E) = replicate B (replicate N E).
Proof.
  unfold shape3, src_indices. rewrite fmap_replicate. f_equal.
  rewrite <- list_fmap_compose. unfold arange. rewrite <- list_fmap_compose.
  apply list_eq. intros i. rewrite list_lookup_fmap.
  destruct (decide (i < N)).
  - rewrite lookup_seq_lt, lookup_replicate_2 by done. simpl.
    by rewrite length_replicate.
  - rewrite lookup_seq_ge by lia. symmetry. apply lookup_replicate_None. lia.
Qed.

Lemma batch_indices_shape B N E :
  shape3 (batch_indices B N E) = replicate B (replicate N E).
Proof.
  unfold shape3, batch_indices, arange. rewrite <- !list_fmap_compose.
  apply list_eq. intros b. rewrite list_lookup_fmap.
  destruct (decide (b < B)).
  - rewrite lookup_seq_lt, lookup_replicate_2 by done. simpl.
    by rewrite fmap_replicate, length_replicate.
  - rewrite lookup_seq_ge by lia. symmetry. apply lookup_replicate_None. lia.
Qed.

Lemma src_indices_get B N E b i e :
  get3 (src_indices B N E) b i e =
  if decide (b < B ∧ i < N ∧ e < E) then Some (Z.of_nat i) else None.
Proof.
  unfold get3, get2, src_indices.
  destruct (decide (b < B)).
  2:{ rewrite (proj1 (lookup_replicate_None _ _ _)) by lia.
      simpl. rewrite decide_False; [done|lia]. }
  rewrite lookup_replicate_2 by done. simpl.
  rewrite list_lookup_fmap, arange_lookup. case_decide; simpl.
  2:{ rewrite decide_False; [done|lia]. }
  destruct (decide (e < E)).
  - rewrite lookup_replicate_2 by done. rewrite decide_True; [done|lia].
  - rewrite (proj1 (lookup_replicate_None _ _ _)) by lia.
    rewrite decide_False; [done|lia].
Qed.

Lemma batch_indices_get B N E b i e :
  get3 (batch_indices B N E) b i e =
  if decide (b < B ∧ i < N ∧ e < E) then Some (Z.of_nat b) else None.
Proof.
  unfold get3, get2, batch_indices.
  rewrite list_lookup_fmap, arange_lookup. case_decide; simpl.
  2:{ rewrite decide_False; [done|lia]. }
  destruct (decide (i < N)).
  2:{ rewrite (proj1 (lookup_replicate_None _ _ _)) by lia.
      simpl. rewrite decide_False; [done|lia]. }
  rewrite lookup_replicate_2 by done. simpl.
  destruct (decide (e < E)).
  - rewrite lookup_replicate_2 by done. rewrite decide_True; [done|lia].
  - rewrite (proj1 (lookup_replicate_None _ _ _)) by lia.
    rewrite decide_False; [done|lia].
Qed.

Lemma get3_zip_with {A B C} (f : A → B → C)
    (a : list (list (list A))) (b : list (list (list B))) i j k :
  get3 (zip_with (zip_with (zip_with f)) a b) i j k =
    x ← get3 a i j k; y ← get3 b i j k; Some (f x y).
Proof.
  unfold get3, get2. rewrite lookup_zip_with.
  destruct (a !! i) as [m1|]; simpl; [|done].
  destruct (b !! i) as [m2|]; simpl.
  2:{ by destruct (m1 !! j ≫= _). }
  rewrite lookup_zip_with.
  destruct (m1 !! j) as [r1|]; simpl; [|done].
  destruct (m2 !! j) as [r2|]; simpl.
  2:{ by destruct (r1 !! k). }
  rewrite lookup_zip_with.
  destruct (r1 !! k); simpl; [|done]. by destruct (r2 !! k).
Qed.

Lemma shape3_zip_with {A B C} (f : A → B → C)
    (a : list (list (list A))) (b : list (list (list B))) :
  shape3 a = shape3 b →
  shape3 (zip_with (zip_with (zip_with f)) a b) = shape3 a.
Proof.
  intros Hsh%shape3_Forall2.
  unfold shape3. induction Hsh as [|x y a b Hxy _ IH]; simpl; [done|].
  f_equal; [|done]. clear IH.
  apply map_length_Forall2 in Hxy.
  induction Hxy as [|r1 r2 x y Hr _ IH]; simpl; [done|].
  f_equal; [|done]. rewrite length_zip_with. lia.
Qed.

Lemma masked_assign_spec s mask vals s' :
  masked_assign s mask vals = Ok s' →
  shape3 mask = shape3 s ∧ shape3 vals = shape3 s ∧ shape3 s' = shape3 s ∧
  ∀ b i e, get3 s' b i e =
    x ← get3 s b i e; m ← get3 mask b i e; v ← get3 vals b i e;
    Some (if (m : bool) then v else x).
Proof.
  unfold masked_assign. intros Hok.
  case_decide as H1; [|done]. case_decide as H2; [|done]. simplify_eq.
  split; [done|]. split; [congruence|]. split.
  - apply shape3_zip_with.
    destruct (zip_flat3 mask vals H1) as [_ ->]. done.
  - intros b i e. rewrite get3_zip_with, get3_zip.
    destruct (get3 s b i e); simpl; [|done].
    destruct (get3 mask b i e); simpl; [|done].
    by destruct (get3 vals b i e).
Qed.

Lemma masked_assign_ok s mask vals :
  shape3 mask = shape3 s → shape3 vals = shape3 s →
  ∃ s', masked_assign s mask vals = Ok s'.
Proof.
  intros H1 H2. unfold masked_assign.
  rewrite !decide_True by congruence. eauto.
Qed.

Lemma long_float z : long (float z) = z.
Proof. unfold long, float. simpl. apply Z.quot_1_r. Qed.

Lemma dummy_vals_shape B N E :
  shape3 (dummy_vals B N E) = replicate B (replicate N E).
Proof. unfold dummy_vals. by rewrite shape3_fmap, src_indices_shape. Qed.

Lemma masked_assign_dummy s et s' :
  masked_assign s (no_edge et)
    (dummy_vals (length s) (length (hd [] s)) (length (hd [] (hd [] s)))) = Ok s' →
  rect3 s ∧ shape3 et = shape3 s ∧ shape3 s' = shape3 s ∧
  ∀ b i e, get3 s' b i e = corrected_dest s et b i e.
Proof.
  intros Hok.
  destruct (masked_assign_spec _ _ _ _ Hok) as (Hm & Hv & Hs' & Hget).
  unfold no_edge in Hm. rewrite shape3_fmap in Hm.
  assert (rect3 s) as Hrect.
  { unfold rect3. by rewrite <- Hv, dummy_vals_shape. }
  split; [done|]. split; [done|]. split; [done|]. intros b i e.
  rewrite Hget. unfold corrected_dest, no_edge, dummy_vals.
  rewrite !get3_fmap, src_indices_get.
  destruct (get3 s b i e) as [d|] eqn:Hd; simpl; [|done].
  assert (is_Some (get3 s b i e)) as Hin by eauto.
  apply (shape3_get3 _ _ _ _ _ _ _ Hrect) in Hin.
  rewrite decide_True by done.
  by destruct (get3 et b i e) as [[|p|p]|].
Qed.

Lemma index_put_marked s et s' X :
  masked_assign s (no_edge et)
    (dummy_vals (length s) (length (hd [] s)) (length (hd [] (hd [] s)))) = Ok s' →
  index_put_true (length (hd [] s))
    (identity_adj (length s) (length (hd [] s)))
    (drop_last_slot (batch_indices (length s) (length (hd [] s))
                       (length (hd [] (hd [] s)))))
    (drop_last_slot (src_indices (length s) (length (hd [] s))
                       (length (hd [] (hd [] s)))))
    (map (map (map long)) (drop_last_slot s')) = Ok X →
  adj_shape (length s) (length (hd [] s)) X ∧
  ∀ b i j, b < length s → i < length (hd [] s) → j < length (hd [] s) →
    get3 X b i j = Some (spec_marked s et b i j).
Proof.
  intros Hs' HX.
  destruct (masked_assign_dummy _ _ _ Hs') as (Hrect & Het & Hsh' & Hget').
  rewrite Hrect in Hsh'.
  set (B := length s) in *. set (N := length (hd [] s)) in *.
  set (E := length (hd [] (hd [] s))) in *.
  unfold index_put_true in HX.
  destruct (rfold_put_true_spec _ _ _ _ _ (identity_adj_shape B N) HX)
    as [Hsh Hget].
  split; [done|]. intros b i j Hb Hi Hj.
  destruct (adj_shape_get _ _ _ b i j Hsh Hb Hi Hj) as [x Hx].
  rewrite Hx. f_equal. apply eq_true_iff_eq.
  rewrite <- (inj_iff Some x true), <- Hx, Hget.
  rewrite identity_adj_get by done.
  unfold spec_marked. fold N E. rewrite orb_true_iff, existsb_exists.
  assert (Hshapes :
    shape3 (drop_last_slot (batch_indices B N E)) =
      shape3 (drop_last_slot (src_indices B N E)) ∧
    shape3 (drop_last_slot (batch_indices B N E)) =
      shape3 (map (map (map long)) (drop_last_slot s'))).
  { rewrite shape3_fmap.
    rewrite (shape3_drop_last _ _ _ _ (batch_indices_shape B N E)).
    rewrite (shape3_drop_last _ _ _ _ (src_indices_shape B N E)).
    by rewrite (shape3_drop_last _ _ _ _ Hsh'). }
  destruct Hshapes as [Hs1 Hs2].
  assert (Helem : ∀ t,
    t ∈ index_triples (drop_last_slot (batch_indices B N E))
          (drop_last_slot (src_indices B N E))
          (map (map (map long)) (drop_last_slot s')) ↔
    ∃ b' i' e, b' < B ∧ i' < N ∧ e + 1 < E ∧
      t.1.1 = Z.of_nat b' ∧ t.1.2 = Z.of_nat i' ∧
      spec_dest s et b' i' e = Some t.2).
  { intros t. rewrite (index_triples_elem _ _ _ _ Hs1 Hs2).
    split.
    - intros (b' & i' & e & H1 & H2 & H3). exists b', i', e.
      revert H1 H2 H3.
      rewrite get3_fmap,
        (get3_drop_last _ _ _ _ _ _ _ (batch_indices_shape B N E)),
        (get3_drop_last _ _ _ _ _ _ _ (src_indices_shape B N E)),
        (get3_drop_last _ _ _ _ _ _ _ Hsh'),
        batch_indices_get, src_indices_get, Hget'. unfold spec_dest.
      repeat case_decide; intros; simplify_eq/=; try done.
      repeat split; try lia; done.
    - intros (b' & i' & e & Hb' & Hi' & He & H1 & H2 & H3). exists b', i', e.
      rewrite get3_fmap,
        (get3_drop_last _ _ _ _ _ _ _ (batch_indices_shape B N E)),
        (get3_drop_last _ _ _ _ _ _ _ (src_indices_shape B N E)),
        (get3_drop_last _ _ _ _ _ _ _ Hsh'),
        batch_indices_get, src_indices_get, Hget'.
      rewrite !decide_True by lia. by rewrite H1, H2. }
  split.
  - intros [Hid|(t & Ht & Hn)].
    + left. by simplify_eq.
    + right. apply Helem in Ht as (b' & i' & e & Hb' & Hi' & He & H1 & H2 & H3).
      unfold norm_triple in Hn. rewrite H1, H2 in Hn.
      rewrite !norm_index_of_nat in Hn by done. simpl in Hn.
      destruct (norm_index N t.2) as [j'|] eqn:Hj'; simplify_eq/=.
      exists e. split; [apply in_seq; lia|].
      rewrite H3, Hj'. by apply bool_decide_eq_true_2.
  - intros [Hid|(e & He & Hm)].
    + left. f_equal. by rewrite Hid.
    + right. apply in_seq in He.
      destruct (spec_dest s et b i e) as [d|] eqn:Hd; [|done].
      destruct (norm_index N d) as [j'|] eqn:Hj'; [|done].
      apply bool_decide_eq_true in Hm as ->.
      exists (Z.of_nat b, Z.of_nat i, d). split.
      * apply Helem. exists b, i, e. simpl. repeat split; try done; lia.
      * unfold norm_triple. simpl.
        rewrite !norm_index_of_nat by done. simpl. by rewrite Hj'.
Qed.

Lemma adj_shape_shape3 B N X :
  adj_shape B N X → shape3 X = replicate B (replicate N N).
Proof.
  intros [Hlen Hsq]. unfold shape3. apply list_eq. intros b.
  rewrite list_lookup_fmap. destruct (X !! b) as [m|] eqn:Hm; simpl.
  - rewrite lookup_replicate_2 by (apply lookup_lt_Some in Hm; lia).
    f_equal. rewrite Forall_lookup in Hsq. destruct (Hsq _ _ Hm) as [Hl Hr].
    apply list_eq. intros i. rewrite list_lookup_fmap.
    destruct (m !! i) as [row|] eqn:Hrow; simpl.
    + rewrite lookup_replicate_2 by (apply lookup_lt_Some in Hrow; lia).
      rewrite Forall_lookup in Hr. by rewrite (Hr _ _ Hrow).
    + symmetry. apply lookup_replicate_None. apply lookup_ge_None in Hrow. lia.
  - symmetry. apply lookup_replicate_None. apply lookup_ge_None in Hm. lia.
Qed.

Lemma corrected_dest_Some s et b i e q :
  corrected_dest s et b i e = Some q →
  ∃ d t, get3 s b i e = Some d ∧ get3 et b i e = Some t ∧
         q = if decide (t = 0%Z) then float (Z.of_nat i) else d.
Proof.
  unfold corrected_dest. intros Hq.
  destruct (get3 s b i e) as [d|]; simpl in Hq; [|done].
  destruct (get3 et b i e) as [t|]; simpl in Hq; [|done].
  exists d, t. by simplify_eq.
Qed.

Lemma build_adj_mat_mutates l et (h h' : gmap nat (list (list (list Q)))) s A :
  h !! l = Some s → build_adj_mat l et h = (Ok A, h') →
  ∃ s', h' = <[l := s']> h ∧ shape3 s' = shape3 s ∧
        ∀ b i e, get3 s' b i e = corrected_dest s et b i e.
Proof.
  intros Hs Hrun. rewrite build_adj_mat_run, Hs in Hrun. simpl in Hrun.
  destruct (masked_assign _ _ _) as [s'|] eqn:Hs'; [|done].
  destruct (index_put_true _ _ _ _ _) as [X|]; [|done]. simplify_eq.
  destruct (masked_assign_dummy _ _ _ Hs') as (_ & _ & Hsh & Hget). eauto.
Qed.

(** C4.  Whenever [build_adj_mat] returns, [s_next] holds the
    dummy-corrected destinations and the matrix is the one of the specified
    algorithm: entry [(i, j)] is True exactly for a self-loop, or when a slot
    other than the last of node [i] leads to [j], or one of node [j] leads
    to [i]. *)
Theorem build_adj_mat_follows_spec l et
    (h h' : gmap nat (list (list (list Q)))) s A :
  h !! l = Some s → build_adj_mat l et h = (Ok A, h') →
  (∃ s', h' = <[l := s']> h ∧
         ∀ b i e, get3 s' b i e = corrected_dest s et b i e) ∧
  ∀ b i j, b < length s → i < length (hd [] s) → j < length (hd [] s) →
    get3 A b i j = Some (adj_spec s et b i j).
Proof.
  intros Hs Hrun. split.
  { destruct (build_adj_mat_mutates _ _ _ _ _ _ Hs Hrun)
      as (s' & -> & _ & Hget). eauto. }
  intros b i j Hb Hi Hj.
  rewrite build_adj_mat_run, Hs in Hrun. simpl in Hrun.
  destruct (masked_assign _ _ _) as [s'|] eqn:Hs'; [|done].
  destruct (index_put_true _ _ _ _ _) as [X|] eqn:HX; [|done]. simplify_eq.
  destruct (index_put_marked _ _ _ _ Hs' HX) as [Hsh Hget].
  destruct (sym_adj_spec _ _ _ Hsh) as (_ & _ & Hget').
  rewrite Hget', !Hget by done. done.
Qed.

(** C3 (amended).  For [s_next] and [edge_type] of one rectangular shape in
    which every real edge outside the last slot points to a valid index of
    the node axis, [build_adj_mat] returns a boolean tensor of shape
    [batch, max_nodes, max_nodes] that equals its transpose over the last
    two axes and is True on the whole diagonal. *)
Theorem build_adj_mat_symmetric l et (h : gmap nat (list (list (list Q)))) s :
  h !! l = Some s → rect3 s → shape3 et = shape3 s →
  (∀ b i e d t, e + 1 < length (hd [] (hd [] s)) →
     get3 s b i e = Some d → get3 et b i e = Some t → t ≠ 0%Z →
     (- Z.of_nat (length (hd [] s)) ≤ long d < Z.of_nat (length (hd [] s)))%Z) →
  ∃ A h', build_adj_mat l et h = (Ok A, h') ∧
    shape3 A = replicate (length s)
                 (replicate (length (hd [] s)) (length (hd [] s))) ∧
    map transpose A = A ∧
    ∀ b i, b < length s → i < length (hd [] s) → get3 A b i i = Some true.
Proof.
  intros Hs Hrect Het Hrange.
  set (B := length s) in *. set (N := length (hd [] s)) in *.
  set (E := length (hd [] (hd [] s))) in *.
  destruct (masked_assign_ok s (no_edge et) (dummy_vals B N E)) as [s' Hs'].
  { unfold no_edge. by rewrite shape3_fmap. }
  { by rewrite dummy_vals_shape. }
  destruct (masked_assign_dummy _ _ _ Hs') as (_ & _ & Hsh' & Hget').
  rewrite Hrect in Hsh'. fold B N E in Hsh'.
  assert (∃ X, index_put_true N (identity_adj B N)
                 (drop_last_slot (batch_indices B N E))
                 (drop_last_slot (src_indices B N E))
                 (map (map (map long)) (drop_last_slot s')) = Ok X) as [X HX].
  { apply (rfold_put_true_ok B N); [apply identity_adj_shape|].
    intros t Ht. apply index_triples_elem in Ht.
    2:{ rewrite (shape3_drop_last _ _ _ _ (batch_indices_shape B N E)).
        by rewrite (shape3_drop_last _ _ _ _ (src_indices_shape B N E)). }
    2:{ rewrite shape3_fmap.
        rewrite (shape3_drop_last _ _ _ _ (batch_indices_shape B N E)).
        by rewrite (shape3_drop_last _ _ _ _ Hsh'). }
    destruct Ht as (b & i & e & H1 & H2 & H3). revert H1 H2 H3.
    rewrite get3_fmap,
      (get3_drop_last _ _ _ _ _ _ _ (batch_indices_shape B N E)),
      (get3_drop_last _ _ _ _ _ _ _ (src_indices_shape B N E)),
      (get3_drop_last _ _ _ _ _ _ _ Hsh'),
      batch_indices_get, src_indices_get, Hget'.
    repeat case_decide; intros H1 H2 H3; simplify_eq/=; try done.
    unfold norm_triple. rewrite <- H1, <- H2.
    rewrite !norm_index_of_nat by lia. simpl.
    destruct (corrected_dest s et b i e) as [q|] eqn:Hq; [|done].
    apply corrected_dest_Some in Hq as (d & t0 & Hd & Ht0 & ->).
    assert (- Z.of_nat N ≤ t.2 < Z.of_nat N)%Z as Hin.
    { injection H3 as <-. case_decide.
      - rewrite long_float. lia.
      - eapply Hrange; eauto. }
    unfold norm_index. repeat case_decide; eauto; lia. }
  exists (map sym_or X), (<[l := s']> h).
  rewrite build_adj_mat_run, Hs. simpl. fold B N E. rewrite Hs', HX.
  split; [done|].
  unfold index_put_true in HX.
  destruct (rfold_put_true_spec _ _ _ _ _ (identity_adj_shape B N) HX)
    as [Hsh Hget].
  destruct (sym_adj_spec _ _ _ Hsh) as (Hsh2 & Hsym & Hget2).
  split; [by apply adj_shape_shape3|]. split; [done|].
  intros b i Hb Hi. rewrite Hget2 by done.
  assert (get3 X b i i = Some true) as ->; [|done].
  apply Hget. left. rewrite identity_adj_get by done.
  by rewrite bool_decide_eq_true_2.
Qed.

(** One example of two nodes with two edge slots each. *)
Lemma build_adj_mat_symmetric_witness :
  ∃ A h', build_adj_mat 0 [[[1; 0]; [1; 0]]]%Z
            {[ 0%nat := [[[1; 0]; [0; 0]]]%Q ]} = (Ok A, h') ∧
    shape3 A = [[2; 2]] ∧ map transpose A = A ∧
    ∀ b i, b < 1 → i < 2 → get3 A b i i = Some true.
Proof.
  apply (build_adj_mat_symmetric 0 [[[1; 0]; [1; 0]]]%Z
           {[ 0%nat := [[[1; 0]; [0; 0]]]%Q ]} [[[1; 0]; [0; 0]]]%Q);
    [reflexivity..|].
  intros b i e d t He Hd Ht _. simpl in He.
  destruct b as [|b], i as [|[|i]], e as [|e]; try lia;
    vm_compute in Hd; try discriminate Hd;
    injection Hd as <-; vm_compute; split; congruence.
Defined.

(** A real edge to node 5 in a graph of one node: the indexing of line 288
    raises, and no matrix is returned. *)
Lemma build_adj_mat_index_error :
  (build_adj_mat 0 [[[1; 1]]]%Z {[ 0%nat := [[[5; 0]]]%Q ]}).1
  = Raise IndexError.
Proof. vm_compute. reflexivity. Qed.

Lemma rmap_Ok {A B} (f : A → result B) l ys :
  rmap f l = Ok ys ↔ Forall2 (fun x y => f x = Ok y) l ys.
Proof.
  revert ys. induction l as [|x l IH]; intros ys; simpl.
  - split; [intros [= <-]; constructor|by inversion 1].
  - destruct (f x) as [y|] eqn:Hy; simpl.
    + destruct (rmap f l) as [ys'|] eqn:Hys; simpl.
      * split.
        -- intros [= <-]. constructor; [done|by apply IH].
        -- inversion 1 as [|? y' ? ys'' Hy' Hys'']; subst.
           apply IH in Hys''. congruence.
      * split; [done|]. inversion 1 as [|? y' ? ys'' Hy' Hys'']; subst.
        apply IH in Hys''. done.
    + split; [done|]. inversion 1; congruence.
Qed.

Lemma rmap_total {A B} (f : A → result B) (g : A → B) l :
  Forall (fun x => f x = Ok (g x)) l → rmap f l = Ok (map g l).
Proof.
  intros H. apply rmap_Ok. induction H; simpl; constructor; auto.
Qed.

Lemma rmap_ext {A B} (f g : A → result B) l :
  Forall (fun x => f x = g x) l → rmap f l = rmap g l.
Proof.
  induction 1 as [|x l Hx _ IH]; simpl; [done|]. by rewrite Hx, IH.
Qed.

Lemma rmap_fmap {A B C} (f : B → result C) (g : A → B) l :
  rmap f (map g l) = rmap (fun x => f (g x)) l.
Proof. induction l as [|x l IH]; simpl; [done|]. by rewrite IH. Qed.

Lemma col0_unfold t : col0 t = rmap (rmap (rmap head0)) t.
Proof. done. Qed.

(** Only the first column of the mask is read. *)
Lemma col0_take1 t : col0 (map (map (map (take 1))) t) = col0 t.
Proof.
  rewrite !col0_unfold, rmap_fmap. apply rmap_ext, Forall_forall.
  intros m _. rewrite rmap_fmap. apply rmap_ext, Forall_forall.
  intros steps _. rewrite rmap_fmap. apply rmap_ext, Forall_forall.
  intros [|x row] _; done.
Qed.

Lemma vsge_first_column feat masks gru :
  variable_size_gru_encode feat masks gru =
  variable_size_gru_encode feat (map (map (map (take 1))) masks) gru.
Proof. unfold variable_size_gru_encode. by rewrite col0_take1. Qed.

Lemma masked_scatter1_true r : ∀ rest,
  masked_scatter1 (replicate (length r) 0%Q) (replicate (length r) true)
    (r ++ rest) = Ok (r, rest).
Proof.
  induction r as [|x r IH]; intros rest; simpl; [done|]. by rewrite IH.
Qed.

Lemma masked_scatter1_false H src :
  masked_scatter1 (replicate H 0%Q) (replicate H false) src
  = Ok (replicate H 0%Q, src).
Proof. induction H as [|H IH]; simpl; [done|]. by rewrite IH. Qed.

Lemma scatter_entities H vs : ∀ hs rest,
  Forall (fun r => length r = H) hs → length hs = count_true vs →
  scatter_axis masked_scatter1
    (map (map (fun _ : bool => 0%Q)) (map (fun b : bool => replicate H b) vs))
    (map (fun b : bool => replicate H b) vs) (concat hs ++ rest)
  = Ok (place vs hs (zeros H), rest).
Proof.
  induction vs as [|[] vs IH]; intros hs rest Hlen Hcount; simpl.
  - destruct hs; [done|discriminate].
  - destruct hs as [|h hs]; [discriminate|].
    inversion Hlen as [|?? Hh Hhs]; subst. simpl.
    rewrite fmap_replicate, <- app_assoc, masked_scatter1_true. simpl.
    rewrite IH; [done|done|]. unfold count_true in *. simpl in Hcount. lia.
  - rewrite fmap_replicate, masked_scatter1_false. simpl.
    rewrite IH; [done|done|]. by unfold count_true in *.
Qed.

Lemma count_true_app l1 l2 : count_true (l1 ++ l2) = count_true l1 + count_true l2.
Proof. unfold count_true. by rewrite List.filter_app, length_app. Qed.

Lemma scatter_batches H V : ∀ hs rest,
  Forall (fun r => length r = H) hs → length hs = count_true (concat V) →
  scatter_axis (scatter_axis masked_scatter1)
    (map (map (map (fun _ : bool => 0%Q)))
       (map (map (fun b : bool => replicate H b)) V))
    (map (map (fun b : bool => replicate H b)) V) (concat hs ++ rest)
  = Ok (place2 V hs (zeros H), rest).
Proof.
  induction V as [|vs V IH]; intros hs rest Hlen Hcount; simpl.
  - destruct hs; [done|discriminate].
  - simpl in Hcount. rewrite count_true_app in Hcount.
    rewrite <- (take_drop (count_true vs) hs) at 1.
    rewrite concat_app, <- app_assoc.
    rewrite (scatter_entities H vs).
    + simpl. rewrite IH; [done| |].
      * by apply Forall_drop.
      * rewrite length_drop. lia.
    + by apply Forall_take.
    + rewrite length_take. lia.
Qed.

Lemma count_true_cons b l :
  count_true (b :: l) = (if b then 1 else 0) + count_true l.
Proof. unfold count_true. by destruct b. Qed.

Lemma count_take_lt vs e :
  vs !! e = Some true → count_true (take e vs) < count_true vs.
Proof.
  revert e. induction vs as [|v vs IH]; intros [|e] He; simplify_eq/=.
  - rewrite count_true_cons. unfold count_true at 1. simpl. lia.
  - rewrite !count_true_cons. specialize (IH _ He). lia.
Qed.

Lemma lookup_tl {A} (l : list A) k : tl l !! k = l !! S k.
Proof. by destruct l. Qed.

Lemma place_lookup vs z : ∀ hs e,
  place vs hs z !! e =
  v ← vs !! e;
  Some (if (v : bool) then default z (hs !! count_true (take e vs)) else z).
Proof.
  induction vs as [|[] vs IH]; intros hs [|e]; simpl; try done;
    try (by destruct hs);
    rewrite IH; destruct (vs !! e) as [[]|]; simpl; try done;
    by rewrite ?count_true_cons, ?lookup_tl.
Qed.

Lemma place2_lookup V z : ∀ hs b e,
  get2 (place2 V hs z) b e =
  vs ← V !! b; v ← vs !! e;
  Some (if (v : bool) then default z (hs !! rank V b e) else z).
Proof.
  unfold get2.
  induction V as [|vs V IH]; intros hs [|b] e; simpl; try done.
  - rewrite place_lookup. destruct (vs !! e) as [[]|] eqn:He; simpl; [|done..].
    unfold rank. simpl. unfold count_true at 2. simpl.
    by rewrite lookup_take_lt by (by apply count_take_lt).
  - rewrite IH. destruct (V !! b) as [vs'|] eqn:Hb; simpl; [|done].
    destruct (vs' !! e) as [[]|]; simpl; [|done..].
    unfold rank. simpl. rewrite Hb, count_true_app, lookup_drop. simpl.
    by rewrite Nat.add_assoc.
Qed.

Lemma place_length vs z : ∀ hs, length (place vs hs z) = length vs.
Proof. induction vs as [|[] vs IH]; intros hs; simpl; by rewrite ?IH. Qed.

Lemma place_rows vs z H : ∀ hs,
  length z = H → Forall (fun r => length r = H) hs →
  Forall (fun r => length r = H) (place vs hs z).
Proof.
  induction vs as [|[] vs IH]; intros hs Hz Hhs; simpl; constructor; auto.
  - destruct hs; simpl; [done|]. by inversion Hhs.
  - apply IH; [done|]. destruct hs; simpl; [done|]. by inversion Hhs.
Qed.

Lemma place2_shape V z H : ∀ hs,
  length z = H → Forall (fun r => length r = H) hs →
  shape3 (place2 V hs z) = map (map (fun _ => H)) V.
Proof.
  unfold shape3.
  induction V as [|vs V IH]; intros hs Hz Hhs; simpl; [done|].
  rewrite IH; [|done|by apply Forall_drop]. f_equal.
  pose proof (place_rows vs z H (take (count_true vs) hs) Hz
                (Forall_take _ _ _ Hhs)) as Hrows.
  pose proof (place_length vs z (take (count_true vs) hs)) as Hlen.
  revert Hrows Hlen. generalize (place vs (take (count_true vs) hs) z).
  intros l Hrows Hlen. revert vs Hlen.
  induction Hrows as [|r l Hr _ IHl]; intros [|v vs] Hlen;
    simplify_eq/=; [done|]. f_equal; auto.
Qed.

Lemma rank_lt V b e vs :
  V !! b = Some vs → vs !! e = Some true →
  rank V b e < count_true (concat V).
Proof.
  intros Hb He. unfold rank. rewrite Hb. simpl.
  rewrite <- (take_drop_middle V b vs Hb) at 2.
  rewrite concat_app, count_true_app. simpl. rewrite count_true_app.
  pose proof (count_take_lt _ _ He). lia.
Qed.

Lemma mask_binary_unfold masks :
  mask_binary masks = forallb (forallb (forallb row_binary)) masks.
Proof. done. Qed.

Lemma long_Qeq q k : q == inject_Z k → long q = k.
Proof.
  unfold Qeq, long. simpl. rewrite Z.mul_1_r. intros ->.
  apply Z.quot_mul. done.
Qed.

Lemma seq_len_count steps :
  forallb row_binary steps = true →
  sumQ (map (fun m => 1 - m)%Q (map (hd 0%Q) steps))
  == inject_Z (Z.of_nat (valid_steps steps)).
Proof.
  unfold valid_steps.
  induction steps as [|row steps IH]; intros Hb; [reflexivity|].
  simpl in Hb. apply andb_true_iff in Hb as [Hrow Hsteps].
  specialize (IH Hsteps). simpl. rewrite IH.
  destruct row as [|m row]; [done|]. simpl in *.
  destruct (Qeq_bool m 0) eqn:H0; simpl in *.
  - apply Qeq_bool_iff in H0. rewrite Nat2Z.inj_succ, <- Z.add_1_l.
    rewrite inject_Z_plus, H0. reflexivity.
  - apply Qeq_bool_iff in Hrow. rewrite Hrow. ring.
Qed.

Lemma entity_valid_count steps :
  entity_valid steps = negb (Nat.eqb (valid_steps steps) 0).
Proof.
  unfold entity_valid, valid_steps.
  induction steps as [|row steps IH]; simpl; [done|].
  destruct (step_valid row); simpl; [done|apply IH].
Qed.

Lemma inject_Z_nonzero n :
  Qeq_bool (inject_Z (Z.of_nat n)) 0 = Nat.eqb n 0.
Proof. by destruct n. Qed.

Lemma Qeq_bool_proper q1 q2 r : q1 == q2 → Qeq_bool q1 r = Qeq_bool q2 r.
Proof.
  intros Heq. destruct (Qeq_bool q2 r) eqn:H2.
  - apply Qeq_bool_iff. apply Qeq_bool_iff in H2. by rewrite Heq.
  - destruct (Qeq_bool q1 r) eqn:H1; [|done].
    apply Qeq_bool_iff in H1. rewrite Heq in H1.
    apply Qeq_bool_iff in H1. congruence.
Qed.

Lemma seq_len_nonzero steps :
  forallb row_binary steps = true →
  negb (Qeq_bool (sumQ (map (fun m => 1 - m)%Q (map (hd 0%Q) steps))) 0)
  = entity_valid steps.
Proof.
  intros Hb. rewrite (Qeq_bool_proper _ _ _ (seq_len_count steps Hb)).
  by rewrite inject_Z_nonzero, entity_valid_count.
Qed.

Lemma col0_binary masks :
  mask_binary masks = true →
  col0 masks = Ok (map (map (map (hd 0%Q))) masks).
Proof.
  rewrite mask_binary_unfold, col0_unfold. intros Hb.
  apply rmap_total, Forall_forall. intros m Hm.
  rewrite forallb_forall in Hb. specialize (Hb m (proj1 (list_elem_of_In _ _) Hm)).
  apply rmap_total, Forall_forall. intros steps Hsteps.
  rewrite forallb_forall in Hb.
  specialize (Hb steps (proj1 (list_elem_of_In _ _) Hsteps)).
  apply rmap_total, Forall_forall. intros row Hrow.
  rewrite forallb_forall in Hb.
  specialize (Hb row (proj1 (list_elem_of_In _ _) Hrow)).
  by destruct row.
Qed.

Lemma masks_for_batching_binary masks :
  mask_binary masks = true →
  map (map (fun steps => existsb (fun m => negb (to_bool m)) steps))
    (map (map (map (hd 0%Q))) masks) = entity_mask masks.
Proof.
  rewrite mask_binary_unfold. intros Hb. unfold entity_mask.
  rewrite <- list_fmap_compose. apply list_fmap_ext. intros ib m Hm.
  apply list_elem_of_lookup_2, list_elem_of_In in Hm.
  rewrite forallb_forall in Hb. specialize (Hb m Hm). simpl.
  rewrite <- list_fmap_compose. apply list_fmap_ext. intros ie steps Hsteps.
  apply list_elem_of_lookup_2, list_elem_of_In in Hsteps.
  rewrite forallb_forall in Hb. specialize (Hb steps Hsteps). simpl.
  unfold entity_valid. clear Hsteps Hm.
  induction steps as [|row steps IH]; simpl; [done|].
  simpl in Hb. apply andb_true_iff in Hb as [Hrow Hsteps].
  rewrite IH by done. f_equal. destruct row as [|x row]; [done|].
  simpl. unfold to_bool. by rewrite negb_involutive.
Qed.

Lemma bcast_same {A B} (xs : list A) (ys : list B) :
  length xs = length ys → bcast xs ys = Ok (zip xs ys).
Proof. intros Hlen. unfold bcast. by rewrite decide_True. Qed.

Lemma masked_select2_compact {A} (t : list (list A)) (V : list (list bool)) :
  shape2 t = shape2 V → masked_select2 t V = Ok (compact t V).
Proof.
  unfold shape2. intros Hsh. unfold masked_select2.
  assert (length t = length V) as Hlen
    by (by rewrite <- (length_map length t), Hsh, length_map).
  rewrite (bcast_same t V Hlen). simpl.
  assert (rmap (fun tm : list A * list bool => bcast tm.1 tm.2) (zip t V)
          = Ok (zip_with zip t V)) as ->; [|done].
  apply map_length_Forall2 in Hsh. clear Hlen.
  induction Hsh as [|r v t V Hrv _ IH]; simpl; [done|].
  rewrite (bcast_same r v Hrv). simpl. by rewrite IH.
Qed.

Lemma compact_flat {A} (t : list (list A)) (V : list (list bool)) :
  shape2 t = shape2 V →
  compact t V = map fst (List.filter snd (zip (concat t) (concat V))).
Proof.
  intros Hsh. unfold compact. rewrite zip_with_concat; [done|].
  by apply map_length_Forall2.
Qed.

Lemma filter_zip_length {A} (xs : list A) (vs : list bool) :
  length xs = length vs →
  length (List.filter snd (zip xs vs)) = count_true vs.
Proof.
  revert vs. induction xs as [|x xs IH]; intros [|v vs] Hlen;
    simplify_eq/=; [done|].
  rewrite count_true_cons. destruct v; simpl; rewrite IH by done; done.
Qed.

Lemma length_concat_shape2 {A B} (t : list (list A)) (V : list (list B)) :
  shape2 t = shape2 V → length (concat t) = length (concat V).
Proof.
  intros Hsh%map_length_Forall2.
  induction Hsh as [|r v t V Hrv _ IH]; simpl; [done|].
  rewrite !length_app. lia.
Qed.

Lemma compact_length {A} (t : list (list A)) (V : list (list bool)) :
  shape2 t = shape2 V → length (compact t V) = count_true (concat V).
Proof.
  intros Hsh. rewrite compact_flat, length_map by done.
  apply filter_zip_length. by apply length_concat_shape2.
Qed.

Lemma entity_mask_shape masks : shape2 (entity_mask masks) = shape2 masks.
Proof.
  unfold shape2, entity_mask. rewrite <- list_fmap_compose.
  apply list_fmap_ext. intros i m _. simpl. by rewrite length_map.
Qed.

Lemma concat_entity_mask masks :
  concat (entity_mask masks) = map entity_valid (concat masks).
Proof.
  unfold entity_mask. induction masks as [|m masks IH]; simpl; [done|].
  by rewrite IH, map_app.
Qed.

Lemma count_true_fmap {A} (p : A → bool) l :
  count_true (map p l) = length (List.filter p l).
Proof.
  induction l as [|x l IH]; simpl; [done|].
  rewrite count_true_cons. destruct (p x); simpl; lia.
Qed.

Lemma seq_lens_batched_binary masks :
  mask_binary masks = true →
  map long
    (List.filter (fun l => negb (Qeq_bool l 0))
       (concat (map (map (fun steps => sumQ (map (fun m => 1 - m)%Q steps)))
                  (map (map (map (hd 0%Q))) masks))))
  = valid_lens masks.
Proof.
  rewrite mask_binary_unfold. intros Hb. unfold valid_lens.
  induction masks as [|m masks IH]; simpl; [done|].
  simpl in Hb. apply andb_true_iff in Hb as [Hm Hmasks].
  rewrite !List.filter_app, !map_app, IH by done. f_equal.
  clear IH Hmasks. induction m as [|steps m IH]; simpl; [done|].
  simpl in Hm. apply andb_true_iff in Hm as [Hsteps Hm].
  rewrite (seq_len_nonzero steps Hsteps).
  destruct (entity_valid steps); simpl; rewrite IH by done; [|done].
  f_equal. apply long_Qeq. by apply seq_len_count.
Qed.

Lemma valid_lens_length masks :
  length (valid_lens masks) = count_true (concat (entity_mask masks)).
Proof.
  unfold valid_lens. by rewrite length_map, concat_entity_mask, count_true_fmap.
Qed.

Lemma valid_lens_pos masks l :
  l ∈ valid_lens masks → (0 < l)%Z.
Proof.
  unfold valid_lens. intros (steps & -> & Hin)%list_elem_of_fmap.
  apply list_elem_of_In, filter_In in Hin as [_ Hv].
  rewrite entity_valid_count in Hv.
  destruct (valid_steps steps); [done|lia].
Qed.

Lemma pack_padded_sequence_ok seqs lens :
  length lens = length seqs → Forall (fun l => (0 < long l)%Z) lens →
  pack_padded_sequence seqs lens = Ok (seqs, map long lens).
Proof.
  intros Hlen Hpos. unfold pack_padded_sequence.
  rewrite decide_True by lia. rewrite take_ge by lia.
  assert (forallb (fun l => (0 <? long l)%Z) lens = true) as ->; [|done].
  apply forallb_forall. intros l Hl.
  rewrite Forall_forall in Hpos. apply Z.ltb_lt, Hpos. by apply list_elem_of_In.
Qed.

(** The run of [variable_size_gru_encode] on a well-formed mask. *)
Lemma vsge_run feat masks gru :
  shape2 feat = shape2 masks → mask_binary masks = true →
  variable_size_gru_encode feat masks gru =
  let V := entity_mask masks in
  if decide (count_true (concat V) ≠ 0) then
    encoding_batched ← gru_h_n gru (compact feat V) (valid_lens masks);
    let H := length (hd [] encoding_batched) in
    masked_scatter3
      (map (map (map (fun _ : bool => 0%Q)))
         (map (map (fun b : bool => replicate H b)) V))
      (map (map (fun b : bool => replicate H b)) V)
      (concat encoding_batched)
  else Ok (replicate (length feat)
             (replicate (length (hd [] feat)) (zeros (hidden_size gru)))).
Proof.
  intros Hsh Hb. unfold variable_size_gru_encode.
  rewrite (col0_binary masks Hb). simpl.
  rewrite (masks_for_batching_binary masks Hb).
  rewrite masked_select2_compact by (by rewrite entity_mask_shape).
  simpl.
  pose proof (seq_lens_batched_binary masks Hb) as Hlens.
  set (L := List.filter _ _) in *.
  assert (length L = count_true (concat (entity_mask masks))) as HL.
  { by rewrite <- valid_lens_length, <- Hlens, length_map. }
  rewrite HL. case_decide; [|done].
  rewrite pack_padded_sequence_ok.
  - simpl. by rewrite Hlens.
  - rewrite HL, compact_length; [done|by rewrite entity_mask_shape].
  - apply Forall_forall. intros l Hl.
    apply (valid_lens_pos masks). rewrite <- Hlens.
    by apply list_elem_of_fmap_2.
Qed.

Lemma masked_scatter3_place V hs :
  Forall (fun r => length r = length (hd [] hs)) hs →
  length hs = count_true (concat V) →
  masked_scatter3
    (map (map (map (fun _ : bool => 0%Q)))
       (map (map (fun b : bool => replicate (length (hd [] hs)) b)) V))
    (map (map (fun b : bool => replicate (length (hd [] hs)) b)) V)
    (concat hs)
  = Ok (place2 V hs (zeros (length (hd [] hs)))).
Proof.
  intros Hrows Hlen. unfold masked_scatter3.
  rewrite <- (app_nil_r (concat hs)).
  by rewrite (scatter_batches _ V hs [] Hrows Hlen).
Qed.

(** The row of an entity without valid step stays zero, whatever the
    source holds. *)
Lemma scatter_entities_invalid H vs : ∀ src rows rest e,
  scatter_axis masked_scatter1
    (map (map (fun _ : bool => 0%Q)) (map (fun b : bool => replicate H b) vs))
    (map (fun b : bool => replicate H b) vs) src = Ok (rows, rest) →
  vs !! e = Some false → rows !! e = Some (zeros H).
Proof.
  induction vs as [|v vs IH]; intros src rows rest e Hrun He; [done|].
  simpl in Hrun.
  destruct (masked_scatter1 _ _ src) as [[r src1]|] eqn:Hr; [|done].
  simpl in Hrun.
  destruct (scatter_axis _ _ _ src1) as [[rs src2]|] eqn:Hrs; [|done].
  simpl in Hrun. simplify_eq.
  destruct e as [|e]; simpl in *.
  - simplify_eq. rewrite fmap_replicate, masked_scatter1_false in Hr.
    by simplify_eq.
  - eapply IH; eauto.
Qed.

Lemma masked_scatter3_invalid H V src enc b e vs :
  masked_scatter3
    (map (map (map (fun _ : bool => 0%Q)))
       (map (map (fun b : bool => replicate H b)) V))
    (map (map (fun b : bool => replicate H b)) V) src = Ok enc →
  V !! b = Some vs → vs !! e = Some false →
  get2 enc b e = Some (zeros H).
Proof.
  unfold masked_scatter3.
  destruct (scatter_axis _ _ _ src) as [[enc' rest]|] eqn:Hrun; [|done].
  simpl. intros [= <-]. revert src enc' rest b Hrun.
  induction V as [|vs' V IH]; intros src enc' rest b Hrun Hb He; [done|].
  simpl in Hrun.
  destruct (scatter_axis masked_scatter1 _ _ src) as [[r src1]|] eqn:Hr;
    [|done].
  simpl in Hrun.
  destruct (scatter_axis _ _ _ src1) as [[rs src2]|] eqn:Hrs; [|done].
  simpl in Hrun. simplify_eq. unfold get2.
  destruct b as [|b]; simpl in *.
  - simplify_eq. eapply scatter_entities_invalid; eauto.
  - eapply IH; eauto.
Qed.

Lemma shape4_shape2 {A} (t : list (list (list (list A)))) B E T F :
  shape4 t = replicate B (replicate E (replicate T F)) →
  shape2 t = replicate B E.
Proof.
  unfold shape4, shape2. intros Hsh.
  assert (map length t = map length (map (map (map length)) t)) as ->.
  { rewrite <- list_fmap_compose. apply list_fmap_ext. intros i m _.
    simpl. by rewrite length_map. }
  rewrite Hsh, fmap_replicate. by rewrite length_replicate.
Qed.

Lemma shape2_dims {A} (t : list (list A)) B E :
  shape2 t = replicate B E →
  length t = B ∧ (0 < B → length (hd [] t) = E).
Proof.
  unfold shape2. intros Hsh. split.
  - by rewrite <- (length_map length t), Hsh, length_replicate.
  - intros HB. destruct t as [|m t], B as [|B]; simplify_eq/=; done || lia.
Qed.

Lemma replicate_dims {A B} (t : list (list A)) Bn E (x : B) :
  shape2 t = replicate Bn E →
  replicate (length t) (replicate (length (hd [] t)) x)
  = replicate Bn (replicate E x).
Proof.
  intros [HB HE]%shape2_dims. rewrite HB. destruct Bn as [|Bn]; [done|].
  by rewrite HE by lia.
Qed.



Lemma compact_cons {A} (r : list A) t vs V :
  compact (r :: t) (vs :: V)
  = map fst (List.filter snd (zip r vs)) ++ compact t V.
Proof. unfold compact. simpl. by rewrite List.filter_app, map_app. Qed.

Lemma compact_row_lookup {A} (r : list A) vs e :
  length r = length vs → vs !! e = Some true →
  map fst (List.filter snd (zip r vs)) !! count_true (take e vs) = r !! e.
Proof.
  revert vs e. induction r as [|x r IH]; intros [|v vs] [|e] Hlen He;
    simplify_eq/=.
  - done.
  - rewrite count_true_cons. destruct v; simpl; by apply IH.
Qed.

Lemma compact_rank {A} (t : list (list A)) V b e vs :
  shape2 t = shape2 V → V !! b = Some vs → vs !! e = Some true →
  compact t V !! rank V b e = get2 t b e.
Proof.
  unfold shape2, get2. intros Hsh%map_length_Forall2. revert b.
  induction Hsh as [|r v t V Hrv _ IH]; intros [|b] Hb He; simplify_eq/=.
  - rewrite compact_cons. unfold rank. simpl. unfold count_true at 1. simpl.
    rewrite lookup_app_l.
    + by apply compact_row_lookup.
    + rewrite length_map, filter_zip_length by done. by apply count_take_lt.
  - rewrite compact_cons. unfold rank. simpl. rewrite Hb. simpl.
    rewrite count_true_app, <- Nat.add_assoc.
    rewrite lookup_app_r; rewrite length_map, filter_zip_length by done;
      [|lia].
    replace (count_true v + _ - count_true v)
      with (rank V b e) by (unfold rank; rewrite Hb; simpl; lia).
    by apply IH.
Qed.

Lemma compact_entity_mask masks :
  compact masks (entity_mask masks) = List.filter entity_valid (concat masks).
Proof.
  unfold entity_mask. induction masks as [|m masks IH]; [done|].
  simpl. rewrite compact_cons, IH, List.filter_app. f_equal.
  clear IH. induction m as [|steps m IH]; simpl; [done|].
  destruct (entity_valid steps); simpl; by rewrite IH.
Qed.

Lemma valid_lens_rank masks b e steps :
  get2 masks b e = Some steps → entity_valid steps = true →
  valid_lens masks !! rank (entity_mask masks) b e
  = Some (Z.of_nat (valid_steps steps)).
Proof.
  intros Hget Hv. unfold valid_lens.
  rewrite <- compact_entity_mask, list_lookup_fmap.
  unfold get2 in Hget.
  destruct (masks !! b) as [m|] eqn:Hm; simpl in Hget; [|done].
  rewrite (compact_rank masks (entity_mask masks) b e (map entity_valid m)).
  - unfold get2. rewrite Hm. simpl. by rewrite Hget.
  - by rewrite entity_mask_shape.
  - unfold entity_mask. by rewrite list_lookup_fmap, Hm.
  - by rewrite list_lookup_fmap, Hget, <- Hv.
Qed.

Lemma valid_steps_le steps : valid_steps steps ≤ length steps.
Proof. unfold valid_steps. apply filter_length_le. Qed.

Lemma shape4_steps {A} (t : list (list (list (list A)))) B E T F steps :
  shape4 t = replicate B (replicate E (replicate T F)) →
  steps ∈ concat t → length steps = T.
Proof.
  unfold shape4. intros Hsh (m & Hm & Hsteps)%elem_of_concat.
  apply list_elem_of_lookup in Hm as [b Hb], Hsteps as [e He].
  assert (map (map (map length)) t !! b = Some (map (map length) m)) as Hl
    by (by rewrite list_lookup_fmap, Hb).
  rewrite Hsh in Hl. apply lookup_replicate in Hl as [Hl _].
  assert (map (map length) m !! e = Some (map length steps)) as Hl'
    by (by rewrite list_lookup_fmap, He).
  rewrite Hl in Hl'. apply lookup_replicate in Hl' as [Hl' _].
  by rewrite <- (length_map length steps), Hl', length_replicate.
Qed.

Lemma entity_mask_get masks b e :
  (entity_mask masks !! b) ≫= (fun vs => vs !! e)
  = entity_valid <$> get2 masks b e.
Proof.
  unfold entity_mask, get2. rewrite list_lookup_fmap.
  destruct (masks !! b) as [m|]; simpl; [|done].
  by rewrite list_lookup_fmap.
Qed.

Lemma compact_subset {A} (t : list (list A)) V x :
  x ∈ compact t V → x ∈ concat t.
Proof.
  unfold compact. intros ([y v] & -> & Hin)%list_elem_of_fmap.
  apply list_elem_of_In, filter_In in Hin as [Hin _].
  apply list_elem_of_In, elem_of_concat in Hin as (row & Hrow & Hin).
  apply list_elem_of_lookup in Hrow as [i Hi].
  apply lookup_zip_with_Some in Hi as (r & vs & -> & Hr & _).
  apply list_elem_of_lookup in Hin as [j Hj].
  apply lookup_zip_with_Some in Hj as (? & ? & [= <- <-] & Hy & _).
  apply elem_of_concat. exists r. split; by eapply list_elem_of_lookup_2.
Qed.

Lemma shape4_step_widths {A} (t : list (list (list (list A)))) B E T F steps :
  shape4 t = replicate B (replicate E (replicate T F)) →
  steps ∈ concat t → Forall (fun x => length x = F) steps.
Proof.
  unfold shape4. intros Hsh (m & Hm & Hsteps)%elem_of_concat.
  apply list_elem_of_lookup in Hm as [b Hb], Hsteps as [e He].
  assert (map (map (map length)) t !! b = Some (map (map length) m)) as Hl
    by (by rewrite list_lookup_fmap, Hb).
  rewrite Hsh in Hl. apply lookup_replicate in Hl as [Hl _].
  assert (map (map length) m !! e = Some (map length steps)) as Hl'
    by (by rewrite list_lookup_fmap, He).
  rewrite Hl in Hl'. apply lookup_replicate in Hl' as [Hl' _].
  apply Forall_forall. intros x Hx. apply list_elem_of_lookup in Hx as [i Hi].
  assert (map length steps !! i = Some (length x)) as Hlx
    by (by rewrite list_lookup_fmap, Hi).
  rewrite Hl' in Hlx. by apply lookup_replicate in Hlx as [-> _].
Qed.

(** C6.  On well-shaped input with a 0/1 mask, and for a GRU of input size
    [F] (one that returns a hidden state per sequence on batches of
    sequences of [F] features, see [gru_dims]), [variable_size_gru_encode]
    returns a tensor of shape [batch, entity_count, hidden_size] whose vector
    at an entity without valid step is zero, and whose vector at a valid
    entity is the hidden state of that entity's own sequence: the entity is
    number [k] among the valid ones in row-major order, the compacted batch
    holds its feature block and its number of valid steps at position [k],
    and its encoding is row [k] of the result of the GRU. *)
Theorem variable_size_gru_encode_scatter gru feat masks B E T F F' :
  shape4 feat = replicate B (replicate E (replicate T F)) →
  shape4 masks = replicate B (replicate E (replicate T F')) →
  0 < T → 0 < F →
  mask_binary masks = true → gru_dims gru F (hidden_size gru) →
  ∃ enc,
    variable_size_gru_encode feat masks gru = Ok enc ∧
    shape3 enc = replicate B (replicate E (hidden_size gru)) ∧
    (∀ b e steps, get2 masks b e = Some steps → entity_valid steps = false →
       get2 enc b e = Some (zeros (hidden_size gru))) ∧
    (∀ b e steps, get2 masks b e = Some steps → entity_valid steps = true →
       let k := rank (entity_mask masks) b e in
       ∃ hs h,
         gru_h_n gru (compact feat (entity_mask masks)) (valid_lens masks)
           = Ok hs ∧
         compact feat (entity_mask masks) !! k = get2 feat b e ∧
         valid_lens masks !! k = Some (Z.of_nat (valid_steps steps)) ∧
         hs !! k = Some h ∧ get2 enc b e = Some h).
Proof.
  intros Hf Hm _ _ Hb [_ Hgru].
  pose proof (shape4_shape2 _ _ _ _ _ Hf) as Hf2.
  pose proof (shape4_shape2 _ _ _ _ _ Hm) as Hm2.
  assert (shape2 feat = shape2 (entity_mask masks)) as HfV
    by (by rewrite entity_mask_shape, Hf2, Hm2).
  rewrite vsge_run by (done || congruence). simpl.
  set (V := entity_mask masks) in *.
  assert (HV : map (map (fun _ : bool => hidden_size gru)) V
               = replicate B (replicate E (hidden_size gru))).
  { pose proof (entity_mask_shape masks) as HVs. fold V in HVs.
    rewrite Hm2 in HVs. unfold shape2 in HVs. clear -HVs.
    revert B HVs. induction V as [|vs V IH]; intros [|B] HVs;
      simplify_eq/=; [done|].
    f_equal; [|by apply IH]. clear. induction vs; simpl; by f_equal. }
  case_decide as Hcount.
  - destruct (Hgru (compact feat V) (valid_lens masks) T)
      as (hs & Hhs & Hlen & Hrows).
    { by rewrite valid_lens_length, compact_length. }
    { apply Forall_forall. intros block Hblock%compact_subset. split.
      - exact (shape4_steps _ _ _ _ _ _ Hf Hblock).
      - exact (shape4_step_widths _ _ _ _ _ _ Hf Hblock). }
    { apply Forall_forall. intros l Hl. split; [by eapply valid_lens_pos|].
      unfold valid_lens in Hl.
      apply list_elem_of_fmap in Hl as (steps & -> & Hin).
      apply list_elem_of_In, filter_In in Hin as [Hin _].
      apply list_elem_of_In in Hin.
      rewrite <- (shape4_steps _ _ _ _ _ _ Hm Hin).
      pose proof (valid_steps_le steps). lia. }
    rewrite compact_length in Hlen by done.
    assert (length (hd [] hs) = hidden_size gru) as HH.
    { destruct hs as [|h hs]; simpl in *; [lia|]. by inversion Hrows. }
    rewrite Hhs. simpl.
    rewrite masked_scatter3_place by (by rewrite ?HH). rewrite HH.
    eexists. split; [done|]. split; [|split].
    + rewrite (place2_shape V _ (hidden_size gru)); [done| |done].
      apply length_replicate.
    + intros b e steps Hget Hv. rewrite place2_lookup.
      fold V. pose proof (entity_mask_get masks b e) as HVget.
      fold V in HVget. rewrite Hget in HVget. simpl in HVget.
      destruct (V !! b) as [vs|]; simpl in *; [|done].
      rewrite HVget. simpl. by rewrite Hv.
    + intros b e steps Hget Hv. cbv zeta. set (k := rank V b e). exists hs.
      pose proof (entity_mask_get masks b e) as HVget.
      fold V in HVget. rewrite Hget in HVget. simpl in HVget.
      rewrite Hv in HVget.
      destruct (V !! b) as [vs|] eqn:HVb; simpl in HVget; [|done].
      pose proof (rank_lt V b e vs HVb HVget) as Hk. fold k in Hk.
      destruct (lookup_lt_is_Some_2 hs k) as [h Hh]; [lia|].
      exists h. split; [done|]. split; [by eapply compact_rank|].
      split; [by apply valid_lens_rank|]. split; [done|].
      rewrite place2_lookup, HVb. simpl. rewrite HVget. simpl.
      fold k. by rewrite Hh.
  - eexists. split; [done|].
    rewrite (replicate_dims feat B E (zeros (hidden_size gru)) Hf2).
    split; [|split].
    + unfold shape3, zeros. by rewrite !fmap_replicate, length_replicate.
    + intros b e steps Hget _. unfold get2 in *.
      destruct (masks !! b) as [m|] eqn:Hmb; simpl in Hget; [|done].
      destruct (shape2_dims masks B E Hm2) as [HB _].
      apply lookup_lt_Some in Hmb as Hb'.
      rewrite lookup_replicate_2 by lia. simpl.
      assert (length m = E) as HE.
      { unfold shape2 in Hm2.
        assert (map length masks !! b = Some (length m)) as Hl
          by (by rewrite list_lookup_fmap, Hmb).
        rewrite Hm2 in Hl. by apply lookup_replicate in Hl as [-> _]. }
      apply lookup_lt_Some in Hget. rewrite lookup_replicate_2 by lia. done.
    + intros b e steps Hget Hv.
      pose proof (entity_mask_get masks b e) as HVget.
      fold V in HVget. rewrite Hget in HVget. simpl in HVget.
      rewrite Hv in HVget.
      destruct (V !! b) as [vs|] eqn:HVb; simpl in HVget; [|done].
      pose proof (rank_lt V b e vs HVb HVget). lia.
Qed.

Lemma rmap_length {A B} (f : A → result B) l ys :
  rmap f l = Ok ys → length ys = length l.
Proof. intros H%rmap_Ok. symmetry. by eapply Forall2_length. Qed.

Lemma bcast_mismatch {A B} (xs : list A) (ys : list B) :
  length xs ≠ length ys → length xs ≠ 1 → length ys ≠ 1 →
  bcast xs ys = Raise RuntimeError.
Proof.
  intros Hne Hx Hy. unfold bcast. rewrite decide_False by done.
  destruct xs as [|x [|x' xs]]; simpl in *; try done;
    by destruct ys as [|y [|y' ys]].
Qed.

Lemma bcast_head {A B} (x : A) (xs : list A) (y : B) (ys : list B) :
  bcast (x :: xs) (y :: ys) = Raise RuntimeError ∨
  ∃ rows, bcast (x :: xs) (y :: ys) = Ok ((x, y) :: rows).
Proof.
  unfold bcast. case_decide; [right; eexists; reflexivity|].
  destruct xs, ys; simpl; eauto.
Qed.

(** C9 (amended).  [variable_size_gru_encode] does not compare the shape of
    the mask with the shape of the features: it reads the mask at index 0
    of its last axis only, so the result is that of the mask cut down to its
    first column.  It raises when the batch axes differ and neither has
    size 1, and when the entity axes differ and neither has size 1: these
    are the two axes that [masked_select] broadcasts. *)
Theorem variable_size_gru_encode_reads_first_column feat masks gru :
  variable_size_gru_encode feat masks gru
  = variable_size_gru_encode feat (map (map (map (take 1))) masks) gru ∧
  (length feat ≠ length masks → length feat ≠ 1 → length masks ≠ 1 →
   ∃ e, variable_size_gru_encode feat masks gru = Raise e) ∧
  (∀ B B' E E',
     shape2 feat = replicate B E → shape2 masks = replicate B' E' →
     0 < B → 0 < B' → E ≠ E' → E ≠ 1 → E' ≠ 1 →
     ∃ e, variable_size_gru_encode feat masks gru = Raise e).
Proof.
  split; [apply vsge_first_column|]. split.
  - intros Hne Hf Hm. unfold variable_size_gru_encode.
    destruct (col0 masks) as [m0|e] eqn:Hm0; simpl; [|by eauto].
    unfold masked_select2. rewrite bcast_mismatch; simpl; eauto.
    all: rewrite length_map; by rewrite (rmap_length _ _ _ Hm0).
  - intros B B' E E' Hf Hm HB HB' HE HE1 HE1'.
    unfold variable_size_gru_encode.
    destruct (col0 masks) as [m0|e] eqn:Hm0; simpl; [|by eauto].
    destruct feat as [|r feat]; [destruct B; [lia|done]|].
    destruct masks as [|mr masks]; [destruct B'; [lia|done]|].
    destruct B as [|B]; [lia|]. destruct B' as [|B']; [lia|].
    injection Hf as Hr _. injection Hm as Hmr _.
    rewrite col0_unfold in Hm0. simpl in Hm0.
    destruct (rmap (rmap head0) mr) as [v|] eqn:Hv; [|done]. simpl in Hm0.
    destruct (rmap (rmap (rmap head0)) masks) as [m0'|]; [|done].
    simpl in Hm0. injection Hm0 as <-.
    apply rmap_length in Hv.
    unfold masked_select2. simpl map.
    destruct (bcast_head r feat
                (map (fun steps => existsb (fun m => negb (to_bool m)) steps) v)
                (map (map (fun steps => existsb (fun m => negb (to_bool m)) steps))
                   m0')) as [->|[rows ->]]; simpl; [by eauto|].
    rewrite bcast_mismatch; simpl; eauto.
    all: rewrite ?length_map; lia.
Qed.

Lemma checked_gru_dims i : gru_dims (checked_gru i) i 2.
Proof.
  split; [done|]. intros seqs lens T Hlen Hseqs _. simpl.
  assert (forallb (forallb (fun x : list Q => length x =? i)) seqs = true)
    as ->.
  { apply forallb_forall. intros s Hs%list_elem_of_In.
    rewrite Forall_forall in Hseqs. destruct (Hseqs s Hs) as [_ Hw].
    apply forallb_forall. intros x Hx%list_elem_of_In.
    rewrite Forall_forall in Hw. apply Nat.eqb_eq. by apply Hw. }
  eexists. split; [reflexivity|].
  split; [rewrite length_zip_with; lia|].
  apply Forall_forall. intros r Hr.
  apply list_elem_of_lookup in Hr as [k Hk].
  by apply lookup_zip_with_Some in Hk as (s & l & -> & _ & _).
Qed.

(** Three examples of features against two of masks; three entities of
    features against two of masks. *)
Lemma variable_size_gru_encode_reads_first_column_witness :
  (∃ e, variable_size_gru_encode
          [[[[1; 2]]]; [[[3; 4]]]; [[[5; 6]]]]%Q [[[[0; 0]]]; [[[0; 0]]]]%Q
          sum_gru = Raise e) ∧
  (∃ e, variable_size_gru_encode
          [[[[1; 2]]; [[3; 4]]; [[5; 6]]]]%Q [[[[0; 0]]; [[0; 0]]]]%Q
          sum_gru = Raise e).
Proof.
  split.
  - apply (variable_size_gru_encode_reads_first_column
             [[[[1; 2]]]; [[[3; 4]]]; [[[5; 6]]]]%Q [[[[0; 0]]]; [[[0; 0]]]]%Q
             sum_gru); simpl; lia.
  - apply (proj2 (proj2 (variable_size_gru_encode_reads_first_column
                           [[[[1; 2]]; [[3; 4]]; [[5; 6]]]]%Q
                           [[[[0; 0]]; [[0; 0]]]]%Q sum_gru)) 1 1 3 2);
      (reflexivity || lia).
Defined.

(** Features of shape [1, 1, 2, 2] with a mask of shape [1, 1, 2, 1]: the
    shapes differ and the call returns the encoding. *)
Lemma variable_size_gru_encode_accepts_mismatch :
  shape4 [[[[1; 2]; [3; 4]]]]%Q ≠ shape4 [[[[0]; [1]]]]%Q ∧
  variable_size_gru_encode [[[[1; 2]; [3; 4]]]]%Q [[[[0]; [1]]]]%Q sum_gru
  = Ok [[[3; 1]]]%Q.
Proof. split; [discriminate|]. vm_compute. reflexivity. Qed.


(** One example with two entities; the first is padded, the second has one
    valid step with features 5 and 6.  The GRU checks the width of its
    input. *)
Lemma variable_size_gru_encode_scatter_witness :
  ∃ enc,
    variable_size_gru_encode
      [[[[1; 2]; [3; 4]]; [[5; 6]; [7; 8]]]]%Q
      [[[[1; 1]; [1; 1]]; [[0; 0]; [1; 1]]]]%Q (checked_gru 2) = Ok enc ∧
    get2 enc 0 0 = Some [0; 0]%Q ∧ get2 enc 0 1 = Some [11; 1]%Q.
Proof.
  destruct (variable_size_gru_encode_scatter (checked_gru 2)
              [[[[1; 2]; [3; 4]]; [[5; 6]; [7; 8]]]]%Q
              [[[[1; 1]; [1; 1]]; [[0; 0]; [1; 1]]]]%Q 1 2 2 2 2)
    as (enc & Hrun & _ & Hinv & Hval);
    [reflexivity|reflexivity|lia|lia|reflexivity|apply checked_gru_dims|].
  exists enc. split; [exact Hrun|]. split.
  - apply (Hinv 0 0 [[1; 1]; [1; 1]]%Q); reflexivity.
  - destruct (Hval 0 1 [[0; 0]; [1; 1]]%Q) as (hs & h & Hhs & _ & _ & Hh & ->);
      [reflexivity..|].
    vm_compute in Hhs. injection Hhs as <-.
    vm_compute in Hh. injection Hh as <-. reflexivity.
Defined.

Lemma existsb_fmap {A B} (f : B → bool) (g : A → B) l :
  existsb f (map g l) = existsb (fun x => f (g x)) l.
Proof. induction l as [|x l IH]; simpl; [done|]. by rewrite IH. Qed.

(** Whatever the GRU returns, the encoding of an entity without valid step
    is a zero vector. *)
Lemma vsge_invalid_zero feat masks gru enc m0 B E b e :
  variable_size_gru_encode feat masks gru = Ok enc →
  shape2 feat = replicate B E → b < B → e < E →
  col0 masks = Ok m0 →
  existsb (fun m => negb (to_bool m)) <$> get2 m0 b e = Some false →
  ∃ H, get2 enc b e = Some (zeros H).
Proof.
  unfold variable_size_gru_encode. intros Hrun Hf Hb He Hm0 Hinv.
  rewrite Hm0 in Hrun. simpl in Hrun.
  destruct (masked_select2 _ _) as [fb|]; simpl in Hrun; [|done].
  case_decide.
  - destruct (pack_padded_sequence _ _) as [packed|]; simpl in Hrun; [|done].
    destruct (gru_h_n _ _ _) as [hs|]; simpl in Hrun; [|done].
    unfold get2 in Hinv.
    destruct (m0 !! b) as [m|] eqn:Hmb; simpl in Hinv; [|done].
    destruct (m !! e) as [steps|] eqn:Hme; simpl in Hinv; [|done].
    eexists.
    eapply (masked_scatter3_invalid _ _ _ _ b e
              (map (existsb (fun m => negb (to_bool m))) m)); [exact Hrun| |].
    + by rewrite list_lookup_fmap, Hmb.
    + by rewrite list_lookup_fmap, Hme.
  - simplify_eq. exists (hidden_size gru).
    rewrite (replicate_dims feat B E _ Hf). unfold get2.
    rewrite lookup_replicate_2 by done. simpl.
    by rewrite lookup_replicate_2.
Qed.

Lemma rmap_shape2 {A B} (f : list A → result (list B)) t t' :
  rmap (rmap f) t = Ok t' → shape2 t' = shape2 t.
Proof.
  unfold shape2. intros H%rmap_Ok.
  induction H as [|r r' t t' Hr _ IH]; simpl; [done|].
  f_equal; [|done]. by eapply rmap_length.
Qed.

(** C7 (amended).  The lane-node encodings that [forward] computes with the
    node GRU, before agent-node attention, [mix] and the GAT layers, hold a
    zero vector at every node whose entry of the returned node mask is 1. *)
Theorem encode_lane_nodes_zero_at_masked self feats masks enc nm B N P F F' :
  shape4 feats = replicate B (replicate N (replicate P F)) →
  shape4 masks = replicate B (replicate N (replicate P F')) →
  encode_lane_nodes self feats masks = Ok enc →
  node_masks masks = Ok nm →
  ∀ b n, get2 nm b n = Some 1%Q → ∃ H, get2 enc b n = Some (zeros H).
Proof.
  intros Hf Hm Henc Hnm b n Hbn.
  unfold encode_lane_nodes in Henc.
  destruct (rmap _ feats) as [emb|] eqn:Hemb; simpl in Henc; [|done].
  unfold node_masks in Hnm.
  destruct (col0 masks) as [m0|] eqn:Hm0; simpl in Hnm; [|done].
  simplify_eq.
  assert (shape2 emb = replicate B N) as Hemb2.
  { rewrite (rmap_shape2 _ _ _ Hemb). by eapply shape4_shape2. }
  assert (length m0 = B) as Hm0B.
  { rewrite col0_unfold in Hm0. rewrite (rmap_length _ _ _ Hm0).
    by destruct (shape2_dims masks B N (shape4_shape2 _ _ _ _ _ Hm)). }
  unfold get2 in Hbn. rewrite !list_lookup_fmap in Hbn.
  destruct (m0 !! b) as [m|] eqn:Hmb; simpl in Hbn; [|done].
  rewrite !list_lookup_fmap in Hbn.
  destruct (m !! n) as [steps|] eqn:Hmn; simpl in Hbn; [|done].
  assert (length m = N) as HmN.
  { rewrite col0_unfold in Hm0. apply rmap_Ok in Hm0.
    destruct (Forall2_lookup_r _ _ _ _ _ Hm0 Hmb) as (mm & Hmm & Hrm).
    rewrite (rmap_length _ _ _ Hrm).
    pose proof (shape4_shape2 _ _ _ _ _ Hm) as Hm2. unfold shape2 in Hm2.
    assert (map length masks !! b = Some (length mm)) as Hl
      by (by rewrite list_lookup_fmap, Hmm).
    rewrite Hm2 in Hl. by apply lookup_replicate in Hl as [-> _]. }
  eapply (vsge_invalid_zero _ _ _ _ m0 B N b n); eauto.
  - apply lookup_lt_Some in Hmb. lia.
  - apply lookup_lt_Some in Hmn. lia.
  - unfold get2. rewrite Hmb. simpl. rewrite Hmn. simpl. f_equal.
    rewrite existsb_fmap in Hbn.
    destruct (existsb _ steps); [|done]. simpl in Hbn. discriminate.
Qed.

End EncoderFacts.

(** * Properties of the aggregator *)

Section AggregatorFacts.

Import GoalConditioned.


Lemma expsum_nonneg xs : (0 <= expsum xs)%R.
Proof.
  induction xs as [|[a| | |] xs IH]; simpl; try lra.
  pose proof (exp_pos a). lra.
Qed.

Lemma expsum_pos xs : Exists is_fin xs → (0 < expsum xs)%R.
Proof.
  induction 1 as [[a| | |] xs Hx|[a| | |] xs _ IH]; simpl in *; try done.
  - pose proof (exp_pos a). pose proof (expsum_nonneg xs). lra.
  - pose proof (exp_pos a). lra.
Qed.

Lemma xsum_exp xs :
  Forall fin_or_ninf xs → xsum (map xexp xs) = Fin (expsum xs).
Proof.
  unfold xsum.
  induction 1 as [|[a| | |] xs Hx _ IH]; simpl in *; try done.
  - by rewrite IH.
  - rewrite IH. simpl. f_equal. lra.
Qed.

Lemma xsum_exp_shift xs L :
  Forall fin_or_ninf xs →
  xsum (map xexp (map (fun x => xsub x (Fin L)) xs))
  = Fin (expsum xs * exp (- L)).
Proof.
  unfold xsum.
  induction 1 as [|[a| | |] xs Hx _ IH]; simpl in *; try done.
  - f_equal. lra.
  - rewrite IH. simpl. f_equal.
    replace (a + - L)%R with (a + (- L))%R by lra. rewrite exp_plus. lra.
  - rewrite IH. simpl. f_equal. lra.
Qed.

Lemma log_softmax_normalised xs :
  Forall fin_or_ninf xs → Exists is_fin xs →
  xsum (map xexp (log_softmax xs)) = Fin 1.
Proof.
  intros Hall Hex. unfold log_softmax. rewrite (xsum_exp xs Hall).
  pose proof (expsum_pos xs Hex) as Hpos. unfold xlog.
  destruct (Rlt_dec 0 (expsum xs)) as [_|]; [|done].
  rewrite xsum_exp_shift by done. f_equal.
  rewrite exp_Ropp, exp_ln by done. by apply Rinv_r, Rgt_not_eq.
Qed.

Lemma log_softmax_masked xs n :
  Forall fin_or_ninf xs → Exists is_fin xs →
  xs !! n = Some NInf → xexp <$> log_softmax xs !! n = Some (Fin 0).
Proof.
  intros Hall Hex Hn. unfold log_softmax. rewrite (xsum_exp xs Hall).
  pose proof (expsum_pos xs Hex) as Hpos. unfold xlog.
  destruct (Rlt_dec 0 (expsum xs)) as [_|]; [|done].
  by rewrite list_lookup_fmap, Hn.
Qed.

Lemma log_softmax_length xs : length (log_softmax xs) = length xs.
Proof. unfold log_softmax. by rewrite length_map. Qed.

Lemma torch_log_valid m : m == 0 → torch_log (1 - m) = Fin 0.
Proof.
  intros Hm. unfold torch_log.
  destruct (Qlt_le_dec 0 (1 - m)) as [_|Hle].
  - f_equal. rewrite (Qeq_eqR (1 - m) 1) by (rewrite Hm; reflexivity).
    rewrite RMicromega.Q2R_1. apply ln_1.
  - exfalso. rewrite Hm in Hle. by apply Hle.
Qed.

Lemma torch_log_masked m : m == 1 → torch_log (1 - m) = NInf.
Proof.
  intros Hm. unfold torch_log.
  destruct (Qlt_le_dec 0 (1 - m)) as [Hlt|_].
  - exfalso. rewrite Hm in Hlt. by apply (Qlt_irrefl 0).
  - assert (Qeq_bool (1 - m) 0 = true) as ->; [|done].
    apply Qeq_bool_iff. rewrite Hm. reflexivity.
Qed.

Lemma masked_scores_spec ops masks :
  length ops = length masks → forallb node_binary masks = true →
  Forall fin_or_ninf (masked_scores ops masks) ∧
  (existsb (fun m => Qeq_bool m 0) masks = true →
   Exists is_fin (masked_scores ops masks)) ∧
  (existsb (fun m => Qeq_bool m 0) masks = false →
   Forall (fun x => x = NInf) (masked_scores ops masks)) ∧
  ∀ n m, masks !! n = Some m → Qeq_bool m 1 = true →
         masked_scores ops masks !! n = Some NInf.
Proof.
  unfold masked_scores. revert masks.
  induction ops as [|g ops IH]; intros [|m masks] Hlen Hbin; simplify_eq/=.
  - split; [constructor|]. split; [done|]. split; [constructor|].
    intros n m. by rewrite lookup_nil.
  - apply andb_true_iff in Hbin as [Hm Hbin].
    destruct (IH masks Hlen Hbin) as (IH1 & IH2 & IH3 & IH4).
    unfold node_binary in Hm. apply orb_true_iff in Hm.
    destruct (Qeq_bool m 0) eqn:H0.
    + apply Qeq_bool_iff in H0. rewrite (torch_log_valid m H0). simpl.
      split; [by constructor|]. split; [by left|]. split; [done|].
      intros [|n] m' Hn H1; simplify_eq/=; [|by eauto].
      apply Qeq_bool_iff in H1. rewrite H0 in H1. discriminate.
    + destruct Hm as [|H1]; [done|]. apply Qeq_bool_iff in H1.
      rewrite (torch_log_masked m H1). simpl.
      split; [by constructor|]. split; [by right; auto|].
      split; [by constructor; auto|].
      intros [|n] m' Hn H1'; simplify_eq/=; eauto.
Qed.

Lemma log_softmax_all_masked xs :
  Forall (fun x => x = NInf) xs → Forall (fun x => x = NaN) (log_softmax xs).
Proof.
  intros Hall. unfold log_softmax.
  assert (xsum (map xexp xs) = Fin 0) as ->.
  { unfold xsum. induction Hall as [|x xs -> _ IH]; simpl; [done|].
    rewrite IH. simpl. f_equal. lra. }
  unfold xlog. destruct (Rlt_dec 0 0) as [H|_]; [lra|].
  destruct (Req_dec_T 0 0) as [_|H]; [|done].
  apply Forall_fmap. eapply Forall_impl; [exact Hall|].
  by intros x ->.
Qed.

Lemma masked_scatter1_length dest : ∀ mask src r rest,
  masked_scatter1 dest mask src = Ok (r, rest) →
  length dest = length mask → length r = length dest.
Proof.
  induction dest as [|d dest IH]; intros [|m mask] src r rest Hrun Hlen;
    simplify_eq/=; [done|].
  destruct m.
  - destruct src as [|x src]; [done|].
    destruct (masked_scatter1 dest mask src) as [[r1 rest1]|] eqn:Hr;
      simpl in Hrun; [|done].
    simplify_eq/=. f_equal. eauto.
  - destruct (masked_scatter1 dest mask src) as [[r1 rest1]|] eqn:Hr;
      simpl in Hrun; [|done].
    simplify_eq/=. f_equal. eauto.
Qed.

Lemma scatter2_shape dest : ∀ mask src r rest,
  scatter_axis (scatter_axis masked_scatter1) dest mask src = Ok (r, rest) →
  shape3 dest = shape3 mask → shape3 r = shape3 dest.
Proof.
  unfold shape3.
  induction dest as [|d dest IH]; intros [|m mask] src r rest Hrun Hsh;
    simplify_eq/=; [done|].
  destruct (scatter_axis masked_scatter1 d m src) as [[r1 src1]|] eqn:Hr1;
    simpl in Hrun; [|done].
  destruct (scatter_axis _ dest mask src1) as [[rs src2]|] eqn:Hrs;
    simpl in Hrun; [|done].
  simplify_eq/=. f_equal; [|by eauto].
  clear IH Hrs. revert m src r1 src1 Hr1 H.
  induction d as [|x d IHd]; intros [|y m] src r1 src1 Hr1 Hxy;
    simplify_eq/=; [done|].
  destruct (masked_scatter1 x y src) as [[r0 src0]|] eqn:Hr0;
    simpl in Hr1; [|done].
  destruct (scatter_axis masked_scatter1 d m src0) as [[rs0 src00]|] eqn:Hrs0;
    simpl in Hr1; [|done].
  simplify_eq/=. f_equal; [|by eauto].
  by eapply masked_scatter1_length.
Qed.

Lemma compute_goal_probs_rows self ta ne nm glp :
  compute_goal_probs self ta ne nm = Ok glp →
  ∃ goal_ops,
    shape2 goal_ops = shape2 nm ∧
    glp = zip_with (fun ops masks => log_softmax (masked_scores ops masks))
            goal_ops nm.
Proof.
  unfold compute_goal_probs. intros Hrun.
  destruct (cat_dim2 _ _) as [enc|]; simpl in Hrun; [|done].
  destruct (masked_select2 _ _) as [encb|]; simpl in Hrun; [|done].
  destruct (rmap _ encb) as [ops_|]; simpl in Hrun; [|done].
  destruct (masked_scatter3 _ _ _) as [ops3|] eqn:Hsc; simpl in Hrun; [|done].
  simplify_eq. eexists. split; [|reflexivity].
  unfold masked_scatter3 in Hsc.
  destruct (scatter_axis _ _ _ _) as [[r rest]|] eqn:Hr; simpl in Hsc; [|done].
  simplify_eq. apply scatter2_shape in Hr.
  2:{ by rewrite shape3_fmap. }
  rewrite shape3_fmap in Hr. unfold shape3, shape2 in *.
  rewrite <- !list_fmap_compose in Hr.
  assert (map length (map (map (fun c : list Q => hd 0%Q c)) ops3)
          = map length ops3) as ->.
  { rewrite <- list_fmap_compose. apply list_fmap_ext. intros i x _.
    simpl. by rewrite length_map. }
  transitivity (map length (map (map length) ops3)).
  { rewrite <- list_fmap_compose. apply list_fmap_ext. intros i x _.
    simpl. by rewrite length_map. }
  rewrite Hr, <- list_fmap_compose. apply list_fmap_ext. intros i x _.
  simpl. by rewrite !length_map.
Qed.

(** C1 (amended).  For a node mask with entries 0 or 1, the tensor returned
    by [compute_goal_probs] has the shape of the mask, and in every example
    that has a valid node (mask 0) the exponentiated entries sum to 1 over
    the node axis and the exponentiated entry of every masked node (mask 1)
    is 0; the row of an example whose nodes are all masked is NaN
    throughout. *)
Theorem compute_goal_probs_normalised self ta ne nm glp :
  compute_goal_probs self ta ne nm = Ok glp →
  forallb (forallb node_binary) nm = true →
  shape2 glp = shape2 nm ∧
  ∀ b row masks,
    glp !! b = Some row → nm !! b = Some masks →
    if existsb (fun m => Qeq_bool m 0) masks then
      xsum (map xexp row) = Fin 1 ∧
      ∀ n m, masks !! n = Some m → Qeq_bool m 1 = true →
             xexp <$> row !! n = Some (Fin 0)
    else Forall (fun x => x = NaN) row.
Proof.
  intros Hrun Hbin.
  destruct (compute_goal_probs_rows _ _ _ _ _ Hrun) as (ops & Hsh & ->).
  assert (Hrows : ∀ b o masks, ops !! b = Some o → nm !! b = Some masks →
                    length o = length masks).
  { intros b o masks Ho Hm. unfold shape2 in Hsh.
    assert (map length ops !! b = Some (length o)) as Hl
      by (by rewrite list_lookup_fmap, Ho).
    rewrite Hsh, list_lookup_fmap, Hm in Hl. by simplify_eq/=. }
  split.
  - unfold shape2. apply list_eq. intros b.
    rewrite !list_lookup_fmap, lookup_zip_with.
    destruct (ops !! b) as [o|] eqn:Ho; simpl.
    + destruct (nm !! b) as [masks|] eqn:Hm; simpl.
      * rewrite log_softmax_length. unfold masked_scores.
        rewrite length_zip_with, (Hrows _ _ _ Ho Hm). f_equal. lia.
      * apply lookup_ge_None in Hm. apply lookup_lt_Some in Ho.
        unfold shape2 in Hsh.
        rewrite <- (length_map length ops), Hsh, length_map in Ho. lia.
    + apply lookup_ge_None in Ho. unfold shape2 in Hsh.
      rewrite <- (length_map length ops), Hsh, length_map in Ho.
      by rewrite (proj2 (lookup_ge_None nm b) Ho).
  - intros b row masks Hrow Hm.
    apply lookup_zip_with_Some in Hrow as (o & masks' & -> & Ho & Hm').
    rewrite Hm in Hm'. injection Hm' as <-.
    rewrite forallb_forall in Hbin.
    assert (forallb node_binary masks = true) as Hb.
    { apply Hbin. apply list_elem_of_In. by eapply list_elem_of_lookup_2. }
    destruct (masked_scores_spec o masks (Hrows _ _ _ Ho Hm) Hb)
      as (Hall & Hex & Hnone & Hninf).
    destruct (existsb _ masks).
    + split; [by apply log_softmax_normalised; auto|].
      intros n m Hn H1. apply log_softmax_masked; eauto.
    + by apply log_softmax_all_masked, Hnone.
Qed.

(** One example whose only node is masked: its log-probability is NaN, so
    the exponentials neither sum to 1 nor vanish. *)
Lemma compute_goal_probs_all_masked :
  compute_goal_probs example_aggregator [[1]]%Q [[[1]]]%Q [[1]]%Q = Ok [[NaN]].
Proof.
  unfold compute_goal_probs. simpl.
  unfold log_softmax, xsum, xlog. simpl.
  destruct (Rlt_dec 0 (0 + 0)) as [H|_]; [lra|].
  destruct (Req_dec_T (0 + 0) 0) as [_|H]; [done|lra].
Qed.

(** One example with a valid and a masked node. *)
Lemma compute_goal_probs_normalised_witness :
  ∃ glp row,
    compute_goal_probs example_aggregator [[1]]%Q [[[1]; [2]]]%Q [[0; 1]]%Q
      = Ok glp ∧
    glp !! 0 = Some row ∧
    xsum (map xexp row) = Fin 1 ∧ xexp <$> row !! 1 = Some (Fin 0).
Proof.
  destruct (compute_goal_probs example_aggregator
              [[1]]%Q [[[1]; [2]]]%Q [[0; 1]]%Q) as [glp|e] eqn:Hrun.
  2:{ exfalso. revert Hrun. unfold compute_goal_probs. simpl. discriminate. }
  destruct (compute_goal_probs_normalised _ _ _ _ _ Hrun eq_refl)
    as [Hsh Hrows].
  destruct glp as [|row [|]]; try discriminate Hsh.
  exists [row], row. split; [reflexivity|]. split; [reflexivity|].
  destruct (Hrows 0 row [0; 1]%Q eq_refl eq_refl) as [Hsum Hmasked].
  split; [exact Hsum|]. exact (Hmasked 1 1%Q eq_refl eq_refl).
Defined.

Lemma ST_bind_lift {S A B} (r : result A) (k : A → ST S B) (s : S) :
  (lift r ≫= k) s = match r with Ok a => k a s | Raise e => (Raise e, s) end.
Proof. unfold mbind, ST_bind, lift. by destruct r. Qed.

Section GoalForward.

Context {rng : Type}.
Variable categorical_sample : list (list (list xreal)) → ST rng (list (list Z)).
Variable global_attention_forward : gmap string pyobj → result (list (list Q)).

(** Lines 75-83 on their own: with [pre_train] set and the module in
    training mode, every one of the [num_samples] goals of an example is the
    last entry of its [node_seq_gt] row, cast to an integer, minus
    [max_nodes]; the sampler is not called. *)
Lemma select_goals_pretrain self (encodings : gmap string pyobj)
    node_masks goal_log_probs node_seq_gt (r : rng) :
  pre_train self = true → training self = true →
  encodings !! "node_seq_gt" = Some (PFloat2 node_seq_gt) →
  Forall (fun seq => seq ≠ []) node_seq_gt →
  select_goals categorical_sample self encodings node_masks goal_log_probs r
  = (Ok (map (fun seq =>
            replicate (num_samples self)
              (long (default 0%Q (last seq))
               - Z.of_nat (length (hd [] node_masks)))%Z)
       node_seq_gt), r).
Proof.
  intros Hpre Htrain Hgt Hne. unfold select_goals.
  rewrite Hpre, Htrain. simpl. rewrite ST_bind_lift.
  unfold getitem. rewrite Hgt. simpl. rewrite ST_bind_lift.
  rewrite (rmap_total _ (fun seq => default 0%Q (last seq))).
  - unfold mret, ST_ret. f_equal. f_equal.
    rewrite <- list_fmap_compose. apply list_fmap_ext. intros i seq _.
    simpl. by rewrite fmap_replicate.
  - eapply Forall_impl; [exact Hne|]. intros seq Hseq. simpl.
    destruct (last seq) eqn:Hl; [done|].
    by apply last_None in Hl.
Qed.

(** C8.  With [pre_train] set, in training mode and without the key
    node_seq_gt in the encodings, [forward] raises and leaves the random
    source untouched; when the encodings unpack and the goal head runs, the
    exception is the [KeyError] of the lookup of node_seq_gt. *)
Theorem forward_missing_ground_truth self (encodings : gmap string pyobj)
    (r : rng) :
  pre_train self = true → training self = true →
  encodings !! "node_seq_gt" = None →
  (∃ e, forward categorical_sample global_attention_forward self encodings r
        = (Raise e, r)) ∧
  (∀ ta ctx ne nm glp,
     encodings !! "target_agent_encoding" = Some (PFloat2 ta) →
     encodings !! "context_encoding" = Some (PDict ctx) →
     ctx !! "combined" = Some (PFloat3 ne) →
     ctx !! "combined_masks" = Some (PFloat2 nm) →
     compute_goal_probs self ta ne nm = Ok glp →
     forward categorical_sample global_attention_forward self encodings r
     = (Raise (KeyError "node_seq_gt"), r)).
Proof.
  intros Hpre Htrain Hgt.
  assert (Hsel : ∀ nm glp,
    select_goals categorical_sample self encodings nm glp r
    = (Raise (KeyError "node_seq_gt"), r)).
  { intros nm glp. unfold select_goals. rewrite Hpre, Htrain. simpl.
    rewrite ST_bind_lift. unfold getitem. by rewrite Hgt. }
  split.
  - unfold forward.
    repeat (rewrite ST_bind_lift;
            match goal with
            | |- context [match ?x with Ok _ => _ | Raise _ => _ end] =>
                destruct x; [|by eauto]
            end).
    unfold mbind at 1, ST_bind. rewrite Hsel. eauto.
  - intros ta ctx ne nm glp Hta Hctx Hne Hnm Hglp. unfold forward.
    rewrite ST_bind_lift. unfold getitem at 1. rewrite Hta. simpl.
    rewrite ST_bind_lift. unfold getitem at 1. rewrite Hctx. simpl.
    rewrite ST_bind_lift. unfold getitem at 1. rewrite Hne. simpl.
    rewrite ST_bind_lift. unfold getitem at 1. rewrite Hnm. simpl.
    rewrite ST_bind_lift, Hglp.
    unfold mbind at 1, ST_bind. by rewrite Hsel.
Qed.

End GoalForward.

End AggregatorFacts.

(** * The encoder as a whole *)

Section EncoderForward.

Import PGPEncoder.


Ltac step H :=
  rewrite ST_bind_lift in H;
  match type of H with
  | match ?r with Ok _ => _ | Raise _ => _ end = _ =>
      let E := fresh "E" in destruct r eqn:E; [|discriminate H]
  end.

Lemma ST_bind_run {S A B} (c : ST S A) (k : A → ST S B) (s : S) :
  (c ≫= k) s =
  match c s with
  | (Ok a, s') => k a s'
  | (Raise e, s') => (Raise e, s')
  end.
Proof. reflexivity. Qed.

(** C10.  [build_adj_mat] writes the dummy-corrected destinations into the
    tensor at the address of [s_next]; the encodings returned by [forward]
    hold that same address under the key s_next, and after the call the
    store holds the corrected tensor there: the original values are not
    restored. *)
Theorem forward_passes_mutated_s_next l et
    (h : gmap nat (list (list (list Q)))) s :
  h !! l = Some s →
  (∀ A h1, build_adj_mat l et h = (Ok A, h1) →
     ∃ s', h1 = <[l := s']> h ∧ shape3 s' = shape3 s ∧
           ∀ b i e, get3 s' b i e = corrected_dest s et b i e) ∧
  (∀ self (inputs map_rep encodings : gmap string pyobj) h',
     inputs !! "map_representation" = Some (PDict map_rep) →
     map_rep !! "s_next" = Some (PRef l) →
     map_rep !! "edge_type" = Some (PInt3 et) →
     contains inputs "init_node" = true →
     forward self inputs h = (Ok encodings, h') →
     encodings !! "s_next" = Some (PRef l) ∧
     ∃ s', h' !! l = Some s' ∧ shape3 s' = shape3 s ∧
           ∀ b i e, get3 s' b i e = corrected_dest s et b i e).
Proof.
  intros Hs. split.
  { intros A h1 Hrun. by eapply build_adj_mat_mutates. }
  intros self inputs map_rep encodings h' Hmap Hsn Het Hinit Hrun.
  unfold forward in Hrun.
  do 3 step Hrun.
  step Hrun. unfold getitem in E2. rewrite Hmap in E2. simpl in E2.
  injection E2 as <-.
  do 21 step Hrun.
  step Hrun. unfold getitem in E23. rewrite Hsn in E23. simpl in E23.
  injection E23 as <-.
  step Hrun. unfold getitem in E23. rewrite Het in E23. simpl in E23.
  injection E23 as <-.
  rewrite ST_bind_run in Hrun.
  destruct (build_adj_mat l et h) as [[adj|e] h1] eqn:Hadj; [|discriminate].
  destruct (build_adj_mat_mutates _ _ _ _ _ _ Hs Hadj)
    as (s' & -> & Hsh & Hget).
  do 2 step Hrun.
  rewrite Hinit in Hrun. cbv iota in Hrun.
  do 2 step Hrun.
  step Hrun. unfold getitem in E27. rewrite Hsn in E27. injection E27 as <-.
  step Hrun.
  unfold mret, ST_ret in Hrun. injection Hrun as <- <-.
  split.
  - rewrite lookup_insert_ne by done. by rewrite lookup_insert_eq.
  - exists s'. by rewrite lookup_insert_eq.
Qed.

End EncoderForward.

(** * Further properties of [build_adj_mat] *)

Section AdjacencyFacts.

Import PGPEncoder.

(** Two tensors of one shape with the same entries are equal. *)
Lemma shape3_ext {A} (a b : list (list (list A))) :
  shape3 a = shape3 b →
  (∀ i j k, get3 a i j k = get3 b i j k) → a = b.
Proof.
  intros Hsh Hget. apply list_eq. intros i.
  assert (shape3 a !! i = shape3 b !! i) as Hi by (by rewrite Hsh).
  unfold shape3 in Hi. rewrite !list_lookup_fmap in Hi.
  destruct (a !! i) as [m1|] eqn:Ha, (b !! i) as [m2|] eqn:Hb;
    simpl in Hi; try done.
  f_equal. injection Hi as Hi. apply list_eq. intros j.
  assert (map length m1 !! j = map length m2 !! j) as Hj by (by rewrite Hi).
  rewrite !list_lookup_fmap in Hj.
  destruct (m1 !! j) as [r1|] eqn:H1, (m2 !! j) as [r2|] eqn:H2;
    simpl in Hj; try done.
  f_equal. apply list_eq. intros k.
  specialize (Hget i j k). unfold get3, get2 in Hget.
  rewrite Ha, Hb in Hget. simpl in Hget. by rewrite H1, H2 in Hget.
Qed.

Lemma shape3_dims {A B} (a : list (list (list A))) (b : list (list (list B))) :
  shape3 a = shape3 b →
  length a = length b ∧ length (hd [] a) = length (hd [] b) ∧
  length (hd [] (hd [] a)) = length (hd [] (hd [] b)).
Proof.
  intros Hsh.
  assert (∀ {X Y} (xs : list (list X)) (ys : list (list Y)),
            map length xs = map length ys →
            length xs = length ys ∧ length (hd [] xs) = length (hd [] ys))
    as Hrow.
  { intros X Y xs ys H. split.
    - apply (f_equal length) in H. by rewrite !length_map in H.
    - destruct xs, ys; try done. simpl in H. by injection H. }
  split.
  { apply (f_equal length) in Hsh. unfold shape3 in Hsh.
    by rewrite !length_map in Hsh. }
  apply Hrow. destruct a, b; try done. unfold shape3 in Hsh. simpl in Hsh.
  by injection Hsh.
Qed.

(** The store is touched at the address of [s_next] only, whatever the
    outcome. *)
Lemma build_adj_mat_frame_gen l et (h h' : gmap nat (list (list (list Q)))) r l' :
  build_adj_mat l et h = (r, h') → l' ≠ l → h' !! l' = h !! l'.
Proof.
  intros Hrun Hne. rewrite build_adj_mat_run in Hrun.
  destruct (h !! l) as [s|]; [|by simplify_eq].
  simpl in Hrun.
  destruct (masked_assign _ _ _) as [s'|]; [|by simplify_eq].
  destruct (index_put_true _ _ _ _ _); simplify_eq;
    by rewrite lookup_insert_ne.
Qed.

(** A step of the index assignment raises nothing but [IndexError]. *)
Lemma put_true_raise N X t e : put_true N X t = Raise e → e = IndexError.
Proof.
  unfold put_true, norm_index. intros H.
  repeat (case_decide; simpl in H); congruence.
Qed.

Lemma rfold_put_true_raise N L : ∀ X e,
  rfold (put_true N) X L = Raise e → e = IndexError.
Proof.
  induction L as [|t L IH]; intros X e H; simpl in H; [done|].
  destruct (put_true N X t) as [X1|e1] eqn:H1; simpl in H.
  - eauto.
  - injection H as <-. by eapply put_true_raise.
Qed.

(** When the index assignment returns, every triple was in range. *)
Lemma rfold_put_true_norm B N L : ∀ X X',
  adj_shape B N X → rfold (put_true N) X L = Ok X' →
  ∀ t, t ∈ L → ∃ p, norm_triple B N t = Ok p.
Proof.
  induction L as [|t0 L IH]; intros X X' Hsh H t Ht; [by inversion Ht|].
  simpl in H. destruct (put_true N X t0) as [X1|] eqn:H1; [|done].
  simpl in H. destruct (put_true_spec _ _ _ _ _ Hsh H1) as (Hsh1 & p & Hp & _).
  apply elem_of_cons in Ht as [->|Ht]; eauto.
Qed.

Lemma adj_ext B N (X Y : list (list (list bool))) :
  adj_shape B N X → adj_shape B N Y →
  (∀ b i j, b < B → i < N → j < N → get3 X b i j = get3 Y b i j) → X = Y.
Proof.
  intros HX HY Hget. apply adj_shape_shape3 in HX, HY.
  apply shape3_ext; [congruence|]. intros b i j.
  destruct (decide (b < B ∧ i < N ∧ j < N)) as [(? & ? & ?)|Hout]; [eauto|].
  destruct (get3 X b i j) eqn:H1.
  { destruct Hout. apply (shape3_get3 _ _ _ _ _ _ _ HX). by rewrite H1. }
  destruct (get3 Y b i j) eqn:H2; [|done].
  destruct Hout. apply (shape3_get3 _ _ _ _ _ _ _ HY). by rewrite H2.
Qed.

(** The index triples of the assignment of lines 276-291: one per node and
    slot other than the last, with the corrected destination. *)
Lemma adj_triples_elem s et s' t :
  let B := length s in
  let N := length (hd [] s) in
  let E := length (hd [] (hd [] s)) in
  shape3 s' = replicate B (replicate N E) →
  (∀ b i e, get3 s' b i e = corrected_dest s et b i e) →
  t ∈ index_triples (drop_last_slot (batch_indices B N E))
        (drop_last_slot (src_indices B N E))
        (map (map (map long)) (drop_last_slot s')) ↔
  ∃ b i e, b < B ∧ i < N ∧ e + 1 < E ∧
    t.1.1 = Z.of_nat b ∧ t.1.2 = Z.of_nat i ∧
    spec_dest s et b i e = Some t.2.
Proof.
  intros B N E Hsh' Hget'.
  rewrite index_triples_elem.
  2:{ rewrite (shape3_drop_last _ _ _ _ (batch_indices_shape B N E)).
      by rewrite (shape3_drop_last _ _ _ _ (src_indices_shape B N E)). }
  2:{ rewrite shape3_fmap.
      rewrite (shape3_drop_last _ _ _ _ (batch_indices_shape B N E)).
      by rewrite (shape3_drop_last _ _ _ _ Hsh'). }
  unfold spec_dest.
  split; intros (b & i & e & H); exists b, i, e; revert H;
    rewrite get3_fmap,
      (get3_drop_last _ _ _ _ _ _ _ (batch_indices_shape B N E)),
      (get3_drop_last _ _ _ _ _ _ _ (src_indices_shape B N E)),
      (get3_drop_last _ _ _ _ _ _ _ Hsh'),
      batch_indices_get, src_indices_get, Hget'.
  - repeat case_decide; intros (H1 & H2 & H3); simplify_eq/=; try done.
    repeat split; try lia; done.
  - intros (Hb & Hi & He & H1 & H2 & H3).
    rewrite !decide_True by lia. by rewrite H1, H2, H3.
Qed.

(** The conditions under which [build_adj_mat] returns: one rectangular
    shape, and every real edge outside the last slot within the node axis. *)
Lemma build_adj_mat_ok l et (h : gmap nat (list (list (list Q)))) s :
  h !! l = Some s → rect3 s → shape3 et = shape3 s →
  (∀ b i e d t, e + 1 < length (hd [] (hd [] s)) →
     get3 s b i e = Some d → get3 et b i e = Some t → t ≠ 0%Z →
     (- Z.of_nat (length (hd [] s)) ≤ long d < Z.of_nat (length (hd [] s)))%Z) →
  ∃ s' X,
    masked_assign s (no_edge et)
      (dummy_vals (length s) (length (hd [] s)) (length (hd [] (hd [] s))))
      = Ok s' ∧
    index_put_true (length (hd [] s))
      (identity_adj (length s) (length (hd [] s)))
      (drop_last_slot (batch_indices (length s) (length (hd [] s))
                         (length (hd [] (hd [] s)))))
      (drop_last_slot (src_indices (length s) (length (hd [] s))
                         (length (hd [] (hd [] s)))))
      (map (map (map long)) (drop_last_slot s')) = Ok X ∧
    build_adj_mat l et h = (Ok (map sym_or X), <[l := s']> h).
Proof.
  intros Hs Hrect Het Hrange.
  set (B := length s) in *. set (N := length (hd [] s)) in *.
  set (E := length (hd [] (hd [] s))) in *.
  destruct (masked_assign_ok s (no_edge et) (dummy_vals B N E)) as [s' Hs'].
  { unfold no_edge. by rewrite shape3_fmap. }
  { by rewrite dummy_vals_shape. }
  destruct (masked_assign_dummy _ _ _ Hs') as (_ & _ & Hsh' & Hget').
  rewrite Hrect in Hsh'. fold B N E in Hsh'.
  assert (∃ X, index_put_true N (identity_adj B N)
                 (drop_last_slot (batch_indices B N E))
                 (drop_last_slot (src_indices B N E))
                 (map (map (map long)) (drop_last_slot s')) = Ok X) as [X HX].
  { apply (rfold_put_true_ok B N); [apply identity_adj_shape|].
    intros t Ht. apply (adj_triples_elem s et s' t Hsh' Hget') in Ht.
    destruct Ht as (b & i & e & Hb & Hi & He & H1 & H2 & H3).
    unfold norm_triple. rewrite H1, H2.
    rewrite !norm_index_of_nat by lia. simpl.
    unfold spec_dest in H3.
    destruct (corrected_dest s et b i e) as [q|] eqn:Hq; [|done].
    apply corrected_dest_Some in Hq as (d & t0 & Hd & Ht0 & ->).
    assert (- Z.of_nat N ≤ t.2 < Z.of_nat N)%Z as Hin.
    { injection H3 as <-. case_decide.
      - rewrite long_float. lia.
      - eapply Hrange; eauto. }
    unfold norm_index. repeat case_decide; eauto; lia. }
  exists s', X. split; [done|]. split; [done|].
  rewrite build_adj_mat_run, Hs. simpl. fold B N E. by rewrite Hs', HX.
Qed.

(** The entries of the matrix that [build_adj_mat] returns. *)
Lemma build_adj_mat_entries l et (h h' : gmap nat (list (list (list Q)))) s A :
  h !! l = Some s → build_adj_mat l et h = (Ok A, h') →
  rect3 s ∧ shape3 et = shape3 s ∧
  adj_shape (length s) (length (hd [] s)) A ∧
  ∀ b i j, b < length s → i < length (hd [] s) → j < length (hd [] s) →
    get3 A b i j = Some (adj_spec s et b i j).
Proof.
  intros Hs Hrun.
  rewrite build_adj_mat_run, Hs in Hrun. simpl in Hrun.
  destruct (masked_assign _ _ _) as [s'|] eqn:Hs'; [|done].
  destruct (index_put_true _ _ _ _ _) as [X|] eqn:HX; [|done]. simplify_eq.
  destruct (masked_assign_dummy _ _ _ Hs') as (Hrect & Het & _ & _).
  destruct (index_put_marked _ _ _ _ Hs' HX) as [Hsh Hget].
  destruct (sym_adj_spec _ _ _ Hsh) as (Hsh' & _ & Hget').
  split; [done|]. split; [done|]. split; [done|].
  intros b i j Hb Hi Hj. rewrite Hget', !Hget by done. done.
Qed.

(** X1.  [build_adj_mat] writes to no tensor but [s_next]: whatever it
    returns or raises, every other address of the store keeps its tensor. *)
Theorem build_adj_mat_store_frame l et
    (h h' : gmap nat (list (list (list Q)))) r l' :
  build_adj_mat l et h = (r, h') → l' ≠ l → h' !! l' = h !! l'.
Proof.
  intros Hrun Hne. unfold build_adj_mat in Hrun.
  rewrite ST_bind_run in Hrun. unfold load in Hrun at 1.
  destruct (h !! l) as [s|]; [|by injection Hrun as <- <-].
  rewrite ST_bind_lift in Hrun.
  destruct (masked_assign _ _ _) as [s'|]; [|by injection Hrun as <- <-].
  rewrite ST_bind_run in Hrun. unfold store in Hrun at 1.
  rewrite ST_bind_lift in Hrun.
  destruct (index_put_true _ _ _ _ _); injection Hrun as <- <-;
    by rewrite lookup_insert_ne.
Qed.

(** X2.  When [edge_type] has not the shape of [s_next], the boolean-mask
    assignment of line 275 raises [IndexError], and [s_next] is left as it
    was. *)
Theorem build_adj_mat_shape_mismatch l et
    (h : gmap nat (list (list (list Q)))) s :
  h !! l = Some s → shape3 et ≠ shape3 s →
  build_adj_mat l et h = (Raise IndexError, h).
Proof.
  intros Hs Hne. rewrite build_adj_mat_run, Hs. simpl.
  unfold masked_assign, no_edge. rewrite shape3_fmap.
  case_decide; [|done]. by rewrite decide_False.
Qed.

(** X3.  The correction of [s_next] is idempotent: a second call on the
    store left by a first one returns the same matrix and writes the same
    tensor again. *)
Theorem build_adj_mat_idempotent l et
    (h h' : gmap nat (list (list (list Q)))) A :
  build_adj_mat l et h = (Ok A, h') → build_adj_mat l et h' = (Ok A, h').
Proof.
  intros Hrun. rewrite build_adj_mat_run in Hrun.
  destruct (h !! l) as [s|] eqn:Hs; [|done]. simpl in Hrun.
  destruct (masked_assign _ _ _) as [s'|] eqn:Hs'; [|done].
  destruct (index_put_true _ _ _ _ _) as [X|] eqn:HX; [|done]. simplify_eq.
  destruct (masked_assign_spec _ _ _ _ Hs') as (Hm & Hv & Hsh & Hget).
  destruct (shape3_dims _ _ Hsh) as (HB & HN & HE).
  rewrite build_adj_mat_run, lookup_insert_eq. simpl. rewrite HB, HN, HE.
  assert (masked_assign s' (no_edge et)
            (dummy_vals (length s) (length (hd [] s))
               (length (hd [] (hd [] s)))) = Ok s') as ->.
  { destruct (masked_assign_ok s' (no_edge et)
                (dummy_vals (length s) (length (hd [] s))
                   (length (hd [] (hd [] s))))) as [s'' Hs'']; [congruence..|].
    rewrite Hs''. f_equal.
    destruct (masked_assign_spec _ _ _ _ Hs'') as (_ & _ & Hsh2 & Hget2).
    apply shape3_ext; [done|]. intros b i e. rewrite Hget2, Hget.
    destruct (get3 s b i e); simpl; [|done].
    destruct (get3 (no_edge et) b i e) as [m|]; simpl; [|done].
    destruct (get3 (dummy_vals _ _ _) b i e); simpl; [|done].
    by destruct m. }
  by rewrite HX, insert_insert_eq.
Qed.

(** The matrix without edges. *)
Lemma spec_marked_no_edges s et b i j :
  i < length (hd [] s) →
  (∀ e t, e + 1 < length (hd [] (hd [] s)) →
     get3 et b i e = Some t → t = 0%Z) →
  spec_marked s et b i j = bool_decide (i = j).
Proof.
  intros Hi Hno. unfold spec_marked.
  destruct (bool_decide (i = j)) eqn:Hij; [done|]. simpl.
  apply not_true_is_false. intros (e & He & H)%existsb_exists.
  apply in_seq in He. unfold spec_dest in H.
  destruct (corrected_dest s et b i e) as [q|] eqn:Hq; [|done].
  apply corrected_dest_Some in Hq as (d & t & Hd & Ht & ->).
  rewrite (Hno e t) in H by (done || lia). simpl in H.
  rewrite long_float, norm_index_of_nat in H by done.
  by rewrite Hij in H.
Qed.

(** X4.  A graph without edges: when every slot other than the last holds
    edge type 0, the matrix is the identity on every example, whatever
    [s_next] holds. *)
Theorem build_adj_mat_no_edges l et (h : gmap nat (list (list (list Q)))) s :
  h !! l = Some s → rect3 s → shape3 et = shape3 s →
  (∀ b i e t, e + 1 < length (hd [] (hd [] s)) →
     get3 et b i e = Some t → t = 0%Z) →
  ∃ h', build_adj_mat l et h
        = (Ok (identity_adj (length s) (length (hd [] s))), h').
Proof.
  intros Hs Hrect Het Hno.
  destruct (build_adj_mat_ok l et h s Hs Hrect Het) as (s' & X & _ & _ & Hrun).
  { intros b i e d t He _ Ht Hne. destruct Hne. eauto. }
  destruct (build_adj_mat_entries _ _ _ _ _ _ Hs Hrun) as (_ & _ & Hsh & Hget).
  eexists. rewrite Hrun. do 2 f_equal.
  apply (adj_ext (length s) (length (hd [] s))); [done|apply identity_adj_shape|].
  intros b i j Hb Hi Hj. rewrite Hget, identity_adj_get by done.
  unfold adj_spec. rewrite !spec_marked_no_edges by eauto.
  f_equal. destruct (bool_decide (i = j)) eqn:Hij; [done|]. simpl.
  apply bool_decide_eq_false. apply bool_decide_eq_false in Hij. congruence.
Qed.

(** X5.  A real edge is entered in both directions: when slot [e] of node
    [i], not the last slot, has a non-zero edge type and its [s_next] entry
    denotes node [j] (negative entries counting from the end), the matrix
    holds True at [(i, j)] and at [(j, i)]. *)
Theorem build_adj_mat_edge_both_directions l et
    (h h' : gmap nat (list (list (list Q)))) s A b i e d t j :
  h !! l = Some s → build_adj_mat l et h = (Ok A, h') →
  e + 1 < length (hd [] (hd [] s)) →
  get3 s b i e = Some d → get3 et b i e = Some t → t ≠ 0%Z →
  norm_index (length (hd [] s)) (long d) = Ok j →
  get3 A b i j = Some true ∧ get3 A b j i = Some true.
Proof.
  intros Hs Hrun He Hd Ht Hne Hj.
  destruct (build_adj_mat_entries _ _ _ _ _ _ Hs Hrun)
    as (Hrect & _ & _ & Hget).
  assert (is_Some (get3 s b i e)) as Hin by eauto.
  apply (shape3_get3 _ _ _ _ _ _ _ Hrect) in Hin as (Hb & Hi & _).
  pose proof (norm_index_lt _ _ _ Hj) as Hjlt.
  assert (spec_marked s et b i j = true) as Hm.
  { unfold spec_marked. apply orb_true_iff. right.
    apply existsb_exists. exists e. split; [apply in_seq; lia|].
    unfold spec_dest, corrected_dest. rewrite Hd, Ht. simpl.
    rewrite decide_False by done. rewrite Hj. by apply bool_decide_eq_true. }
  rewrite !Hget by done. unfold adj_spec. rewrite Hm.
  split; [done|]. by rewrite orb_true_r.
Qed.

(** X6.  The last edge slot is never read for the matrix: two calls on
    tensors of one rectangular shape that agree on every slot but the last
    return the same matrix, or raise the same exception. *)
Theorem build_adj_mat_ignores_last_slot l1 l2 et1 et2
    (h1 h2 : gmap nat (list (list (list Q)))) s1 s2 :
  h1 !! l1 = Some s1 → h2 !! l2 = Some s2 →
  rect3 s1 → shape3 s2 = shape3 s1 →
  shape3 et1 = shape3 s1 → shape3 et2 = shape3 s1 →
  (∀ b i e, e + 1 < length (hd [] (hd [] s1)) →
     get3 s1 b i e = get3 s2 b i e ∧ get3 et1 b i e = get3 et2 b i e) →
  (build_adj_mat l1 et1 h1).1 = (build_adj_mat l2 et2 h2).1.
Proof.
  intros Hs1 Hs2 Hrect Hsh Het1 Het2 Hagree.
  destruct (shape3_dims _ _ Hsh) as (HB & HN & HE).
  rewrite !build_adj_mat_run, Hs1, Hs2. simpl. rewrite HB, HN, HE.
  set (B := length s1). set (N := length (hd [] s1)).
  set (E := length (hd [] (hd [] s1))).
  destruct (masked_assign_ok s1 (no_edge et1) (dummy_vals B N E)) as [s1' H1].
  { unfold no_edge. by rewrite shape3_fmap. }
  { by rewrite dummy_vals_shape. }
  destruct (masked_assign_ok s2 (no_edge et2) (dummy_vals B N E)) as [s2' H2].
  { unfold no_edge. by rewrite shape3_fmap, Het2, Hsh. }
  { rewrite dummy_vals_shape, Hsh. symmetry. exact Hrect. }
  rewrite H1, H2.
  destruct (masked_assign_dummy _ _ _ H1) as (_ & _ & Hsh1 & Hget1).
  pose proof H2 as H2'. unfold B, N, E in H2'. rewrite <- HB, <- HN, <- HE in H2'.
  destruct (masked_assign_dummy _ _ _ H2') as (_ & _ & Hsh2 & Hget2).
  rewrite Hsh in Hsh2. rewrite Hrect in Hsh1, Hsh2. fold B N E in Hsh1, Hsh2.
  assert (drop_last_slot s1' = drop_last_slot s2') as ->.
  { apply shape3_ext.
    - by rewrite (shape3_drop_last _ _ _ _ Hsh1), (shape3_drop_last _ _ _ _ Hsh2).
    - intros b i e.
      rewrite (get3_drop_last _ _ _ _ _ _ _ Hsh1),
        (get3_drop_last _ _ _ _ _ _ _ Hsh2).
      case_decide; [|done]. rewrite Hget1, Hget2. unfold corrected_dest.
      destruct (Hagree b i e) as [-> ->]; done. }
  by destruct (index_put_true _ _ _ _ _).
Qed.

(** X7.  The exception comes after the write: when a real edge outside the
    last slot points outside the node axis, [build_adj_mat] raises
    [IndexError], and [s_next] has already been overwritten with the
    dummy-corrected destinations. *)
Theorem build_adj_mat_raises_after_write l et
    (h : gmap nat (list (list (list Q)))) s b i e d t :
  h !! l = Some s → rect3 s → shape3 et = shape3 s →
  e + 1 < length (hd [] (hd [] s)) →
  get3 s b i e = Some d → get3 et b i e = Some t → t ≠ 0%Z →
  ¬ (- Z.of_nat (length (hd [] s)) ≤ long d < Z.of_nat (length (hd [] s)))%Z →
  ∃ s', build_adj_mat l et h = (Raise IndexError, <[l := s']> h) ∧
        shape3 s' = shape3 s ∧
        ∀ b i e, get3 s' b i e = corrected_dest s et b i e.
Proof.
  intros Hs Hrect Het He Hd Ht Hne Hout.
  set (B := length s) in *. set (N := length (hd [] s)) in *.
  set (E := length (hd [] (hd [] s))) in *.
  destruct (masked_assign_ok s (no_edge et) (dummy_vals B N E)) as [s' Hs'].
  { unfold no_edge. by rewrite shape3_fmap. }
  { by rewrite dummy_vals_shape. }
  destruct (masked_assign_dummy _ _ _ Hs') as (_ & _ & Hsh' & Hget').
  exists s'. split; [|done].
  rewrite build_adj_mat_run, Hs. simpl. fold B N E. rewrite Hs'.
  pose proof Hsh' as Hsh''. rewrite Hrect in Hsh''. fold B N E in Hsh''.
  assert (is_Some (get3 s b i e)) as Hin by eauto.
  apply (shape3_get3 _ _ _ _ _ _ _ Hrect) in Hin as (Hb & Hi & _).
  fold B N in Hb, Hi.
  destruct (index_put_true _ _ _ _ _) as [X|e0] eqn:HX.
  - exfalso. unfold index_put_true in HX.
    destruct (rfold_put_true_norm _ _ _ _ _ (identity_adj_shape B N) HX
                (Z.of_nat b, Z.of_nat i, long d)) as [p Hp].
    { apply (adj_triples_elem s et s' _ Hsh'' Hget').
      exists b, i, e. repeat split; try done.
      unfold spec_dest, corrected_dest. rewrite Hd, Ht. simpl.
      by rewrite decide_False. }
    unfold norm_triple in Hp. simpl in Hp.
    rewrite !norm_index_of_nat in Hp by done. simpl in Hp.
    unfold norm_index in Hp. repeat case_decide; simpl in Hp; try done; lia.
  - unfold index_put_true in HX. apply rfold_put_true_raise in HX. by subst.
Qed.

End AdjacencyFacts.

(** * Further properties of [variable_size_gru_encode] and the node masks *)

Section EncodeFacts.

Import PGPEncoder.

(** A loop that raises stopped at an element that raises. *)
Lemma rmap_raise_inv {A B} (f : A → result B) l e :
  rmap f l = Raise e → ∃ x, x ∈ l ∧ f x = Raise e.
Proof.
  induction l as [|x0 l IH]; simpl; [done|].
  destruct (f x0) as [y|e1] eqn:H0; simpl.
  - destruct (rmap f l); simpl; [done|]. intros [= <-].
    destruct (IH eq_refl) as (x & Hx & Hfx). exists x. split; [|done].
    apply elem_of_cons. by right.
  - intros [= <-]. exists x0. split; [apply elem_of_cons; by left|done].
Qed.

(** A loop raises when an element does; the exception is the common one,
    when all elements raise the same. *)
Lemma rmap_raise {A B} (f : A → result B) e0 l x :
  (∀ y e, y ∈ l → f y = Raise e → e = e0) →
  x ∈ l → (∃ e, f x = Raise e) → rmap f l = Raise e0.
Proof.
  intros Hall Hx [e He].
  destruct (rmap f l) as [ys|e1] eqn:Hr.
  - apply rmap_Ok in Hr. apply list_elem_of_lookup in Hx as [i Hi].
    destruct (Forall2_lookup_l _ _ _ _ _ Hr Hi) as (y & _ & Hy). congruence.
  - apply rmap_raise_inv in Hr as (y & Hy & Hfy). f_equal. eauto.
Qed.

Lemma head0_raise row e : head0 row = Raise e → e = IndexError.
Proof. destruct row; simpl; congruence. Qed.

Lemma col0_empty_row masks :
  [] ∈ concat (concat masks) → col0 masks = Raise IndexError.
Proof.
  intros Hin. apply elem_of_concat in Hin as (steps & Hsteps & Hrow).
  apply elem_of_concat in Hsteps as (m & Hm & Hsteps).
  unfold col0.
  assert (∀ l e, rmap head0 l = Raise e → e = IndexError) as H1.
  { intros l e (x & _ & Hx)%rmap_raise_inv. by eapply head0_raise. }
  assert (∀ l e, rmap (rmap head0) l = Raise e → e = IndexError) as H2.
  { intros l e (x & _ & Hx)%rmap_raise_inv. eauto. }
  apply (rmap_raise _ _ _ m); [eauto|done|].
  exists IndexError. apply (rmap_raise _ _ _ steps); [eauto|done|].
  exists IndexError. apply (rmap_raise _ _ _ []); [|done|by exists IndexError].
  intros y e _. apply head0_raise.
Qed.

(** When the slice [masks[:, :, :, 0]] exists, it holds the heads of the
    rows, and the entity-level mask computed from it is [entity_mask]. *)
Lemma col0_Ok masks m0 :
  col0 masks = Ok m0 →
  m0 = map (map (map (hd 0%Q))) masks ∧
  map (map (fun steps => existsb (fun m => negb (to_bool m)) steps)) m0
  = entity_mask masks.
Proof.
  unfold col0. intros H.
  assert (∀ steps r, rmap head0 steps = Ok r →
            r = map (hd 0%Q) steps ∧
            existsb (fun m => negb (to_bool m)) r = entity_valid steps) as H1.
  { induction steps as [|row steps IH]; simpl; intros r Hr.
    { by injection Hr as <-. }
    destruct row as [|x row]; [done|]. simpl in Hr.
    destruct (rmap head0 steps) as [r'|]; [|done]. injection Hr as <-.
    destruct (IH r' eq_refl) as [-> IH2]. split; [done|].
    simpl. rewrite IH2. unfold to_bool. by rewrite negb_involutive. }
  revert m0 H. induction masks as [|m masks IH]; simpl; intros m0 H.
  { by injection H as <-. }
  destruct (rmap (rmap head0) m) as [y|] eqn:Hy; [|done]. simpl in H.
  destruct (rmap (rmap (rmap head0)) masks) as [ys|]; [|done].
  injection H as <-. destruct (IH ys eq_refl) as [-> IH2].
  simpl. unfold entity_mask in *. simpl. rewrite IH2.
  assert (y = map (map (hd 0%Q)) m ∧
          map (fun steps => existsb (fun m => negb (to_bool m)) steps) y
          = map entity_valid m) as [-> ->]; [|done].
  clear -Hy H1. revert y Hy. induction m as [|steps m IHm]; simpl; intros y Hy.
  { by injection Hy as <-. }
  destruct (rmap head0 steps) as [r|] eqn:Hr; [|done]. simpl in Hy.
  destruct (rmap (rmap head0) m) as [rs|]; [|done]. injection Hy as <-.
  destruct (H1 _ _ Hr) as [-> Hv]. destruct (IHm rs eq_refl) as [-> IH2].
  simpl. by rewrite Hv, IH2.
Qed.

Lemma compact_row_ext {A} (r1 r2 : list A) vs :
  length r1 = length vs → length r2 = length vs →
  (∀ e, vs !! e = Some true → r1 !! e = r2 !! e) →
  map fst (List.filter snd (zip r1 vs)) = map fst (List.filter snd (zip r2 vs)).
Proof.
  revert r1 r2. induction vs as [|v vs IH]; intros r1 r2 H1 H2 Hag.
  { destruct r1, r2; done. }
  destruct r1 as [|x1 r1], r2 as [|x2 r2]; try done. simpl.
  assert (map fst (List.filter snd (zip r1 vs))
          = map fst (List.filter snd (zip r2 vs))) as IH'.
  { apply IH; [simpl in *; lia..|]. intros e He. apply (Hag (S e) He). }
  destruct v; simpl; [|done].
  specialize (Hag 0 eq_refl). simpl in Hag. injection Hag as ->.
  by rewrite IH'.
Qed.

Lemma compact_ext {A} (t1 t2 : list (list A)) V :
  shape2 t1 = shape2 V → shape2 t2 = shape2 V →
  (∀ b e vs, V !! b = Some vs → vs !! e = Some true →
     get2 t1 b e = get2 t2 b e) →
  compact t1 V = compact t2 V.
Proof.
  revert t1 t2. induction V as [|vs V IH]; intros t1 t2 H1 H2 Hag.
  { destruct t1, t2; done. }
  destruct t1 as [|r1 t1], t2 as [|r2 t2]; try done.
  injection H1 as Hr1 H1. injection H2 as Hr2 H2.
  rewrite !compact_cons. f_equal.
  - apply compact_row_ext; [done..|]. intros e He. apply (Hag 0 e vs eq_refl He).
  - apply IH; [done..|]. intros b e vs' Hb He. apply (Hag (S b) e vs' Hb He).
Qed.

Lemma shape2_hd {A B} (t : list (list A)) (u : list (list B)) :
  shape2 t = shape2 u →
  length t = length u ∧ length (hd [] t) = length (hd [] u).
Proof.
  intros H. split.
  - apply (f_equal length) in H. unfold shape2 in H. by rewrite !length_map in H.
  - destruct t, u; try done. by injection H.
Qed.

Lemma shape3_shape2 {A B} (t : list (list (list A))) (u : list (list (list B))) :
  shape3 t = shape3 u → shape2 t = shape2 u.
Proof.
  unfold shape3, shape2. intros H.
  apply (f_equal (map length)) in H.
  rewrite <- !list_fmap_compose in H.
  erewrite (list_fmap_ext _ length t), (list_fmap_ext _ length u) in H; [done|..];
    intros; simpl; by rewrite length_map.
Qed.

(** The two leading axes of the result are those of the mask. *)
Lemma vsge_shape2 feat masks gru enc B E :
  variable_size_gru_encode feat masks gru = Ok enc →
  shape2 feat = replicate B E → shape2 masks = replicate B E →
  shape2 enc = replicate B E.
Proof.
  intros Hrun Hf Hm. unfold variable_size_gru_encode in Hrun.
  destruct (col0 masks) as [m0|] eqn:H0; [|done]. simpl in Hrun.
  destruct (col0_Ok _ _ H0) as [_ HV]. rewrite HV in Hrun.
  destruct (masked_select2 _ _) as [fb|]; [|done]. simpl in Hrun.
  case_decide.
  - destruct (pack_padded_sequence _ _) as [p|]; [|done]. simpl in Hrun.
    destruct (gru_h_n _ _ _) as [eb|]; [|done]. simpl in Hrun.
    unfold masked_scatter3 in Hrun.
    destruct (scatter_axis _ _ _ _) as [[r rest]|] eqn:Hsc; [|done].
    injection Hrun as <-.
    apply scatter2_shape in Hsc; [|by rewrite shape3_fmap].
    rewrite shape3_fmap in Hsc. apply shape3_shape2 in Hsc.
    rewrite Hsc. unfold shape2. rewrite <- list_fmap_compose.
    erewrite list_fmap_ext; [|intros; simpl; by rewrite length_map].
    rewrite <- Hm. apply entity_mask_shape.
  - injection Hrun as <-. rewrite (replicate_dims _ _ _ _ Hf).
    unfold shape2. rewrite fmap_replicate. by rewrite length_replicate.
Qed.

(** X8.  A mask tensor whose last axis is empty: the slice at feature
    index 0 raises [IndexError], in the encoding of the entities and in the
    node masks alike. *)
Theorem variable_size_gru_encode_empty_mask_axis feat masks gru :
  [] ∈ concat (concat masks) →
  variable_size_gru_encode feat masks gru = Raise IndexError ∧
  node_masks masks = Raise IndexError.
Proof.
  intros Hin. apply col0_empty_row in Hin.
  unfold variable_size_gru_encode, node_masks. by rewrite Hin.
Qed.

(** X9.  The features of padded entities are never read: two feature
    tensors of one shape [batch, entities, T, F], with at least one time step
    and one feature, that agree on every entity with a valid time step have
    the same encoding (or raise the same exception), for a mask with the
    batch and entity axes of the features. *)
Theorem variable_size_gru_encode_ignores_padding feat1 feat2 masks gru
    B E T F :
  shape4 feat1 = replicate B (replicate E (replicate T F)) →
  shape4 feat2 = replicate B (replicate E (replicate T F)) →
  shape2 masks = replicate B E →
  0 < T → 0 < F →
  (∀ b e steps, get2 masks b e = Some steps → entity_valid steps = true →
     get2 feat1 b e = get2 feat2 b e) →
  variable_size_gru_encode feat1 masks gru
  = variable_size_gru_encode feat2 masks gru.
Proof.
  intros Hf1 Hf2 Hm _ _ Hag.
  assert (shape2 feat1 = shape2 masks) as H1
    by (rewrite Hm; by eapply shape4_shape2).
  assert (shape2 feat2 = shape2 masks) as H2
    by (rewrite Hm; by eapply shape4_shape2).
  unfold variable_size_gru_encode.
  destruct (col0 masks) as [m0|] eqn:H0; [|done]. simpl.
  destruct (col0_Ok _ _ H0) as [_ HV]. rewrite HV.
  rewrite !masked_select2_compact by (by rewrite entity_mask_shape).
  simpl.
  assert (compact feat1 (entity_mask masks) = compact feat2 (entity_mask masks))
    as ->.
  { apply compact_ext; [by rewrite entity_mask_shape..|].
    intros b e vs Hb He.
    pose proof (entity_mask_get masks b e) as Hg. rewrite Hb in Hg. simpl in Hg.
    rewrite He in Hg. destruct (get2 masks b e) as [steps|] eqn:Hs; [|done].
    injection Hg as Hg. eauto. }
  destruct (shape2_hd feat1 feat2) as [-> ->]; [congruence|]. done.
Qed.

Lemma node_masks_Ok masks nm :
  node_masks masks = Ok nm →
  nm = map (map (fun steps => of_bool (negb (entity_valid steps)))) masks ∧
  forallb (forallb node_binary) nm = true.
Proof.
  unfold node_masks. intros H.
  destruct (col0 masks) as [m0|] eqn:H0; [|done]. simpl in H.
  injection H as <-. destruct (col0_Ok _ _ H0) as [_ HV].
  assert (map (map (existsb (fun b : bool => b)))
            (map (map (map (fun m => negb (to_bool m)))) m0)
          = entity_mask masks) as ->.
  { rewrite <- HV. rewrite <- list_fmap_compose. apply list_fmap_ext.
    intros _ m _. simpl. rewrite <- list_fmap_compose. apply list_fmap_ext.
    intros _ steps _. simpl. by rewrite existsb_fmap. }
  unfold entity_mask. split.
  - rewrite <- list_fmap_compose. apply list_fmap_ext. intros _ m _. simpl.
    by rewrite <- list_fmap_compose.
  - apply forallb_forall. intros r Hr. apply forallb_forall. intros q Hq.
    apply in_map_iff in Hr as (bs & <- & _).
    apply in_map_iff in Hq as (b & <- & _). by destruct (negb b).
Qed.

(** X10.  The node-level mask: when the slice at feature index 0 exists,
    the mask has one entry per node, 1 for a node without valid pose and 0
    for a node with one, so every entry is 0 or 1; it exists whenever every
    mask row has an entry. *)
Theorem node_masks_spec masks :
  Forall (Forall (Forall (fun row => row ≠ []))) masks →
  ∃ nm, node_masks masks = Ok nm ∧
    nm = map (map (fun steps => of_bool (negb (entity_valid steps)))) masks ∧
    forallb (forallb node_binary) nm = true.
Proof.
  intros Hne.
  assert (col0 masks = Ok (map (map (map (hd 0%Q))) masks)) as H0.
  { unfold col0. apply rmap_total. eapply Forall_impl; [exact Hne|].
    intros m Hm. apply rmap_total. eapply Forall_impl; [exact Hm|].
    intros steps Hs. apply rmap_total. eapply Forall_impl; [exact Hs|].
    intros row Hrow. by destruct row. }
  destruct (node_masks masks) as [nm|e] eqn:Hnm.
  - exists nm. split; [done|]. by apply node_masks_Ok.
  - unfold node_masks in Hnm. by rewrite H0 in Hnm.
Qed.

End EncodeFacts.

(** * Further properties of [PGPEncoder.forward] *)

Section ForwardFacts.

Import PGPEncoder.

Lemma getitem_Ok (d : gmap string pyobj) k v :
  getitem d k = Ok v → d !! k = Some v.
Proof. unfold getitem. destruct (d !! k); congruence. Qed.

Lemma getitem_dict (d : gmap string pyobj) k x :
  getitem d k ≫= as_dict = Ok x → d !! k = Some (PDict x).
Proof.
  unfold getitem. destruct (d !! k) as [[]|]; simpl; congruence.
Qed.

Lemma getitem_float2 (d : gmap string pyobj) k x :
  getitem d k ≫= as_float2 = Ok x → d !! k = Some (PFloat2 x).
Proof.
  unfold getitem. destruct (d !! k) as [[]|]; simpl; congruence.
Qed.

Lemma getitem_float3 (d : gmap string pyobj) k x :
  getitem d k ≫= as_float3 = Ok x → d !! k = Some (PFloat3 x).
Proof.
  unfold getitem. destruct (d !! k) as [[]|]; simpl; congruence.
Qed.

Lemma getitem_float4 (d : gmap string pyobj) k x :
  getitem d k ≫= as_float4 = Ok x → d !! k = Some (PFloat4 x).
Proof.
  unfold getitem. destruct (d !! k) as [[]|]; simpl; congruence.
Qed.

Lemma getitem_int3 (d : gmap string pyobj) k x :
  getitem d k ≫= as_int3 = Ok x → d !! k = Some (PInt3 x).
Proof.
  unfold getitem. destruct (d !! k) as [[]|]; simpl; congruence.
Qed.

Lemma getitem_ref (d : gmap string pyobj) k x :
  getitem d k ≫= as_ref = Ok x → d !! k = Some (PRef x).
Proof.
  unfold getitem. destruct (d !! k) as [[]|]; simpl; congruence.
Qed.

(** The residual GAT layers keep the shape of the node encodings. *)
Lemma gat_layers_shape layers adj : ∀ enc enc',
  gat_layers layers adj enc = Ok enc' → shape3 enc' = shape3 enc.
Proof.
  unfold gat_layers. induction layers as [|g layers IH]; intros enc enc' H.
  { simpl in H. by injection H as <-. }
  simpl in H. destruct (GAT.forward g enc adj) as [upd|]; [|done].
  simpl in H. destruct (add3 enc upd) as [e1|] eqn:Ha; [|done]. simpl in H.
  rewrite (IH _ _ H). unfold add3 in Ha. case_decide as Hsh; [|done].
  injection Ha as <-. by apply shape3_zip_with.
Qed.

Lemma cat_dim2_shape {A} (a b c : list (list (list A))) :
  cat_dim2 a b = Ok c → shape2 c = shape2 a.
Proof.
  unfold cat_dim2. case_decide as Hsh; [|done]. intros [= <-].
  unfold shape2 in *. apply map_length_Forall2 in Hsh.
  induction Hsh as [|x y a b Hxy _ IH]; simpl; [done|].
  rewrite IH. f_equal. rewrite length_zip_with. lia.
Qed.

Tactic Notation "step" hyp(H) "as" ident(x) ident(E) :=
  rewrite ST_bind_lift in H;
  match type of H with
  | match ?r with Ok _ => _ | Raise _ => _ end = _ =>
      destruct r as [x|] eqn:E; [|discriminate H]
  end.

(** What a returning call of [forward] has done. *)
Lemma forward_Ok self (inputs : gmap string pyobj)
    (h h' : gmap nat (list (list (list Q)))) enc :
  forward self inputs h = (Ok enc, h') →
  ∃ i ta lane att mixed menc A combined nm,
    reads_inputs inputs i ∧
    encode_lane_nodes self (in_lane_feats i) (in_lane_masks i) = Ok lane ∧
    cat_dim2 lane att = Ok mixed ∧
    rmap (rmap (linear_act (mix self))) mixed = Ok menc ∧
    build_adj_mat (in_s_next i) (in_edge_type i) h = (Ok A, h') ∧
    gat_layers (gat self) A menc = Ok combined ∧
    node_masks (in_lane_masks i) = Ok nm ∧
    if contains inputs "init_node" then
      ∃ init gt,
        inputs !! "init_node" = Some init ∧
        inputs !! "node_seq_gt" = Some gt ∧
        enc = <["edge_type" := PInt3 (in_edge_type i)]>
                (<["s_next" := PRef (in_s_next i)]>
                   (<["node_seq_gt" := gt]>
                      (<["init_node" := init]>
                         (encoder_output ta combined nm))))
    else enc = encoder_output ta combined nm.
Proof.
  intros H. unfold forward in H.
  step H as ta_feats E1. apply getitem_float3 in E1.
  step H as ta_emb E2. step H as ta E3.
  step H as map_rep E4. apply getitem_dict in E4.
  step H as feats E5. apply getitem_float4 in E5.
  step H as masks E6. apply getitem_float4 in E6.
  step H as lane E7.
  step H as sur E8. apply getitem_dict in E8.
  step H as vf E9. apply getitem_float4 in E9.
  step H as vm E10. apply getitem_float4 in E10.
  step H as venc E11.
  step H as pf E12. apply getitem_float4 in E12.
  step H as pm E13. apply getitem_float4 in E13.
  step H as penc E14.
  step H as nbr E15. step H as queries E16. step H as keys E17.
  step H as vals E18.
  step H as anm E19. apply getitem_dict in E19.
  step H as anv E20. apply getitem_float3 in E20.
  step H as anp E21. apply getitem_float3 in E21.
  step H as attn E22. step H as att E23. step H as mixed E24.
  step H as menc E25.
  step H as l E26. apply getitem_ref in E26.
  step H as et E27. apply getitem_int3 in E27.
  rewrite ST_bind_run in H.
  destruct (build_adj_mat l et h) as [[A|e] h1] eqn:HA; [|discriminate].
  step H as combined E28. step H as nm E29.
  exists {| in_target := ta_feats; in_map := map_rep; in_lane_feats := feats;
            in_lane_masks := masks; in_surrounding := sur; in_vehicles := vf;
            in_vehicle_masks := vm; in_pedestrians := pf;
            in_pedestrian_masks := pm; in_agent_node := anm;
            in_an_vehicles := anv; in_an_pedestrians := anp;
            in_s_next := l; in_edge_type := et |},
    ta, lane, (transpose att), mixed, menc, A, combined, nm.
  unfold reads_inputs. simpl.
  destruct (contains inputs "init_node") eqn:Hinit.
  - step H as init E30. apply getitem_Ok in E30.
    step H as gt E31. apply getitem_Ok in E31.
    step H as sn E32. apply getitem_Ok in E32.
    step H as ety E33. apply getitem_Ok in E33.
    unfold mret, ST_ret in H. injection H as <- <-.
    rewrite E26 in E32. rewrite E27 in E33. simplify_eq.
    repeat (split; [done|]). eauto.
  - unfold mret, ST_ret in H. injection H as <- <-.
    repeat (split; [done|]). done.
Qed.

Tactic Notation "stepr" hyp(H) "as" ident(x) ident(E) "or" tactic(tac) :=
  rewrite ST_bind_lift in H;
  match type of H with
  | match ?r with Ok _ => _ | Raise _ => _ end = _ =>
      destruct r as [x|] eqn:E; [|injection H as <- <-; tac]
  end.

(** The store after [forward], whatever the outcome: untouched, or as the
    call of [build_adj_mat] on the inputs' [s_next] left it. *)
Lemma forward_store self (inputs : gmap string pyobj)
    (h h' : gmap nat (list (list (list Q)))) r :
  forward self inputs h = (r, h') →
  h' = h ∨
  ∃ i r0, reads_inputs inputs i ∧
          build_adj_mat (in_s_next i) (in_edge_type i) h = (r0, h').
Proof.
  intros H. unfold forward in H.
  stepr H as ta_feats E1 or (by left). apply getitem_float3 in E1.
  stepr H as ta_emb E2 or (by left). stepr H as ta E3 or (by left).
  stepr H as map_rep E4 or (by left). apply getitem_dict in E4.
  stepr H as feats E5 or (by left). apply getitem_float4 in E5.
  stepr H as masks E6 or (by left). apply getitem_float4 in E6.
  stepr H as lane E7 or (by left).
  stepr H as sur E8 or (by left). apply getitem_dict in E8.
  stepr H as vf E9 or (by left). apply getitem_float4 in E9.
  stepr H as vm E10 or (by left). apply getitem_float4 in E10.
  stepr H as venc E11 or (by left).
  stepr H as pf E12 or (by left). apply getitem_float4 in E12.
  stepr H as pm E13 or (by left). apply getitem_float4 in E13.
  stepr H as penc E14 or (by left).
  stepr H as nbr E15 or (by left). stepr H as queries E16 or (by left).
  stepr H as keys E17 or (by left). stepr H as vals E18 or (by left).
  stepr H as anm E19 or (by left). apply getitem_dict in E19.
  stepr H as anv E20 or (by left). apply getitem_float3 in E20.
  stepr H as anp E21 or (by left). apply getitem_float3 in E21.
  stepr H as attn E22 or (by left). stepr H as att E23 or (by left).
  stepr H as mixed E24 or (by left). stepr H as menc E25 or (by left).
  stepr H as l E26 or (by left). apply getitem_ref in E26.
  stepr H as et E27 or (by left). apply getitem_int3 in E27.
  right.
  exists {| in_target := ta_feats; in_map := map_rep; in_lane_feats := feats;
            in_lane_masks := masks; in_surrounding := sur; in_vehicles := vf;
            in_vehicle_masks := vm; in_pedestrians := pf;
            in_pedestrian_masks := pm; in_agent_node := anm;
            in_an_vehicles := anv; in_an_pedestrians := anp;
            in_s_next := l; in_edge_type := et |}.
  unfold reads_inputs. simpl.
  rewrite ST_bind_run in H.
  destruct (build_adj_mat l et h) as [[A|e] h1] eqn:HA.
  2:{ injection H as <- <-. exists (Raise e). by repeat (split; [done|]). }
  exists (Ok A).
  assert (h' = h1) as ->; [|by repeat (split; [done|])].
  stepr H as combined E28 or done. stepr H as nm E29 or done.
  destruct (contains inputs "init_node").
  - stepr H as init E30 or done. stepr H as gt E31 or done.
    stepr H as sn E32 or done. stepr H as ety E33 or done.
    unfold mret, ST_ret in H. by injection H.
  - unfold mret, ST_ret in H. by injection H.
Qed.

(** X11.  The keys that a returning call has found: the target-agent
    representation and the three dictionaries of the inputs, and in them
    every key that [forward] looks up, among which s_next and edge_type of the
    map representation, which the interface lists as optional. *)
Theorem forward_requires_inputs self (inputs : gmap string pyobj)
    (h h' : gmap nat (list (list (list Q)))) enc :
  forward self inputs h = (Ok enc, h') →
  ∃ map_rep surrounding agent_node : gmap string pyobj,
    is_Some (inputs !! "target_agent_representation") ∧
    inputs !! "map_representation" = Some (PDict map_rep) ∧
    inputs !! "surrounding_agent_representation" = Some (PDict surrounding) ∧
    inputs !! "agent_node_masks" = Some (PDict agent_node) ∧
    Forall (fun k => is_Some (map_rep !! k))
      ["lane_node_feats"; "lane_node_masks"; "s_next"; "edge_type"] ∧
    Forall (fun k => is_Some (surrounding !! k))
      ["vehicles"; "vehicle_masks"; "pedestrians"; "pedestrian_masks"] ∧
    Forall (fun k => is_Some (agent_node !! k)) ["vehicles"; "pedestrians"].
Proof.
  intros H. apply forward_Ok in H as (i & ? & ? & ? & ? & ? & ? & ? & ? & Hi & _).
  destruct Hi as (Hta & Hmap & Hlf & Hlm & Hsur & Hv & Hvm & Hp & Hpm & Han
                  & Hanv & Hanp & Hs & Het).
  exists (in_map i), (in_surrounding i), (in_agent_node i).
  split; [by eexists|]. do 3 (split; [done|]).
  split; [|split]; repeat constructor; by eexists.
Qed.

(** X12.  Without the key s_next in the map representation, [forward]
    raises, and the store is as before the call. *)
Theorem forward_missing_s_next self (inputs map_rep : gmap string pyobj)
    (h : gmap nat (list (list (list Q)))) :
  inputs !! "map_representation" = Some (PDict map_rep) →
  map_rep !! "s_next" = None →
  ∃ e, forward self inputs h = (Raise e, h).
Proof.
  intros Hmap Hno.
  assert (∀ i, ¬ reads_inputs inputs i) as Hnot.
  { intros i (_ & Hm & H). rewrite Hmap in Hm. injection Hm as Hm.
    destruct H as (_ & _ & _ & _ & _ & _ & _ & _ & _ & _ & Hs & _).
    rewrite <- Hm in Hs. congruence. }
  destruct (forward self inputs h) as [[enc|e] h'] eqn:H.
  - apply forward_Ok in H
      as (i & ? & ? & ? & ? & ? & ? & ? & ? & Hi%Hnot & _). done.
  - exists e. f_equal. apply forward_store in H as [->|(i & ? & Hi%Hnot & _)]; done.
Qed.

(** X13.  With the key init_node but without node_seq_gt among the
    inputs, [forward] never returns encodings. *)
Theorem forward_init_node_needs_ground_truth self (inputs : gmap string pyobj)
    (h h' : gmap nat (list (list (list Q)))) r :
  contains inputs "init_node" = true → inputs !! "node_seq_gt" = None →
  forward self inputs h = (r, h') → ∃ e, r = Raise e.
Proof.
  intros Hinit Hno H. destruct r as [enc|e]; [|eauto].
  apply forward_Ok in H as (i & ? & ? & ? & ? & ? & ? & ? & ? & _ & _ & _ & _
                              & _ & _ & _ & Henc).
  rewrite Hinit in Henc. destruct Henc as (? & ? & _ & Hgt & _). congruence.
Qed.

(** X14.  The returned encodings hold the target-agent encoding and the
    context encoding.  With the key init_node they also pass on the inputs'
    init_node and node_seq_gt and the map representation's edge_type as they
    came in; without it, they hold the two encodings and nothing else. *)
Theorem forward_passes_on self (inputs map_rep : gmap string pyobj)
    (h h' : gmap nat (list (list (list Q)))) enc :
  inputs !! "map_representation" = Some (PDict map_rep) →
  forward self inputs h = (Ok enc, h') →
  (∃ ta ctx, enc !! "target_agent_encoding" = Some (PFloat2 ta) ∧
             enc !! "context_encoding" = Some (PDict ctx)) ∧
  if contains inputs "init_node" then
    enc !! "init_node" = inputs !! "init_node" ∧
    enc !! "node_seq_gt" = inputs !! "node_seq_gt" ∧
    enc !! "edge_type" = map_rep !! "edge_type"
  else
    ∀ k, k ≠ "target_agent_encoding" → k ≠ "context_encoding" →
         enc !! k = None.
Proof.
  intros Hmap H.
  apply forward_Ok in H as (i & ta & ? & ? & ? & ? & ? & combined & nm & Hi & _
                              & _ & _ & _ & _ & _ & Henc).
  destruct Hi as (_ & Hm & _ & _ & _ & _ & _ & _ & _ & _ & _ & _ & _ & Het).
  rewrite Hmap in Hm. injection Hm as ->.
  destruct (contains inputs "init_node").
  - destruct Henc as (init & gt & Hinit & Hgt & ->).
    rewrite Hinit, Hgt, Het.
    split; [|split; [|split]].
    + eexists ta, _. by rewrite !lookup_insert_ne by done.
    + by rewrite !lookup_insert_ne, lookup_insert_eq by done.
    + by rewrite !lookup_insert_ne, lookup_insert_eq by done.
    + by rewrite lookup_insert_eq.
  - subst enc. split.
    + by eexists ta, _.
    + intros k H1 H2. unfold encoder_output.
      rewrite lookup_insert_ne by done. by rewrite lookup_singleton_ne.
Qed.

(** X15.  The store after [forward] differs from the store before at
    most at the address of the inputs' s_next, whatever is returned or
    raised. *)
Theorem forward_store_frame self (inputs : gmap string pyobj)
    (h h' : gmap nat (list (list (list Q)))) r l' :
  forward self inputs h = (r, h') →
  (∀ map_rep, inputs !! "map_representation" = Some (PDict map_rep) →
     map_rep !! "s_next" ≠ Some (PRef l')) →
  h' !! l' = h !! l'.
Proof.
  intros H Hl.
  apply forward_store in H as [->|(i & r0 & Hi & Hrun)]; [done|].
  apply (build_adj_mat_frame_gen _ _ _ _ _ _ Hrun).
  intros ->.
  destruct Hi as (_ & Hm & _ & _ & _ & _ & _ & _ & _ & _ & _ & _ & Hs & _).
  by apply (Hl _ Hm).
Qed.

Lemma encode_lane_nodes_shape self feats masks lane B N :
  encode_lane_nodes self feats masks = Ok lane →
  shape2 feats = replicate B N → shape2 masks = replicate B N →
  shape2 lane = replicate B N.
Proof.
  unfold encode_lane_nodes. intros H Hf Hm.
  destruct (rmap _ feats) as [emb|] eqn:He; [|done]. simpl in H.
  apply rmap_shape2 in He. eapply vsge_shape2; [done| |done]. congruence.
Qed.

(** X16.  What the encoder hands to the aggregator: for lane-node
    features and masks of one [batch, max_nodes] layout, the returned node
    encodings and node masks have that layout too, and every mask entry is
    0 or 1 (1 exactly for a node without valid pose), even when the key
    init_node adds the graph fields. *)
Theorem forward_output_layout self (inputs map_rep : gmap string pyobj)
    (h h' : gmap nat (list (list (list Q)))) enc feats masks B N :
  inputs !! "map_representation" = Some (PDict map_rep) →
  map_rep !! "lane_node_feats" = Some (PFloat4 feats) →
  map_rep !! "lane_node_masks" = Some (PFloat4 masks) →
  shape2 feats = replicate B N → shape2 masks = replicate B N →
  forward self inputs h = (Ok enc, h') →
  ∃ ta combined nm,
    enc !! "target_agent_encoding" = Some (PFloat2 ta) ∧
    enc !! "context_encoding"
      = encoder_output ta combined nm !! "context_encoding" ∧
    shape2 combined = replicate B N ∧
    nm = map (map (fun steps => of_bool (negb (entity_valid steps)))) masks ∧
    forallb (forallb node_binary) nm = true.
Proof.
  intros Hmap Hfeats Hmasks Hf Hm H.
  apply forward_Ok in H as (i & ta & lane & att & mixed & menc & A & combined
                              & nm & Hi & Hlane & Hcat & Hmix & _ & Hgat & Hnm
                              & Henc).
  destruct Hi as (_ & Hm' & Hf' & Hk' & _).
  rewrite Hmap in Hm'. injection Hm' as Hm'. rewrite <- Hm' in Hf', Hk'.
  rewrite Hfeats in Hf'. rewrite Hmasks in Hk'.
  injection Hf' as Hf'. injection Hk' as Hk'. rewrite <- Hf', <- Hk' in *.
  exists ta, combined, nm.
  assert (enc !! "target_agent_encoding" = Some (PFloat2 ta) ∧
          enc !! "context_encoding"
            = encoder_output ta combined nm !! "context_encoding") as [-> ->].
  { destruct (contains inputs "init_node").
    - destruct Henc as (init & gt & _ & _ & ->).
      by rewrite !lookup_insert_ne by done.
    - by subst enc. }
  split; [done|]. split; [done|].
  destruct (node_masks_Ok _ _ Hnm) as [Hnm1 Hnm2].
  split; [|done].
  apply gat_layers_shape, shape3_shape2 in Hgat. rewrite Hgat.
  apply rmap_shape2 in Hmix. rewrite Hmix.
  apply cat_dim2_shape in Hcat. rewrite Hcat.
  by eapply encode_lane_nodes_shape.
Qed.

(** X25.  The residual GAT layers keep the shape of the node encodings:
    whenever all layers return, the result has the shape of the encodings
    that went in. *)
Theorem gat_layers_keep_shape layers adj enc enc' :
  gat_layers layers adj enc = Ok enc' → shape3 enc' = shape3 enc.
Proof.
  unfold gat_layers. revert enc.
  induction layers as [|g layers IH]; intros enc Hrun; simpl in Hrun.
  { by injection Hrun as <-. }
  destruct (GAT.forward g enc adj) as [upd|]; [|done]. simpl in Hrun.
  destruct (add3 enc upd) as [enc1|] eqn:Hadd; [|done]. simpl in Hrun.
  transitivity (shape3 enc1); [by apply IH|].
  unfold add3 in Hadd. case_decide as Hsh; [|done].
  injection Hadd as <-. by apply shape3_zip_with.
Qed.

End ForwardFacts.

(** * Further properties of [compute_goal_probs] *)

Section GoalProbsFacts.

Import GoalConditioned.

Lemma get2_zip_with {A B C} (f : A → B → C) (a : list (list A))
    (b : list (list B)) i j :
  get2 (zip_with (zip_with f) a b) i j =
    x ← get2 a i j; y ← get2 b i j; Some (f x y).
Proof.
  unfold get2. rewrite lookup_zip_with.
  destruct (a !! i) as [ra|]; simpl; [|done].
  destruct (b !! i) as [rb|]; simpl.
  - rewrite lookup_zip_with. by destruct (ra !! j).
  - by destruct (ra !! j).
Qed.

Lemma get2_fmap {A B} (f : A → B) (t : list (list A)) i j :
  get2 (map (map f) t) i j = f <$> get2 t i j.
Proof.
  unfold get2. rewrite list_lookup_fmap. destruct (t !! i); simpl; [|done].
  by rewrite list_lookup_fmap.
Qed.

Lemma shape2_lookup {A B} (t : list (list A)) (u : list (list B)) i r :
  shape2 t = shape2 u → t !! i = Some r →
  ∃ r', u !! i = Some r' ∧ length r = length r'.
Proof.
  intros Hsh Hr.
  assert (shape2 t !! i = Some (length r)) as Hl
    by (unfold shape2; by rewrite list_lookup_fmap, Hr).
  rewrite Hsh in Hl. unfold shape2 in Hl. rewrite list_lookup_fmap in Hl.
  destruct (u !! i) as [r'|]; [|done]. injection Hl as Hl. eauto.
Qed.

(** The value of the scoring head is a single number. *)
Lemma goal_head_single self x y :
  goal_head self x = Ok y → ∃ v, y = [v].
Proof.
  unfold goal_head. intros H.
  destruct (linear_act _ x) as [h1|]; [|done]. simpl in H.
  destruct (linear_act _ h1) as [h2|]; [|done]. simpl in H.
  unfold linear, goal_op in H. simpl in H. case_decide; [|done].
  injection H as <-. eauto.
Qed.

(** The rows that the scoring head receives: the encoding of the target
    agent followed by the encoding of the node. *)
Lemma cat_target_nodes ta (ne : list (list (list Q))) enc b n :
  cat_dim2 (map (fun v => replicate (length (hd [] ne)) v) ta) ne = Ok enc →
  shape2 enc = shape2 ne ∧
  get2 enc b n = t ← ta !! b; row ← get2 ne b n; Some (t ++ row).
Proof.
  intros H. pose proof (cat_dim2_shape _ _ _ H) as Hsh.
  unfold cat_dim2 in H. case_decide as Hsh'; [|done]. injection H as <-.
  split; [congruence|]. rewrite get2_zip_with. unfold get2.
  rewrite list_lookup_fmap. destruct (ta !! b) as [t|] eqn:Ht; simpl; [|done].
  destruct (ne !! b) as [nodes|] eqn:Hb; simpl.
  2:{ by destruct (replicate _ t !! n). }
  destruct (nodes !! n) as [row|] eqn:Hrow; simpl.
  - assert (n < length (hd [] ne)) as Hn.
    { apply lookup_lt_Some in Hrow.
      assert (shape2 ne !! b = Some (length nodes)) as Hl
        by (unfold shape2; by rewrite list_lookup_fmap, Hb).
      rewrite <- Hsh' in Hl. unfold shape2 in Hl.
      rewrite !list_lookup_fmap, Ht in Hl. simpl in Hl.
      rewrite length_replicate in Hl. injection Hl as Hl. lia. }
    by rewrite lookup_replicate_2.
  - by destruct (replicate _ t !! n).
Qed.

(** The scores before masking: 0 at a masked node, the value of the head on
    the node's own row at a valid node. *)
Lemma compute_goal_probs_scores self ta ne nm glp :
  compute_goal_probs self ta ne nm = Ok glp →
  shape2 ne = shape2 nm →
  ∃ goal_ops,
    shape2 goal_ops = shape2 nm ∧
    glp = zip_with (fun ops masks => log_softmax (masked_scores ops masks))
            goal_ops nm ∧
    ∀ b n t row m,
      ta !! b = Some t → get2 ne b n = Some row → get2 nm b n = Some m →
      if Qeq_bool m 0 then
        ∃ v, goal_head self (t ++ row) = Ok [v] ∧ get2 goal_ops b n = Some v
      else get2 goal_ops b n = Some 0%Q.
Proof.
  intros Hrun Hsh.
  unfold compute_goal_probs in Hrun.
  destruct (cat_dim2 _ _) as [enc|] eqn:Hcat; simpl in Hrun; [|done].
  set (V := map (map (fun m => negb (to_bool m))) nm) in *.
  assert (shape2 enc = shape2 V) as HshV.
  { destruct (cat_target_nodes _ _ _ 0 0 Hcat) as [-> _]. rewrite Hsh.
    unfold V, shape2. rewrite <- list_fmap_compose. apply list_fmap_ext.
    intros; simpl; by rewrite length_map. }
  rewrite (masked_select2_compact _ _ HshV) in Hrun. simpl in Hrun.
  destruct (rmap _ (compact enc V)) as [ops_|] eqn:Hops; simpl in Hrun; [|done].
  pose proof (rmap_length _ _ _ Hops) as Hlen.
  rewrite (compact_length _ _ HshV) in Hlen.
  assert (Forall (fun r => length r = 1) ops_) as Hone.
  { apply rmap_Ok in Hops. clear -Hops.
    induction Hops as [|x y l l' Hxy _ IH]; constructor; [|done].
    by destruct (goal_head_single _ _ _ Hxy) as [v ->]. }
  change (map (map (fun b : bool => [b])) V)
    with (map (map (fun b : bool => replicate 1 b)) V) in Hrun.
  unfold masked_scatter3 in Hrun.
  pose proof (scatter_batches 1 V ops_ [] Hone Hlen) as Hsc.
  rewrite app_nil_r in Hsc. rewrite Hsc in Hrun. simpl in Hrun.
  injection Hrun as <-.
  eexists. split; [|split; [reflexivity|]].
  { unfold shape2. rewrite <- list_fmap_compose.
    erewrite list_fmap_ext; [|intros; simpl; by rewrite length_map].
    pose proof (place2_shape V (zeros 1) 1 ops_ eq_refl Hone) as Hp.
    apply (f_equal (map length)) in Hp. unfold shape3 in Hp.
    rewrite <- !list_fmap_compose in Hp.
    erewrite list_fmap_ext in Hp; [|intros; simpl; by rewrite length_map].
    etransitivity; [exact Hp|]. unfold V. rewrite <- !list_fmap_compose.
    apply list_fmap_ext. intros; simpl; by rewrite !length_map. }
  intros b n t row m Ht Hrow Hm.
  rewrite get2_fmap, place2_lookup.
  assert (V !! b ≫= (fun vs => vs !! n) = Some (Qeq_bool m 0)) as HV.
  { fold (get2 V b n). unfold V. rewrite get2_fmap, Hm. simpl.
    unfold to_bool. by rewrite negb_involutive. }
  destruct (V !! b) as [vs|] eqn:Hvs; [|done]. simpl in HV |- *.
  rewrite HV. simpl. destruct (Qeq_bool m 0) eqn:Hm0; [|done].
  pose proof (compact_rank _ _ _ _ _ HshV Hvs HV) as Hc.
  destruct (cat_target_nodes _ _ _ b n Hcat) as [_ Hget].
  rewrite Ht, Hrow in Hget. simpl in Hget. rewrite Hget in Hc.
  apply rmap_Ok in Hops.
  destruct (Forall2_lookup_l _ _ _ _ _ Hops Hc) as (y & Hy & Hhead).
  destruct (goal_head_single _ _ _ Hhead) as [v ->].
  exists v. split; [done|]. by rewrite Hy.
Qed.

Lemma masked_scores_valid ops masks n g m :
  ops !! n = Some g → masks !! n = Some m → Qeq_bool m 0 = true →
  masked_scores ops masks !! n = Some (Fin (Q2R g + 0)).
Proof.
  intros Hg Hm H0. unfold masked_scores. rewrite lookup_zip_with, Hg. simpl.
  rewrite Hm. simpl. apply Qeq_bool_iff in H0. by rewrite (torch_log_valid m H0).
Qed.

Lemma expsum_ge xs n a : xs !! n = Some (Fin a) → (exp a <= expsum xs)%R.
Proof.
  revert n. induction xs as [|x xs IH]; intros [|n] H; simplify_eq/=.
  - pose proof (expsum_nonneg xs). lra.
  - specialize (IH _ H). destruct x; try done. pose proof (exp_pos r). lra.
Qed.

(** A finite entry of a row of finite or [-inf] scores: its log-probability
    is the score minus the logarithm of the sum of the exponentials. *)
Lemma log_softmax_fin xs n a :
  Forall fin_or_ninf xs → xs !! n = Some (Fin a) →
  log_softmax xs !! n = Some (Fin (a - ln (expsum xs))) ∧
  (a - ln (expsum xs) <= 0)%R.
Proof.
  intros Hall Hn.
  assert (Exists is_fin xs) as Hex.
  { apply Exists_exists. exists (Fin a). split; [|done].
    by eapply list_elem_of_lookup_2. }
  pose proof (expsum_pos xs Hex) as Hpos. pose proof (expsum_ge _ _ _ Hn) as Hge.
  split.
  - unfold log_softmax. rewrite (xsum_exp xs Hall). unfold xlog.
    destruct (Rlt_dec 0 (expsum xs)) as [_|]; [|done].
    rewrite list_lookup_fmap, Hn. simpl. do 2 f_equal.
  - destruct (Rle_lt_dec a (ln (expsum xs))) as [|Hlt]; [lra|].
    apply exp_increasing in Hlt. rewrite exp_ln in Hlt by done. lra.
Qed.

Lemma get2_zip_rows {A B C} (f : list A → list B → list C)
    (a : list (list A)) (b : list (list B)) i j :
  get2 (zip_with f a b) i j =
    ra ← a !! i; rb ← b !! i; f ra rb !! j.
Proof.
  unfold get2. rewrite lookup_zip_with.
  destruct (a !! i); simpl; [|done]. by destruct (b !! i).
Qed.

(** X17.  The encodings of masked nodes are never read: two tensors of
    node encodings of one shape [batch, max_nodes, D] that agree on every
    node with mask 0 give the same log-probabilities (or the same
    exception), for a mask of layout [batch, max_nodes]. *)
Theorem compute_goal_probs_ignores_masked self ta ne1 ne2 nm B N D :
  shape3 ne1 = replicate B (replicate N D) →
  shape3 ne2 = replicate B (replicate N D) →
  shape2 nm = replicate B N →
  (∀ b n m, get2 nm b n = Some m → Qeq_bool m 0 = true →
     get2 ne1 b n = get2 ne2 b n) →
  compute_goal_probs self ta ne1 nm = compute_goal_probs self ta ne2 nm.
Proof.
  intros Hs1 Hs2 Hnm Hag.
  assert (∀ ne : list (list (list Q)),
            shape3 ne = replicate B (replicate N D) → shape2 ne = shape2 nm)
    as Hsh2.
  { intros ne Hne. rewrite Hnm.
    rewrite <- (length_replicate N D), <- fmap_replicate, <- Hne.
    unfold shape2, shape3. rewrite <- list_fmap_compose.
    apply list_fmap_ext. intros i m _. simpl. by rewrite length_map. }
  pose proof (Hsh2 ne1 Hs1) as H1. pose proof (Hsh2 ne2 Hs2) as H2.
  clear Hsh2 Hs1 Hs2 Hnm. unfold compute_goal_probs.
  destruct (shape2_hd ne1 ne2) as [_ ->]; [congruence|].
  set (ta' := map _ ta). unfold cat_dim2. rewrite H1, H2.
  case_decide as Hsh; [|done]. simpl.
  set (V := map (map (fun m => negb (to_bool m))) nm).
  assert (shape2 nm = shape2 V) as HV.
  { unfold V, shape2. rewrite <- list_fmap_compose. apply list_fmap_ext.
    intros; simpl; by rewrite length_map. }
  assert (∀ ne : list (list (list Q)), shape2 ne = shape2 nm →
            shape2 (zip_with (zip_with app) ta' ne) = shape2 V) as Hz.
  { intros ne Hne. rewrite <- HV, <- Hsh.
    apply (cat_dim2_shape ta' ne). unfold cat_dim2.
    by rewrite decide_True by congruence. }
  rewrite !masked_select2_compact by auto.
  assert (compact (zip_with (zip_with app) ta' ne1) V
          = compact (zip_with (zip_with app) ta' ne2) V) as ->; [|done].
  apply compact_ext; [auto..|]. intros b n vs Hb Hn.
  rewrite !get2_zip_with.
  assert (get2 ne1 b n = get2 ne2 b n) as ->; [|done].
  assert (get2 V b n = Some true) as Hv by (unfold get2; by rewrite Hb).
  unfold V in Hv. rewrite get2_fmap in Hv.
  destruct (get2 nm b n) as [m|] eqn:Hm; [|done].
  apply (Hag b n m Hm). injection Hv as Hv. unfold to_bool in Hv.
  by rewrite negb_involutive in Hv.
Qed.

(** X18.  For a node mask with entries 0 or 1, the log-probability of a
    valid node is a finite number and never positive. *)
Theorem compute_goal_probs_valid_nonpositive self ta ne nm glp b n m :
  compute_goal_probs self ta ne nm = Ok glp →
  forallb (forallb node_binary) nm = true →
  get2 nm b n = Some m → Qeq_bool m 0 = true →
  ∃ p, get2 glp b n = Some (Fin p) ∧ (p <= 0)%R.
Proof.
  intros Hrun Hbin Hm H0.
  destruct (compute_goal_probs_rows _ _ _ _ _ Hrun) as (ops & Hsh & ->).
  unfold get2 in Hm. destruct (nm !! b) as [masks|] eqn:Hb; [|done].
  simpl in Hm. symmetry in Hsh.
  destruct (shape2_lookup _ _ _ _ Hsh Hb) as (o & Ho & Hlen).
  rewrite get2_zip_rows, Ho, Hb. simpl.
  assert (forallb node_binary masks = true) as Hbm.
  { rewrite forallb_forall in Hbin. apply Hbin, list_elem_of_In.
    by eapply list_elem_of_lookup_2. }
  destruct (masked_scores_spec o masks (eq_sym Hlen) Hbm) as (Hall & _).
  destruct (lookup_lt_is_Some_2 o n) as [g Hg].
  { rewrite <- Hlen. by eapply lookup_lt_Some. }
  pose proof (masked_scores_valid _ _ _ _ _ Hg Hm H0) as Hs.
  destruct (log_softmax_fin _ _ _ Hall Hs) as [-> Hle]. eauto.
Qed.

(** X19.  The log-probability of a valid node is the score that the
    prediction header gives to the node's own row (the encoding of the
    target agent of the example followed by the encoding of the node), minus
    a normaliser that is the same for all nodes of the example. *)
Theorem compute_goal_probs_valid_entries self ta ne nm glp b t :
  compute_goal_probs self ta ne nm = Ok glp →
  shape2 ne = shape2 nm →
  forallb (forallb node_binary) nm = true →
  ta !! b = Some t →
  ∃ L, ∀ n row m,
    get2 ne b n = Some row → get2 nm b n = Some m → Qeq_bool m 0 = true →
    ∃ v, goal_head self (t ++ row) = Ok [v] ∧
         get2 glp b n = Some (Fin (Q2R v - L)).
Proof.
  intros Hrun Hsh Hbin Ht.
  destruct (compute_goal_probs_scores _ _ _ _ _ Hrun Hsh)
    as (ops & Hsho & -> & Hops).
  destruct (nm !! b) as [masks|] eqn:Hb.
  2:{ exists 0%R. intros n row m _ Hm. unfold get2 in Hm. by rewrite Hb in Hm. }
  symmetry in Hsho.
  destruct (shape2_lookup _ _ _ _ Hsho Hb) as (o & Ho & Hlen).
  exists (ln (expsum (masked_scores o masks))).
  intros n row m Hrow Hm H0.
  specialize (Hops b n t row m Ht Hrow Hm). rewrite H0 in Hops.
  destruct Hops as (v & Hv & Hget). exists v. split; [done|].
  rewrite get2_zip_rows, Ho, Hb. simpl.
  assert (forallb node_binary masks = true) as Hbm.
  { rewrite forallb_forall in Hbin. apply Hbin, list_elem_of_In.
    by eapply list_elem_of_lookup_2. }
  destruct (masked_scores_spec o masks (eq_sym Hlen) Hbm) as (Hall & _).
  unfold get2 in Hget, Hm. rewrite Ho in Hget. rewrite Hb in Hm.
  simpl in Hget, Hm.
  pose proof (masked_scores_valid _ _ _ _ _ Hget Hm H0) as Hs.
  destruct (log_softmax_fin _ _ _ Hall Hs) as [-> _]. do 2 f_equal. lra.
Qed.

End GoalProbsFacts.

(** * Further properties of [GoalConditioned.forward] *)

Section GatherFacts.

Import GoalConditioned.

(** One element of [node_encodings[batch_indices, goals]]. *)
Lemma gather_pick (ne : list (list (list Q))) b g nodes :
  ne !! b = Some nodes →
  (b' ← norm_index (length ne) (Z.of_nat b);
   let nodes := default [] (ne !! b') in
   k ← norm_index (length nodes) g;
   Ok (default [] (nodes !! k)))
  = k ← norm_index (length nodes) g; Ok (default [] (nodes !! k)).
Proof.
  intros Hb. rewrite norm_index_of_nat by (by eapply lookup_lt_Some).
  simpl. by rewrite Hb.
Qed.

Lemma shape2_replicate_lookup {A} (t : list (list A)) B S b row :
  shape2 t = replicate B S → t !! b = Some row → b < B ∧ length row = S.
Proof.
  intros Hsh Hb.
  assert (shape2 t !! b = Some (length row)) as Hl
    by (unfold shape2; by rewrite list_lookup_fmap, Hb).
  rewrite Hsh in Hl. apply lookup_replicate in Hl as [-> ?]. done.
Qed.

Lemma rmap_zip_with_ext {A B C D} (f : C → result D) (f' : A * B → result D)
    (h : A → B → C) l gs :
  (∀ i x y, l !! i = Some x → gs !! i = Some y → f (h x y) = f' (x, y)) →
  rmap f (zip_with h l gs) = rmap f' (zip l gs).
Proof.
  revert gs. induction l as [|x l IH]; intros gs Hext; [done|].
  destruct gs as [|y gs]; [done|]. simpl.
  rewrite (Hext 0 x y eq_refl eq_refl).
  rewrite (IH gs); [done|]. intros i. apply (Hext (S i)).
Qed.

Lemma rmap_zip_replicate {A B C} (f : A * B → result C) z row :
  rmap f (zip (replicate (length row) z) row) = rmap (fun g => f (z, g)) row.
Proof. induction row as [|g row IH]; simpl; [done|]. by rewrite IH. Qed.

(** The rows of index pairs that [gather] walks through, for the batch
    indices that [forward] builds. *)
Lemma gather_run (ne : list (list (list Q))) S goals :
  shape2 goals = replicate (length ne) S →
  gather ne (map (fun b => replicate S b) (arange (length ne))) goals
  = rmap (fun bg : nat * list Z =>
            rmap (fun g =>
                    k ← norm_index (length (default [] (ne !! bg.1))) g;
                    Ok (default [] (default [] (ne !! bg.1) !! k)))
              bg.2)
      (zip (seq 0 (length ne)) goals).
Proof.
  intros Hsh. unfold gather.
  assert (length goals = length ne) as Hlen.
  { apply (f_equal length) in Hsh. unfold shape2 in Hsh.
    by rewrite length_map, length_replicate in Hsh. }
  rewrite bcast_same by (unfold arange; by rewrite !length_map, length_seq).
  simpl. unfold arange. rewrite <- list_fmap_compose.
  rewrite zip_with_fmap_l.
  apply rmap_zip_with_ext. intros i b row Hb Hrow. simpl.
  apply lookup_seq in Hb as [-> Hb]. simpl.
  destruct (shape2_replicate_lookup _ _ _ _ _ Hsh Hrow) as [_ Hl].
  rewrite bcast_same by (by rewrite length_replicate). simpl.
  rewrite <- Hl, rmap_zip_replicate. apply rmap_ext, Forall_forall.
  intros g _. simpl. by rewrite norm_index_of_nat.
Qed.

Lemma shape2_replicate_intro {A} (t : list (list A)) B S :
  length t = B → Forall (fun r => length r = S) t → shape2 t = replicate B S.
Proof.
  intros <- Hall. unfold shape2.
  induction Hall as [|r t Hr _ IH]; simpl; [done|]. by rewrite Hr, IH.
Qed.

Lemma norm_index_raise n i e : norm_index n i = Raise e → e = IndexError.
Proof. unfold norm_index. repeat case_decide; congruence. Qed.

Lemma norm_index_Ok n i :
  (- Z.of_nat n ≤ i < Z.of_nat n)%Z ↔ ∃ k, norm_index n i = Ok k.
Proof.
  unfold norm_index. split.
  - intros H. repeat case_decide; eauto; lia.
  - intros [k H]. repeat case_decide; try done; lia.
Qed.

(** The elements that [gather] has read, when it returns. *)
Lemma gather_Ok (ne : list (list (list Q))) S goals ge :
  shape2 goals = replicate (length ne) S →
  gather ne (map (fun b => replicate S b) (arange (length ne))) goals = Ok ge →
  shape2 ge = replicate (length ne) S ∧
  ∀ b s g, get2 goals b s = Some g →
    ∃ nodes k node,
      ne !! b = Some nodes ∧ norm_index (length nodes) g = Ok k ∧
      nodes !! k = Some node ∧ get2 ge b s = Some node.
Proof.
  intros Hsh Hrun. rewrite (gather_run _ _ _ Hsh) in Hrun.
  assert (length goals = length ne) as Hlen.
  { apply (f_equal length) in Hsh. unfold shape2 in Hsh.
    by rewrite length_map, length_replicate in Hsh. }
  pose proof (rmap_length _ _ _ Hrun) as Hlge.
  rewrite length_zip_with, length_seq in Hlge.
  apply rmap_Ok in Hrun. split.
  - apply shape2_replicate_intro; [lia|].
    apply Forall_forall. intros row Hrow.
    apply list_elem_of_lookup in Hrow as [b Hb].
    destruct (Forall2_lookup_r _ _ _ _ _ Hrun Hb) as ([b' grow] & Hz & Hr).
    apply rmap_length in Hr. simpl in Hr. rewrite Hr.
    apply lookup_zip_with_Some in Hz as (? & ? & [= <- <-] & _ & Hg).
    by destruct (shape2_replicate_lookup _ _ _ _ _ Hsh Hg).
  - intros b s g Hg. unfold get2 in Hg.
    destruct (goals !! b) as [grow|] eqn:Hb; [|done]. simpl in Hg.
    assert (b < length ne) as Hlt by (rewrite <- Hlen; by eapply lookup_lt_Some).
    destruct (lookup_lt_is_Some_2 ne b Hlt) as [nodes Hnodes].
    assert (zip (seq 0 (length ne)) goals !! b = Some (b, grow)) as Hz.
    { rewrite lookup_zip_with, lookup_seq_lt by done. simpl. by rewrite Hb. }
    destruct (Forall2_lookup_l _ _ _ _ _ Hrun Hz) as (gerow & Hge & Hr).
    simpl in Hr. rewrite Hnodes in Hr. simpl in Hr. apply rmap_Ok in Hr.
    destruct (Forall2_lookup_l _ _ _ _ _ Hr Hg) as (node & Hnode & Hpick).
    destruct (norm_index (length nodes) g) as [k|] eqn:Hk; [|done].
    simpl in Hpick. injection Hpick as <-.
    destruct (lookup_lt_is_Some_2 nodes k (norm_index_lt _ _ _ Hk)) as [nd Hnd].
    exists nodes, k, nd. rewrite Hnd in Hnode. simpl in Hnode.
    split; [done|]. split; [done|]. split; [done|].
    unfold get2. by rewrite Hge.
Qed.

(** [gather] returns when every goal is within the node axis of its
    example. *)
Lemma gather_total (ne : list (list (list Q))) S goals :
  shape2 goals = replicate (length ne) S →
  (∀ b s g nodes, get2 goals b s = Some g → ne !! b = Some nodes →
     (- Z.of_nat (length nodes) ≤ g < Z.of_nat (length nodes))%Z) →
  ∃ ge, gather ne (map (fun b => replicate S b) (arange (length ne))) goals
        = Ok ge.
Proof.
  intros Hsh Hrange.
  destruct (gather _ _ _) as [ge|e] eqn:Hrun; [eauto|exfalso].
  rewrite (gather_run _ _ _ Hsh) in Hrun.
  apply rmap_raise_inv in Hrun as ([b grow] & Hin & Hr).
  apply list_elem_of_lookup in Hin as [i Hi].
  apply lookup_zip_with_Some in Hi as (? & ? & [= <- <-] & Hb & Hg).
  apply lookup_seq in Hb as [-> Hb]. simpl in Hb, Hr.
  destruct (lookup_lt_is_Some_2 ne i Hb) as [nodes Hnodes].
  rewrite Hnodes in Hr. simpl in Hr.
  apply rmap_raise_inv in Hr as (g & Hgin & Hr).
  apply list_elem_of_lookup in Hgin as [s Hs].
  assert (get2 goals i s = Some g) as Hget
    by (unfold get2; rewrite Hg; by simpl).
  apply (Hrange _ _ _ _ Hget) in Hnodes.
  apply norm_index_Ok in Hnodes as [k Hk]. by rewrite Hk in Hr.
Qed.

(** X20.  The goal encodings are taken example by example: for goals of
    layout [batch, num_samples] that are all within the node axis of their
    example, the indexing returns, and entry [(b, s)] of the result is the
    encoding of node [goals[b, s]] of example [b], a negative goal counting
    from the end of the node axis. *)
Theorem gather_spec (ne : list (list (list Q))) S goals :
  shape2 goals = replicate (length ne) S →
  (∀ b s g nodes, get2 goals b s = Some g → ne !! b = Some nodes →
     (- Z.of_nat (length nodes) ≤ g < Z.of_nat (length nodes))%Z) →
  ∃ ge,
    gather ne (map (fun b => replicate S b) (arange (length ne))) goals
      = Ok ge ∧
    shape2 ge = replicate (length ne) S ∧
    ∀ b s g, get2 goals b s = Some g →
      ∃ nodes k node,
        ne !! b = Some nodes ∧ norm_index (length nodes) g = Ok k ∧
        nodes !! k = Some node ∧ get2 ge b s = Some node.
Proof.
  intros Hsh Hrange.
  destruct (gather_total ne S goals Hsh Hrange) as [ge Hge].
  exists ge. split; [done|]. by apply gather_Ok.
Qed.

(** X21.  A goal outside the node axis of its example, that is below
    [-max_nodes] or from [max_nodes] on, makes the indexing raise
    [IndexError]. *)
Theorem gather_index_error (ne : list (list (list Q))) S goals b s g nodes :
  shape2 goals = replicate (length ne) S →
  get2 goals b s = Some g → ne !! b = Some nodes →
  ¬ (- Z.of_nat (length nodes) ≤ g < Z.of_nat (length nodes))%Z →
  gather ne (map (fun b => replicate S b) (arange (length ne))) goals
  = Raise IndexError.
Proof.
  intros Hsh Hg Hnodes Hout. rewrite (gather_run _ _ _ Hsh).
  unfold get2 in Hg. destruct (goals !! b) as [grow|] eqn:Hb; [|done].
  simpl in Hg.
  assert (∀ (bg : nat * list Z) e,
            rmap (fun g =>
                    k ← norm_index (length (default [] (ne !! bg.1))) g;
                    Ok (default [] (default [] (ne !! bg.1) !! k))) bg.2
            = Raise e → e = IndexError) as Hall.
  { intros bg e (g' & _ & Hr)%rmap_raise_inv.
    destruct (norm_index _ g') eqn:Hn; [done|].
    injection Hr as <-. by eapply norm_index_raise. }
  apply (rmap_raise _ _ _ (b, grow)); [eauto| |].
  - apply list_elem_of_lookup. exists b.
    rewrite lookup_zip_with, lookup_seq_lt by (by eapply lookup_lt_Some).
    simpl. by rewrite Hb.
  - destruct (rmap _ (b, grow).2) as [row|e] eqn:Hr; [exfalso|eauto].
    simpl in Hr. rewrite Hnodes in Hr. simpl in Hr. apply rmap_Ok in Hr.
    destruct (Forall2_lookup_l _ _ _ _ _ Hr Hg) as (node & _ & Hpick).
    destruct (norm_index (length nodes) g) as [k|] eqn:Hk; [|done].
    apply Hout, norm_index_Ok. eauto.
Qed.

End GatherFacts.

Section GoalForwardFacts.

Import GoalConditioned.

Context {rng : Type}.
Variable categorical_sample : list (list (list xreal)) → ST rng (list (list Z)).
Variable global_attention_forward : gmap string pyobj → result (list (list Q)).

(** In pretraining mode the goals are a function of the encodings; the
    random source is handed back as it came. *)
Lemma select_goals_pretrain_run self (encodings : gmap string pyobj)
    nm glp (r : rng) :
  pre_train self = true → training self = true →
  select_goals categorical_sample self encodings nm glp r
  = (node_seq_gt ← getitem encodings "node_seq_gt" ≫= as_float2;
     final ← rmap (fun seq : list Q =>
                     match last seq with
                     | Some x => Ok x
                     | None => Raise IndexError
                     end) node_seq_gt;
     Ok (map (fun x => map (fun y => (long y - Z.of_nat (length (hd [] nm)))%Z)
                         (replicate (num_samples self) x)) final), r).
Proof.
  intros Hpre Htrain. unfold select_goals. rewrite Hpre, Htrain. simpl.
  rewrite ST_bind_lift.
  destruct (getitem encodings "node_seq_gt" ≫= as_float2) as [gt|]; [|done].
  rewrite ST_bind_lift. simpl. by destruct (rmap _ gt).
Qed.

(** C2.  With [pre_train] set and the module in training mode, [forward]
    does not sample.  For every sampler, the random source comes back as it
    went in, whatever the call returns or raises; and when the call returns,
    every ground-truth row has a last entry, and the goals with which the
    node encodings have been indexed (line 98) are, for every example,
    [num_samples] copies of that last entry, cast to an integer, minus
    [max_nodes]: the output holds the aggregated context followed by the
    encodings picked with these goals. *)
Theorem forward_pretrain_goals self (encodings ctx : gmap string pyobj)
    ta ne nm gt (r : rng) :
  pre_train self = true → training self = true →
  encodings !! "target_agent_encoding" = Some (PFloat2 ta) →
  encodings !! "context_encoding" = Some (PDict ctx) →
  ctx !! "combined" = Some (PFloat3 ne) →
  ctx !! "combined_masks" = Some (PFloat2 nm) →
  encodings !! "node_seq_gt" = Some (PFloat2 gt) →
  (forward categorical_sample global_attention_forward self encodings r).2 = r ∧
  ∀ out,
    (forward categorical_sample global_attention_forward self encodings r).1
    = Ok out →
    Forall (fun seq => seq ≠ []) gt ∧
    ∃ glp agg goal_encodings X,
      compute_goal_probs self ta ne nm = Ok glp ∧
      global_attention_forward encodings = Ok agg ∧
      gather ne
        (map (fun b => replicate (num_samples self) b) (arange (length agg)))
        (map (fun seq =>
                replicate (num_samples self)
                  (long (default 0%Q (last seq))
                   - Z.of_nat (length (hd [] nm)))%Z) gt)
      = Ok goal_encodings ∧
      cat_dim2 (map (fun v => replicate (num_samples self) v) agg)
        goal_encodings = Ok X ∧
      out = {[ "agg_encoding" := PFloat3 X;
               "goal_log_probs" := PXReal2 glp ]}.
Proof.
  intros Hpre Htrain Hta Hctx Hne Hnm Hgt.
  destruct (forward categorical_sample global_attention_forward self
              encodings r) as [res r'] eqn:Hrun.
  simpl. unfold forward in Hrun.
  rewrite ST_bind_lift in Hrun. unfold getitem at 1 in Hrun.
  rewrite Hta in Hrun. simpl in Hrun.
  rewrite ST_bind_lift in Hrun. unfold getitem at 1 in Hrun.
  rewrite Hctx in Hrun. simpl in Hrun.
  rewrite ST_bind_lift in Hrun. unfold getitem at 1 in Hrun.
  rewrite Hne in Hrun. simpl in Hrun.
  rewrite ST_bind_lift in Hrun. unfold getitem at 1 in Hrun.
  rewrite Hnm in Hrun. simpl in Hrun.
  rewrite ST_bind_lift in Hrun.
  destruct (compute_goal_probs self ta ne nm) as [glp|] eqn:Hglp;
    [|injection Hrun as <- <-; split; [done|by intros out [=]]].
  rewrite ST_bind_run, select_goals_pretrain_run in Hrun by done.
  unfold getitem at 1 in Hrun. rewrite Hgt in Hrun. simpl in Hrun.
  destruct (rmap _ gt) as [final|] eqn:Hfinal;
    [|injection Hrun as <- <-; split; [done|by intros out [=]]].
  simpl in Hrun.
  assert (Forall (fun seq : list Q => seq ≠ []) gt ∧
          final = map (fun seq => default 0%Q (last seq)) gt) as [Hgtne ->].
  { apply rmap_Ok in Hfinal. clear -Hfinal.
    induction Hfinal as [|seq x gt final Hx _ [IH1 IH2]]; [done|].
    revert Hx. destruct (last seq) as [y|] eqn:Hl; [|done]. intros [= <-].
    split; [|simpl; by rewrite IH2, Hl].
    constructor; [|done]. by intros ->. }
  rewrite ST_bind_lift in Hrun.
  destruct (global_attention_forward encodings) as [agg|] eqn:Hagg;
    [|injection Hrun as <- <-; split; [done|by intros out [=]]].
  rewrite ST_bind_lift in Hrun. rewrite length_map in Hrun.
  rewrite <- list_fmap_compose in Hrun.
  match type of Hrun with
  | context [gather ne ?bi ?goals] =>
      assert (goals
              = map (fun seq : list Q =>
                       replicate (num_samples self)
                         (long (default 0%Q (last seq))
                          - Z.of_nat (length (hd [] nm)))%Z) gt) as Hgoals
  end.
  { apply list_fmap_ext. intros i seq _. simpl. by rewrite fmap_replicate. }
  rewrite Hgoals in Hrun. clear Hgoals.
  destruct (gather ne _ _) as [ge|] eqn:Hge;
    [|injection Hrun as <- <-; split; [done|by intros out [=]]].
  rewrite ST_bind_lift in Hrun.
  destruct (cat_dim2 _ ge) as [X|] eqn:HX;
    [|injection Hrun as <- <-; split; [done|by intros out [=]]].
  injection Hrun as <- <-.
  split; [done|]. intros out [= <-]. split; [done|].
  by exists glp, agg, ge, X.
Qed.

(** X22.  In pretraining mode the whole of [forward] is deterministic:
    whatever it returns or raises, the random source is left as it was. *)
Theorem forward_pretrain_keeps_random_state self
    (encodings : gmap string pyobj) (r : rng) :
  pre_train self = true → training self = true →
  (forward categorical_sample global_attention_forward self encodings r).2 = r.
Proof.
  intros Hpre Htrain. unfold forward.
  do 5 (rewrite ST_bind_lift;
        match goal with
        | |- context [match ?x with Ok _ => _ | Raise _ => _ end] =>
            destruct x; [|done]
        end).
  rewrite ST_bind_run, select_goals_pretrain_run by done.
  match goal with
  | |- context [match ?x with Ok _ => _ | Raise _ => _ end] =>
      destruct x; [|done]
  end.
  do 3 (rewrite ST_bind_lift;
        match goal with
        | |- context [match ?x with Ok _ => _ | Raise _ => _ end] =>
            destruct x; [|done]
        end).
  done.
Qed.

(** X23.  Pretraining mode, from end to end.  When the encodings unpack,
    the header and the base aggregator return, the batch axes agree and
    the last ground-truth entry of every example, minus [max_nodes], is
    within the node axis, [forward] returns; the log-probabilities are those
    of [compute_goal_probs], and every one of the [num_samples] rows of
    an example in agg_encoding is the aggregated context of the example
    followed by the encoding of its ground-truth goal node. *)
Theorem forward_pretrain_output self (encodings ctx : gmap string pyobj)
    ta ne nm gt glp agg (r : rng) :
  pre_train self = true → training self = true →
  encodings !! "target_agent_encoding" = Some (PFloat2 ta) →
  encodings !! "context_encoding" = Some (PDict ctx) →
  ctx !! "combined" = Some (PFloat3 ne) →
  ctx !! "combined_masks" = Some (PFloat2 nm) →
  encodings !! "node_seq_gt" = Some (PFloat2 gt) →
  compute_goal_probs self ta ne nm = Ok glp →
  global_attention_forward encodings = Ok agg →
  length agg = length ne → length gt = length ne →
  (∀ b seq nodes, gt !! b = Some seq → ne !! b = Some nodes →
     seq ≠ [] ∧
     (- Z.of_nat (length nodes)
      ≤ long (default 0%Q (last seq)) - Z.of_nat (length (hd [] nm))
      < Z.of_nat (length nodes))%Z) →
  ∃ X,
    forward categorical_sample global_attention_forward self encodings r
    = (Ok {[ "agg_encoding" := PFloat3 X;
             "goal_log_probs" := PXReal2 glp ]}, r) ∧
    shape2 X = replicate (length ne) (num_samples self) ∧
    ∀ b s c seq nodes,
      s < num_samples self →
      agg !! b = Some c → gt !! b = Some seq → ne !! b = Some nodes →
      ∃ k node,
        norm_index (length nodes)
          (long (default 0%Q (last seq)) - Z.of_nat (length (hd [] nm))) = Ok k ∧
        nodes !! k = Some node ∧ get2 X b s = Some (c ++ node).
Proof.
  intros Hpre Htrain Hta Hctx Hne Hnm Hgt Hglp Hagg Hla Hlg Hrange.
  set (S := num_samples self). set (N := Z.of_nat (length (hd [] nm))).
  set (goals := map (fun seq : list Q =>
                       replicate S (long (default 0%Q (last seq)) - N)%Z) gt).
  assert (shape2 goals = replicate (length ne) S) as Hsh.
  { apply shape2_replicate_intro; [unfold goals; by rewrite length_map|].
    apply Forall_forall. intros row (seq & -> & _)%list_elem_of_fmap.
    by rewrite length_replicate. }
  assert (∀ b s g, get2 goals b s = Some g →
            ∃ seq, gt !! b = Some seq ∧ s < S ∧
                   g = (long (default 0%Q (last seq)) - N)%Z) as Hgoal.
  { intros b s g Hg. unfold get2, goals in Hg. rewrite list_lookup_fmap in Hg.
    destruct (gt !! b) as [seq|]; [|done]. simpl in Hg.
    apply lookup_replicate in Hg as [-> ?]. eauto. }
  destruct (gather_total ne S goals Hsh) as [ge Hge].
  { intros b s g nodes (seq & Hseq & _ & ->)%Hgoal Hnodes.
    by destruct (Hrange b seq nodes Hseq Hnodes). }
  destruct (gather_Ok ne S goals ge Hsh Hge) as [Hshge Hpick].
  exists (zip_with (zip_with app) (map (fun v => replicate S v) agg) ge).
  split; [|split].
  - unfold forward.
    rewrite ST_bind_lift. unfold getitem at 1. rewrite Hta. simpl.
    rewrite ST_bind_lift. unfold getitem at 1. rewrite Hctx. simpl.
    rewrite ST_bind_lift. unfold getitem at 1. rewrite Hne. simpl.
    rewrite ST_bind_lift. unfold getitem at 1. rewrite Hnm. simpl.
    rewrite ST_bind_lift, Hglp.
    rewrite ST_bind_run, select_goals_pretrain_run by done.
    unfold getitem at 1. rewrite Hgt. simpl.
    rewrite (rmap_total _ (fun seq => default 0%Q (last seq))).
    2:{ apply Forall_forall. intros seq Hseq.
        apply list_elem_of_lookup in Hseq as [b Hb].
        destruct (lookup_lt_is_Some_2 ne b) as [nodes Hnodes].
        { rewrite <- Hlg. by eapply lookup_lt_Some. }
        destruct (Hrange b seq nodes Hb Hnodes) as [Hne' _].
        destruct (last seq) eqn:Hl; [done|]. by apply last_None in Hl. }
    simpl. rewrite ST_bind_lift, Hagg. rewrite ST_bind_lift.
    rewrite length_map, Hla. fold S N.
    assert (map (fun x => map (fun y => (long y - N)%Z) (replicate S x))
              (map (fun seq => default 0%Q (last seq)) gt) = goals) as ->.
    { unfold goals. rewrite <- list_fmap_compose. apply list_fmap_ext.
      intros i seq _. simpl. by rewrite fmap_replicate. }
    rewrite Hge. rewrite ST_bind_lift. unfold cat_dim2.
    rewrite decide_True; [done|]. rewrite Hshge.
    apply shape2_replicate_intro; [by rewrite length_map|].
    apply Forall_forall. intros row (v & -> & _)%list_elem_of_fmap.
    by rewrite length_replicate.
  - transitivity (shape2 (map (fun v : list Q => replicate S v) agg)).
    + apply (cat_dim2_shape _ ge). unfold cat_dim2. rewrite decide_True; [done|].
      rewrite Hshge. apply shape2_replicate_intro; [by rewrite length_map|].
      apply Forall_forall. intros row (v & -> & _)%list_elem_of_fmap.
      by rewrite length_replicate.
    + apply shape2_replicate_intro; [by rewrite length_map|].
      apply Forall_forall. intros row (v & -> & _)%list_elem_of_fmap.
      by rewrite length_replicate.
  - intros b s c seq nodes Hs Hc Hseq Hnodes.
    assert (get2 goals b s = Some (long (default 0%Q (last seq)) - N)%Z) as Hg.
    { unfold get2, goals. rewrite list_lookup_fmap, Hseq. simpl.
      by rewrite lookup_replicate_2. }
    destruct (Hpick _ _ _ Hg) as (nodes' & k & node & Hn' & Hk & Hnode & Hget).
    rewrite Hnodes in Hn'. injection Hn' as <-.
    exists k, node. split; [done|]. split; [done|].
    rewrite get2_zip_with, Hget. unfold get2.
    rewrite list_lookup_fmap, Hc. simpl. by rewrite lookup_replicate_2.
Qed.

(** The row of an example that has a valid node, for a 0/1 mask. *)
Lemma compute_goal_probs_valid_row self ta ne nm glp b row masks :
  compute_goal_probs self ta ne nm = Ok glp →
  forallb (forallb node_binary) nm = true →
  glp !! b = Some row → nm !! b = Some masks →
  existsb (fun m => Qeq_bool m 0) masks = true →
  length row = length masks ∧
  xsum (map xexp row) = Fin 1 ∧
  ∀ n m, masks !! n = Some m → Qeq_bool m 1 = true →
         xexp <$> row !! n = Some (Fin 0).
Proof.
  intros Hrun Hbin Hrow Hm Hex.
  destruct (compute_goal_probs_rows _ _ _ _ _ Hrun) as (ops & Hsh & ->).
  apply lookup_zip_with_Some in Hrow as (o & masks' & -> & Ho & Hm').
  rewrite Hm in Hm'. injection Hm' as <-.
  destruct (shape2_lookup _ _ _ _ Hsh Ho) as (masks' & Hm' & Hlen).
  rewrite Hm in Hm'. injection Hm' as <-.
  assert (forallb node_binary masks = true) as Hb.
  { rewrite forallb_forall in Hbin. apply Hbin, list_elem_of_In.
    by eapply list_elem_of_lookup_2. }
  destruct (masked_scores_spec o masks Hlen Hb) as (Hall & Hfin & _ & Hninf).
  split; [|split].
  - rewrite log_softmax_length. unfold masked_scores.
    rewrite length_zip_with. lia.
  - apply log_softmax_normalised; auto.
  - intros n m Hn H1. apply log_softmax_masked; eauto.
Qed.

(** X24.  Outside pretraining mode the goals come from the sampler, and
    what the sampler is given is, for every example with a valid node and
    every one of the [num_samples] draws, a probability vector over the
    nodes: its entries sum to 1, and the entry of every masked node is 0. *)
Theorem select_goals_samples_distribution self (encodings : gmap string pyobj)
    ta ne nm glp :
  pre_train self && training self = false →
  compute_goal_probs self ta ne nm = Ok glp →
  forallb (forallb node_binary) nm = true →
  ∃ probs,
    (∀ r : rng, select_goals categorical_sample self encodings nm glp r
                = categorical_sample probs r) ∧
    shape2 probs = replicate (length glp) (num_samples self) ∧
    ∀ b s p masks,
      get2 probs b s = Some p → nm !! b = Some masks →
      existsb (fun m => Qeq_bool m 0) masks = true →
      length p = length masks ∧ xsum p = Fin 1 ∧
      ∀ n m, masks !! n = Some m → Qeq_bool m 1 = true →
             p !! n = Some (Fin 0).
Proof.
  intros Hmode Hrun Hbin.
  exists (map (fun row => replicate (num_samples self) (map xexp row)) glp).
  split; [|split].
  - intros r. unfold select_goals. by rewrite Hmode.
  - apply shape2_replicate_intro; [by rewrite length_map|].
    apply Forall_forall. intros row (v & -> & _)%list_elem_of_fmap.
    by rewrite length_replicate.
  - intros b s p masks Hp Hm Hex. unfold get2 in Hp.
    rewrite list_lookup_fmap in Hp.
    destruct (glp !! b) as [row|] eqn:Hrow; [|done]. simpl in Hp.
    apply lookup_replicate in Hp as [-> _].
    destruct (compute_goal_probs_valid_row _ _ _ _ _ _ _ _ Hrun Hbin Hrow Hm Hex)
      as (Hlen & Hsum & Hzero).
    split; [by rewrite length_map|]. split; [done|].
    intros n m Hn H1. rewrite list_lookup_fmap. eauto.
Qed.

(** X26.  Evaluation mode, from end to end.  When the encodings unpack,
    the header and the base aggregator return and the sampler draws goals of
    layout [batch, num_samples] within the node axis, [forward] returns with
    the random source as the sampler left it, and row [s] of example [b] in
    agg_encoding is the aggregated context of the example followed by the
    encoding of its [s]-th sampled goal node; the key node_seq_gt is not
    read. *)
Theorem forward_sampled_output self (encodings ctx : gmap string pyobj)
    ta ne nm glp agg goals (r r' : rng) :
  pre_train self && training self = false →
  encodings !! "target_agent_encoding" = Some (PFloat2 ta) →
  encodings !! "context_encoding" = Some (PDict ctx) →
  ctx !! "combined" = Some (PFloat3 ne) →
  ctx !! "combined_masks" = Some (PFloat2 nm) →
  compute_goal_probs self ta ne nm = Ok glp →
  categorical_sample
    (map (fun row => replicate (num_samples self) (map xexp row)) glp) r
    = (Ok goals, r') →
  global_attention_forward encodings = Ok agg →
  length agg = length ne →
  shape2 goals = replicate (length ne) (num_samples self) →
  (∀ b s g nodes, get2 goals b s = Some g → ne !! b = Some nodes →
     (- Z.of_nat (length nodes) ≤ g < Z.of_nat (length nodes))%Z) →
  ∃ X,
    forward categorical_sample global_attention_forward self encodings r
    = (Ok {[ "agg_encoding" := PFloat3 X;
             "goal_log_probs" := PXReal2 glp ]}, r') ∧
    shape2 X = replicate (length ne) (num_samples self) ∧
    ∀ b s c g nodes,
      agg !! b = Some c → get2 goals b s = Some g → ne !! b = Some nodes →
      ∃ k node,
        norm_index (length nodes) g = Ok k ∧
        nodes !! k = Some node ∧ get2 X b s = Some (c ++ node).
Proof.
  intros Hmode Hta Hctx Hne Hnm Hglp Hsample Hagg Hla Hsh Hrange.
  set (S := num_samples self) in *.
  destruct (gather_total ne S goals Hsh Hrange) as [ge Hge].
  destruct (gather_Ok ne S goals ge Hsh Hge) as [Hshge Hpick].
  assert (shape2 (map (fun v : list Q => replicate S v) agg)
          = replicate (length ne) S) as Hshagg.
  { apply shape2_replicate_intro; [by rewrite length_map|].
    apply Forall_forall. intros row (v & -> & _)%list_elem_of_fmap.
    by rewrite length_replicate. }
  exists (zip_with (zip_with app) (map (fun v => replicate S v) agg) ge).
  split; [|split].
  - unfold forward.
    rewrite ST_bind_lift. unfold getitem at 1. rewrite Hta. simpl.
    rewrite ST_bind_lift. unfold getitem at 1. rewrite Hctx. simpl.
    rewrite ST_bind_lift. unfold getitem at 1. rewrite Hne. simpl.
    rewrite ST_bind_lift. unfold getitem at 1. rewrite Hnm. simpl.
    rewrite ST_bind_lift, Hglp.
    rewrite ST_bind_run. unfold select_goals. rewrite Hmode. fold S.
    rewrite Hsample.
    rewrite ST_bind_lift, Hagg. rewrite ST_bind_lift.
    rewrite length_map, Hla. fold S. rewrite Hge.
    rewrite ST_bind_lift. unfold cat_dim2.
    rewrite decide_True; [done|]. by rewrite Hshge.
  - rewrite <- Hshagg. apply (cat_dim2_shape _ ge). unfold cat_dim2.
    rewrite decide_True; [done|]. by rewrite Hshge.
  - intros b s c g nodes Hc Hg Hnodes.
    destruct (Hpick _ _ _ Hg) as (nodes' & k & node & Hn' & Hk & Hnode & Hget).
    rewrite Hnodes in Hn'. injection Hn' as <-.
    exists k, node. split; [done|]. split; [done|].
    rewrite get2_zip_with, Hget. unfold get2.
    rewrite list_lookup_fmap, Hc. simpl.
    rewrite lookup_replicate_2; [done|].
    unfold get2 in Hg. destruct (goals !! b) as [grow|] eqn:Hb; [|done].
    simpl in Hg. apply lookup_lt_Some in Hg.
    by destruct (shape2_replicate_lookup _ _ _ _ _ Hsh Hb) as [_ <-].
Qed.

End GoalForwardFacts.

(** * The header on well-shaped input *)

Section GoalProbsReturns.

Import GoalConditioned.

Lemma linear_returns l i o x :
  linear_dims l i o → length x = i →
  ∃ y, linear l x = Ok y ∧ length y = o.
Proof.
  intros (Hi & Hw & _ & Hb) Hx. unfold linear.
  rewrite decide_True by congruence. eexists. split; [done|].
  rewrite length_zip_with. lia.
Qed.

Lemma linear_act_returns l i o x :
  linear_dims l i o → length x = i →
  ∃ y, linear_act l x = Ok y ∧ length y = o.
Proof.
  intros Hl Hx. unfold linear_act.
  destruct (linear_returns l i o x Hl Hx) as (y & -> & Hy).
  eexists. split; [done|]. by rewrite length_map.
Qed.


Lemma shape2_replicate {A} (t : list (list A)) B N :
  shape2 t = replicate B N ↔ length t = B ∧ Forall (fun r => length r = N) t.
Proof.
  split.
  - intros Hsh. split.
    + apply (f_equal length) in Hsh. unfold shape2 in Hsh.
      by rewrite length_map, length_replicate in Hsh.
    + apply Forall_forall. intros r Hr. apply list_elem_of_lookup in Hr as [i Hi].
      by destruct (shape2_replicate_lookup _ _ _ _ _ Hsh Hi).
  - intros [? ?]. by apply shape2_replicate_intro.
Qed.

Lemma shape3_replicate {A} (t : list (list (list A))) B N H :
  shape3 t = replicate B (replicate N H) ↔
  length t = B ∧ Forall (fun m => shape2 m = replicate N H) t.
Proof.
  unfold shape3. split.
  - intros Hsh. split.
    + apply (f_equal length) in Hsh. by rewrite length_map, length_replicate in Hsh.
    + apply Forall_forall. intros m Hm. apply list_elem_of_lookup in Hm as [i Hi].
      assert (map (map length) t !! i = Some (map length m)) as Hl
        by (by rewrite list_lookup_fmap, Hi).
      rewrite Hsh in Hl. apply lookup_replicate in Hl as [Hl _]. exact Hl.
  - intros [<- Hall]. induction Hall as [|m t Hm _ IH]; simpl; [done|].
    f_equal; [exact Hm|exact IH].
Qed.

Lemma log_probs_shape (ops nm : list (list Q)) :
  shape2 ops = shape2 nm →
  shape2 (zip_with (fun o masks => log_softmax (masked_scores o masks)) ops nm)
  = shape2 nm.
Proof.
  unfold shape2. revert nm. induction ops as [|o ops IH]; intros [|masks nm] H;
    simplify_eq/=; [done|].
  rewrite IH by done. f_equal. rewrite log_softmax_length.
  unfold masked_scores. rewrite length_zip_with. lia.
Qed.

(** X27.  A header built by [__init__] returns on encodings of the sizes
    it was built for: target-agent encodings [batch, target_agent_enc_size],
    node encodings [batch, max_nodes, context_enc_size] and a mask [batch,
    max_nodes] give log-probabilities of layout [batch, max_nodes].  (The
    rows given to the header are not empty: torch rejects the [reshape] of
    line 127 otherwise.) *)
Theorem compute_goal_probs_returns a self ta ne nm B N :
  GoalConditionedInit.init a self →
  0 < GoalConditionedInit.context_enc_size a
      + GoalConditionedInit.target_agent_enc_size a →
  shape2 ta = replicate B (GoalConditionedInit.target_agent_enc_size a) →
  shape3 ne = replicate B
                (replicate N (GoalConditionedInit.context_enc_size a)) →
  shape2 nm = replicate B N →
  ∃ glp, compute_goal_probs self ta ne nm = Ok glp ∧
         shape2 glp = replicate B N.
Proof.
  intros (H1 & H2 & H3 & _) _ Hta Hne Hnm.
  set (Ht := GoalConditionedInit.target_agent_enc_size a) in *.
  set (Hc := GoalConditionedInit.context_enc_size a) in *.
  assert (∃ glp, compute_goal_probs self ta ne nm = Ok glp) as [glp Hrun].
  { destruct (compute_goal_probs self ta ne nm) as [glp|e] eqn:Hrun;
      [eauto|exfalso].
    unfold compute_goal_probs in Hrun.
    apply shape2_replicate in Hta as [HtaB Hta].
    apply shape3_replicate in Hne as [HneB Hne].
    assert (shape2 ne = replicate B N) as Hne2.
    { apply shape2_replicate. split; [done|].
      eapply Forall_impl; [exact Hne|]. intros m Hm.
      by apply shape2_replicate in Hm as [-> _]. }
    assert (shape2 (map (fun v : list Q => replicate (length (hd [] ne)) v) ta)
            = shape2 ne) as Hcat.
    { rewrite Hne2. apply shape2_replicate. rewrite length_map.
      split; [done|]. apply Forall_forall.
      intros r (v & -> & Hv)%list_elem_of_fmap. rewrite length_replicate.
      destruct ne as [|m ne].
      { simpl in HneB. rewrite <- HneB in HtaB.
        destruct ta; [by apply elem_of_nil in Hv|done]. }
      simpl.
      apply Forall_cons in Hne as [Hm _].
      by apply shape2_replicate in Hm as [-> _]. }
    unfold cat_dim2 in Hrun. rewrite decide_True in Hrun by done.
    simpl in Hrun.
    set (enc := zip_with (zip_with app) _ ne) in Hrun.
    set (V := map (map (fun m => negb (to_bool m))) nm) in Hrun.
    assert (shape2 enc = shape2 V) as HshV.
    { transitivity (shape2 ne).
      - rewrite <- Hcat. apply (cat_dim2_shape _ ne). unfold cat_dim2.
        by rewrite decide_True.
      - rewrite Hne2, <- Hnm. unfold V, shape2.
        rewrite <- list_fmap_compose. apply list_fmap_ext.
        intros; simpl; by rewrite length_map. }
    rewrite (masked_select2_compact _ _ HshV) in Hrun. simpl in Hrun.
    destruct (rmap (goal_head self) (compact enc V)) as [ops_|e1] eqn:Hops.
    - simpl in Hrun.
      pose proof (rmap_length _ _ _ Hops) as Hlen.
      rewrite (compact_length _ _ HshV) in Hlen.
      assert (Forall (fun r => length r = 1) ops_) as Hone.
      { apply rmap_Ok in Hops. clear -Hops.
        induction Hops as [|x y l l' Hxy _ IH]; constructor; [|done].
        by destruct (goal_head_single _ _ _ Hxy) as [v ->]. }
      change (map (map (fun b : bool => [b])) V)
        with (map (map (fun b : bool => replicate 1 b)) V) in Hrun.
      unfold masked_scatter3 in Hrun.
      pose proof (scatter_batches 1 V ops_ [] Hone Hlen) as Hsc.
      rewrite app_nil_r in Hsc. rewrite Hsc in Hrun. discriminate Hrun.
    - apply rmap_raise_inv in Hops as (x & Hx & Hraise).
      apply compact_subset, elem_of_concat in Hx as (row & Hrow & Hx).
      apply list_elem_of_lookup in Hrow as [b Hb].
      apply list_elem_of_lookup in Hx as [n Hn].
      assert (get2 enc b n = Some x) as Hget
        by (unfold get2; rewrite Hb; by simpl).
      unfold enc in Hget. rewrite get2_zip_with in Hget. unfold get2 in Hget.
      rewrite list_lookup_fmap in Hget.
      destruct (ta !! b) as [t|] eqn:Htb; [|done]. simpl in Hget.
      destruct (replicate _ t !! n) as [t'|] eqn:Ht'; [|done].
      apply lookup_replicate in Ht' as [-> _]. simpl in Hget.
      destruct (ne !! b) as [m|] eqn:Hmb; [|done]. simpl in Hget.
      destruct (m !! n) as [r|] eqn:Hr; [|done]. injection Hget as <-.
      assert (length t = Ht) as Hlt.
      { rewrite Forall_forall in Hta. apply Hta.
        by eapply list_elem_of_lookup_2. }
      assert (length r = Hc) as Hlr.
      { rewrite Forall_forall in Hne.
        assert (shape2 m = replicate N Hc) as Hm
          by (apply Hne; by eapply list_elem_of_lookup_2).
        apply shape2_replicate in Hm as [_ Hm]. rewrite Forall_forall in Hm.
        apply Hm. by eapply list_elem_of_lookup_2. }
      unfold goal_head in Hraise.
      destruct (linear_act_returns _ _ _ (t ++ r) H1) as (y1 & Hy1 & Hl1).
      { rewrite length_app. lia. }
      rewrite Hy1 in Hraise. simpl in Hraise.
      destruct (linear_act_returns _ _ _ y1 H2 Hl1) as (y2 & Hy2 & Hl2).
      rewrite Hy2 in Hraise. simpl in Hraise.
      destruct (linear_returns _ _ _ y2 H3 Hl2) as (y3 & Hy3 & _).
      by rewrite Hy3 in Hraise. }
  exists glp. split; [done|].
  destruct (compute_goal_probs_rows _ _ _ _ _ Hrun) as (ops & Hsh & ->).
  by rewrite log_probs_shape.
Qed.

End GoalProbsReturns.

(** * The encoder on well-shaped input *)

Section ForwardReturns.

Import PGPEncoder.


(** A function on rows that returns rows of width [o] on rows of width
    [i], mapped over the leading axes. *)
Section Rows.

Context (f : list Q → result (list Q)) (i o : nat).
Hypothesis Hf : ∀ x, length x = i → ∃ y, f x = Ok y ∧ length y = o.




End Rows.












Lemma bind_lift_Ok {S A B} (r : result A) a (k : A → ST S B) (s : S) :
  r = Ok a → (lift r ≫= k) s = k a s.
Proof. intros ->. by rewrite ST_bind_lift. Qed.









End ForwardReturns.

(** * The properties on the example instances *)

(** The example encoder on the example input: node 1 is padding (mask 1)
    and its vector in the returned tensor is [1], the bias of [mix]. *)
Lemma forward_combined_not_zeroed :
  combined_and_masks (PGPEncoder.forward example_encoder example_inputs example_heap).1
  = Ok (PFloat3 [[[4]; [1]]]%Q, PFloat2 [[0; 1]]%Q).
Proof. vm_compute. reflexivity. Qed.

(** The GRU stage of the same run: node 1 holds a zero vector. *)
Lemma encode_lane_nodes_zero_at_masked_witness :
  ∃ H, get2 [[[3]; [0]]]%Q 0 1 = Some (zeros H).
Proof.
  apply (encode_lane_nodes_zero_at_masked example_encoder
           [[[[3]]; [[5]]]]%Q [[[[0]]; [[1]]]]%Q [[[3]; [0]]]%Q [[0; 1]]%Q
           1 2 1 1 1); reflexivity.
Defined.

(** Two entries of the matrix of a run on two nodes. *)
Lemma build_adj_mat_follows_spec_witness :
  get3 [[[true; true]; [true; true]]] 0 0 1
  = Some (adj_spec [[[1; 0]; [0; 0]]]%Q [[[1; 0]; [1; 0]]]%Z 0 0 1) ∧
  get3 [[[true; true]; [true; true]]] 0 1 1
  = Some (adj_spec [[[1; 0]; [0; 0]]]%Q [[[1; 0]; [1; 0]]]%Z 0 1 1).
Proof.
  destruct (build_adj_mat_follows_spec 0 [[[1; 0]; [1; 0]]]%Z
              {[ 0%nat := [[[1; 0]; [0; 0]]]%Q ]}
              {[ 0%nat := [[[1; 0]; [0; 1]]]%Q ]}
              [[[1; 0]; [0; 0]]]%Q [[[true; true]; [true; true]]])
    as [_ Hadj]; [reflexivity|vm_compute; reflexivity|].
  split; apply Hadj; simpl; lia.
Defined.

(** The example run: every slot is a placeholder, so the tensor at
    address 0 holds the source-node indices afterwards. *)
Lemma forward_passes_mutated_s_next_witness :
  ∃ encodings h',
    PGPEncoder.forward example_encoder example_inputs example_heap
      = (Ok encodings, h') ∧
    encodings !! "s_next" = Some (PRef 0) ∧
    ∃ s', h' !! 0%nat = Some s' ∧ shape3 s' = [[2; 2]] ∧
          ∀ b i e, get3 s' b i e
                   = corrected_dest [[[7; 7]; [7; 7]]]%Q
                       [[[0; 0]; [0; 0]]]%Z b i e.
Proof.
  destruct (PGPEncoder.forward example_encoder example_inputs example_heap)
    as [[encodings|e] h'] eqn:Hrun.
  2:{ exfalso. vm_compute in Hrun. discriminate Hrun. }
  exists encodings, h'. split; [reflexivity|].
  apply (proj2 (forward_passes_mutated_s_next 0 [[[0; 0]; [0; 0]]]%Z
                  example_heap [[[7; 7]; [7; 7]]]%Q eq_refl)
           example_encoder example_inputs example_map encodings h');
    [reflexivity..|exact Hrun].
Defined.

(** The example encodings in pretraining mode: the ground truth ends in 3
    and there are two nodes, so both goals of the example are 1; the seed of
    the sampler is still 5. *)
Lemma forward_pretrain_goals_witness :
  ∃ glp goal_encodings X,
    (GoalConditioned.forward counter_sample example_attention
       example_aggregator example_encodings 5).2 = 5 ∧
    (GoalConditioned.forward counter_sample example_attention
       example_aggregator example_encodings 5).1
    = Ok {[ "agg_encoding" := PFloat3 X;
            "goal_log_probs" := PXReal2 glp ]} ∧
    GoalConditioned.gather [[[4]; [1]]]%Q [[0; 0]]%Z [[1; 1]]%Z
    = Ok goal_encodings ∧
    cat_dim2 [[[1]; [1]]]%Q goal_encodings = Ok X.
Proof.
  destruct (forward_pretrain_goals counter_sample example_attention
              example_aggregator example_encodings
              {[ "combined" := PFloat3 [[[4]; [1]]]%Q;
                 "combined_masks" := PFloat2 [[0; 1]]%Q ]}
              [[1]]%Q [[[4]; [1]]]%Q [[0; 1]]%Q [[2; 3]]%Q 5
              eq_refl eq_refl eq_refl eq_refl eq_refl eq_refl eq_refl)
    as [Hstate Hgoals].
  destruct (GoalConditioned.compute_goal_probs example_aggregator
              [[1]]%Q [[[4]; [1]]]%Q [[0; 1]]%Q) as [glp|e] eqn:Hrun.
  2:{ exfalso. revert Hrun. unfold GoalConditioned.compute_goal_probs.
      simpl. discriminate. }
  assert ((GoalConditioned.forward counter_sample example_attention
             example_aggregator example_encodings 5).1
          = Ok {[ "agg_encoding" := PFloat3 [[[1; 1]; [1; 1]]]%Q;
                  "goal_log_probs" := PXReal2 glp ]}) as Hout.
  { unfold GoalConditioned.forward.
    rewrite (bind_lift_Ok
               (getitem example_encodings "target_agent_encoding"
                  ≫= as_float2) [[1]]%Q _ _ eq_refl). cbv beta.
    rewrite (bind_lift_Ok
               (getitem example_encodings "context_encoding" ≫= as_dict)
               {[ "combined" := PFloat3 [[[4]; [1]]]%Q;
                  "combined_masks" := PFloat2 [[0; 1]]%Q ]} _ _ eq_refl).
    cbv beta.
    rewrite ST_bind_lift.
    change (getitem _ "combined" ≫= as_float3) with (Ok [[[4]; [1]]]%Q).
    cbv beta iota. rewrite ST_bind_lift.
    change (getitem _ "combined_masks" ≫= as_float2) with (Ok [[0; 1]]%Q).
    cbv beta iota.
    rewrite (bind_lift_Ok _ glp _ _ Hrun). cbv beta.
    reflexivity. }
  destruct (Hgoals _ Hout)
    as (_ & glp' & agg & ge & X & Hglp & Hagg & Hge & HX & HoutX).
  injection Hagg as <-. injection Hglp as <-.
  exists glp, ge, X. split; [exact Hstate|]. split; [|split].
  - rewrite Hout. f_equal. exact HoutX.
  - exact Hge.
  - exact HX.
Defined.

(** The example encodings without their ground truth. *)
Lemma forward_missing_ground_truth_witness :
  ∃ e, GoalConditioned.forward counter_sample example_attention
         example_aggregator (delete "node_seq_gt" example_encodings) 5
       = (Raise e, 5).
Proof.
  apply (forward_missing_ground_truth counter_sample example_attention
           example_aggregator (delete "node_seq_gt" example_encodings) 5);
    reflexivity.
Defined.

(** * The further properties on example instances *)

(** Address 1 of a store of two tensors, after a call on address 0. *)
Lemma build_adj_mat_store_frame_witness :
  (PGPEncoder.build_adj_mat 0 [[[1; 0]; [1; 0]]]%Z example_heap2).2 !! 1%nat
  = example_heap2 !! 1%nat.
Proof.
  apply (build_adj_mat_store_frame 0 [[[1; 0]; [1; 0]]]%Z example_heap2 _
           (PGPEncoder.build_adj_mat 0 [[[1; 0]; [1; 0]]]%Z example_heap2).1);
    [vm_compute; reflexivity|lia].
Defined.

(** Edge types for one slot, destinations for two. *)
Lemma build_adj_mat_shape_mismatch_witness :
  PGPEncoder.build_adj_mat 0 [[[1]]]%Z {[ 0%nat := [[[0; 0]]]%Q ]}
  = (Raise IndexError, {[ 0%nat := [[[0; 0]]]%Q ]}).
Proof.
  apply (build_adj_mat_shape_mismatch 0 [[[1]]]%Z
           {[ 0%nat := [[[0; 0]]]%Q ]} [[[0; 0]]]%Q); [reflexivity|].
  vm_compute. discriminate.
Defined.

(** A second call on the store that a first call has left. *)
Lemma build_adj_mat_idempotent_witness :
  PGPEncoder.build_adj_mat 0 [[[1; 0]; [1; 0]]]%Z
    {[ 0%nat := [[[1; 0]; [0; 1]]]%Q ]}
  = (Ok [[[true; true]; [true; true]]], {[ 0%nat := [[[1; 0]; [0; 1]]]%Q ]}).
Proof.
  apply (build_adj_mat_idempotent 0 [[[1; 0]; [1; 0]]]%Z
           {[ 0%nat := [[[1; 0]; [0; 0]]]%Q ]}).
  vm_compute. reflexivity.
Defined.

(** Two nodes whose slots are all placeholders. *)
Lemma build_adj_mat_no_edges_witness :
  ∃ h', PGPEncoder.build_adj_mat 0 [[[0; 0]; [0; 0]]]%Z example_heap
        = (Ok (PGPEncoder.identity_adj 1 2), h').
Proof.
  apply (build_adj_mat_no_edges 0 [[[0; 0]; [0; 0]]]%Z example_heap
           [[[7; 7]; [7; 7]]]%Q); [reflexivity..|].
  intros b i e t _ Ht.
  destruct b as [|b], i as [|[|i]], e as [|[|e]];
    vm_compute in Ht; congruence.
Defined.

(** The edge from node 0 to node 1. *)
Lemma build_adj_mat_edge_both_directions_witness :
  get3 [[[true; true]; [true; true]]] 0 0 1 = Some true ∧
  get3 [[[true; true]; [true; true]]] 0 1 0 = Some true.
Proof.
  apply (build_adj_mat_edge_both_directions 0 [[[1; 0]; [1; 0]]]%Z
           {[ 0%nat := [[[1; 0]; [0; 0]]]%Q ]}
           {[ 0%nat := [[[1; 0]; [0; 1]]]%Q ]}
           [[[1; 0]; [0; 0]]]%Q [[[true; true]; [true; true]]] 0 0 0 1%Q 1%Z 1);
    [reflexivity|vm_compute; reflexivity|simpl; lia|reflexivity|reflexivity
    |discriminate|reflexivity].
Defined.

(** Two inputs that differ in the last slot only. *)
Lemma build_adj_mat_ignores_last_slot_witness :
  (PGPEncoder.build_adj_mat 0 [[[1; 0]; [1; 0]]]%Z
     {[ 0%nat := [[[1; 0]; [0; 0]]]%Q ]}).1
  = (PGPEncoder.build_adj_mat 0 [[[1; 1]; [1; 1]]]%Z
       {[ 0%nat := [[[1; 5]; [0; 9]]]%Q ]}).1.
Proof.
  apply (build_adj_mat_ignores_last_slot 0 0 _ _ _ _
           [[[1; 0]; [0; 0]]]%Q [[[1; 5]; [0; 9]]]%Q); [reflexivity..|].
  intros b i e He. simpl in He. assert (e = 0) as -> by lia.
  destruct b as [|b], i as [|[|i]]; split; reflexivity.
Defined.

(** A real edge to node 5 in a graph of one node. *)
Lemma build_adj_mat_raises_after_write_witness :
  ∃ s', PGPEncoder.build_adj_mat 0 [[[1; 0]]]%Z {[ 0%nat := [[[5; 3]]]%Q ]}
        = (Raise IndexError, <[0%nat := s']> {[ 0%nat := [[[5; 3]]]%Q ]}) ∧
        shape3 s' = [[2]] ∧
        ∀ b i e, get3 s' b i e
                 = corrected_dest [[[5; 3]]]%Q [[[1; 0]]]%Z b i e.
Proof.
  apply (build_adj_mat_raises_after_write 0 [[[1; 0]]]%Z
           {[ 0%nat := [[[5; 3]]]%Q ]} [[[5; 3]]]%Q 0 0 0 5%Q 1%Z);
    [reflexivity|reflexivity|reflexivity|simpl; lia|reflexivity|reflexivity
    |discriminate|intros [_ H]; vm_compute in H; discriminate H].
Defined.

(** A mask tensor with no feature at all. *)
Lemma variable_size_gru_encode_empty_mask_axis_witness :
  PGPEncoder.variable_size_gru_encode [[[[1]]]]%Q [[[[]]]] sum_gru
    = Raise IndexError ∧
  PGPEncoder.node_masks [[[[]]]] = Raise IndexError.
Proof.
  apply (variable_size_gru_encode_empty_mask_axis [[[[1]]]]%Q [[[[]]]] sum_gru).
  simpl. apply elem_of_cons. by left.
Defined.

(** Entity 0 is padding: its features are 1, 2, 3, 4 on one side and 9
    throughout on the other. *)
Lemma variable_size_gru_encode_ignores_padding_witness :
  PGPEncoder.variable_size_gru_encode
    [[[[1; 2]; [3; 4]]; [[5; 6]; [7; 8]]]]%Q
    [[[[1; 1]; [1; 1]]; [[0; 0]; [1; 1]]]]%Q sum_gru
  = PGPEncoder.variable_size_gru_encode
      [[[[9; 9]; [9; 9]]; [[5; 6]; [7; 8]]]]%Q
      [[[[1; 1]; [1; 1]]; [[0; 0]; [1; 1]]]]%Q sum_gru.
Proof.
  apply (variable_size_gru_encode_ignores_padding
           [[[[1; 2]; [3; 4]]; [[5; 6]; [7; 8]]]]%Q
           [[[[9; 9]; [9; 9]]; [[5; 6]; [7; 8]]]]%Q
           [[[[1; 1]; [1; 1]]; [[0; 0]; [1; 1]]]]%Q sum_gru 1 2 2 2);
    [reflexivity|reflexivity|reflexivity|lia|lia|].
  intros b e steps Hsteps Hvalid.
  destruct b as [|b], e as [|[|e]]; vm_compute in Hsteps;
    try discriminate Hsteps; [|reflexivity].
  injection Hsteps as <-. vm_compute in Hvalid. discriminate Hvalid.
Defined.

(** One valid node and one padded node. *)
Lemma node_masks_spec_witness :
  ∃ nm, PGPEncoder.node_masks [[[[0]]; [[1]]]]%Q = Ok nm ∧
    nm = map (map (fun steps => of_bool (negb (entity_valid steps))))
           [[[[0]]; [[1]]]]%Q ∧
    forallb (forallb node_binary) nm = true.
Proof.
  apply (node_masks_spec [[[[0]]; [[1]]]]%Q).
  repeat constructor; discriminate.
Defined.

(** The example run returns, so the example inputs hold all the keys. *)
Lemma forward_requires_inputs_witness :
  ∃ map_rep,
    example_inputs !! "map_representation" = Some (PDict map_rep) ∧
    is_Some (map_rep !! "s_next") ∧ is_Some (map_rep !! "edge_type").
Proof.
  destruct (PGPEncoder.forward example_encoder example_inputs example_heap)
    as [[encodings|e] h'] eqn:Hrun.
  2:{ exfalso. vm_compute in Hrun. discriminate Hrun. }
  destruct (forward_requires_inputs example_encoder example_inputs
              example_heap h' encodings Hrun)
    as (map_rep & _ & _ & _ & Hmap & _ & _ & Hkeys & _).
  exists map_rep. split; [exact Hmap|].
  apply Forall_cons in Hkeys as [_ Hkeys].
  apply Forall_cons in Hkeys as [_ Hkeys].
  apply Forall_cons in Hkeys as [Hs Hkeys].
  apply Forall_cons in Hkeys as [Het _].
  split; [exact Hs|exact Het].
Defined.

(** The example inputs without the key s_next. *)
Lemma forward_missing_s_next_witness :
  ∃ e, PGPEncoder.forward example_encoder
         (<["map_representation" := PDict (delete "s_next" example_map)]>
            example_inputs) example_heap
       = (Raise e, example_heap).
Proof.
  apply (forward_missing_s_next example_encoder _
           (delete "s_next" example_map) example_heap); reflexivity.
Defined.

(** The example inputs without their ground truth. *)
Lemma forward_init_node_needs_ground_truth_witness :
  ∃ e, (PGPEncoder.forward example_encoder
          (delete "node_seq_gt" example_inputs) example_heap).1 = Raise e.
Proof.
  apply (forward_init_node_needs_ground_truth example_encoder
           (delete "node_seq_gt" example_inputs) example_heap
           (PGPEncoder.forward example_encoder
              (delete "node_seq_gt" example_inputs) example_heap).2);
    [reflexivity|reflexivity|vm_compute; reflexivity].
Defined.

(** The example run passes on its three graph fields; without the key
    init_node it returns the two encodings and no graph field. *)
Lemma forward_passes_on_witness :
  (∃ encodings h',
     PGPEncoder.forward example_encoder example_inputs example_heap
       = (Ok encodings, h') ∧
     is_Some (encodings !! "target_agent_encoding") ∧
     is_Some (encodings !! "context_encoding") ∧
     encodings !! "init_node" = Some (PFloat2 [[1; 0]]%Q) ∧
     encodings !! "node_seq_gt" = Some (PFloat2 [[2; 3]]%Q) ∧
     encodings !! "edge_type" = Some (PInt3 [[[0; 0]; [0; 0]]]%Z)) ∧
  (∃ encodings h',
     PGPEncoder.forward example_encoder (delete "init_node" example_inputs)
       example_heap = (Ok encodings, h') ∧
     is_Some (encodings !! "target_agent_encoding") ∧
     is_Some (encodings !! "context_encoding") ∧
     encodings !! "init_node" = None ∧ encodings !! "edge_type" = None).
Proof.
  split.
  - destruct (PGPEncoder.forward example_encoder example_inputs example_heap)
      as [[encodings|e] h'] eqn:Hrun.
    2:{ exfalso. vm_compute in Hrun. discriminate Hrun. }
    exists encodings, h'. split; [reflexivity|].
    destruct (forward_passes_on example_encoder example_inputs example_map
                example_heap h' encodings eq_refl Hrun)
      as [(ta & ctx & Hta & Hctx) Hpass].
    split; [by eexists|]. split; [by eexists|]. exact Hpass.
  - destruct (PGPEncoder.forward example_encoder
                (delete "init_node" example_inputs) example_heap)
      as [[encodings|e] h'] eqn:Hrun.
    2:{ exfalso. vm_compute in Hrun. discriminate Hrun. }
    exists encodings, h'. split; [reflexivity|].
    assert (delete "init_node" example_inputs !! "map_representation"
            = Some (PDict example_map)) as Hmap by reflexivity.
    destruct (forward_passes_on example_encoder
                (delete "init_node" example_inputs) example_map
                example_heap h' encodings Hmap Hrun)
      as [(ta & ctx & Hta & Hctx) Hnone].
    split; [by eexists|]. split; [by eexists|].
    change (contains (delete "init_node" example_inputs) "init_node")
      with false in Hnone.
    split; by apply Hnone.
Defined.

(** The tensor at address 1 after the example run. *)
Lemma forward_store_frame_witness :
  (PGPEncoder.forward example_encoder example_inputs example_heap2).2 !! 1%nat
  = example_heap2 !! 1%nat.
Proof.
  apply (forward_store_frame example_encoder example_inputs example_heap2 _
           (PGPEncoder.forward example_encoder example_inputs example_heap2).1);
    [vm_compute; reflexivity|].
  intros map_rep Hmap.
  change (Some (PDict example_map) = Some (PDict map_rep)) in Hmap.
  injection Hmap as <-. vm_compute. discriminate.
Defined.

(** The layout of the example run: one example of two nodes. *)
Lemma forward_output_layout_witness :
  ∃ encodings h' ta combined nm,
    PGPEncoder.forward example_encoder example_inputs example_heap
      = (Ok encodings, h') ∧
    encodings !! "target_agent_encoding" = Some (PFloat2 ta) ∧
    encodings !! "context_encoding"
      = encoder_output ta combined nm !! "context_encoding" ∧
    shape2 combined = [2] ∧ nm = [[0; 1]]%Q ∧
    forallb (forallb node_binary) nm = true.
Proof.
  destruct (PGPEncoder.forward example_encoder example_inputs example_heap)
    as [[encodings|e] h'] eqn:Hrun.
  2:{ exfalso. vm_compute in Hrun. discriminate Hrun. }
  destruct (forward_output_layout example_encoder example_inputs example_map
              example_heap h' encodings [[[[3]]; [[5]]]]%Q [[[[0]]; [[1]]]]%Q
              1 2 eq_refl eq_refl eq_refl eq_refl eq_refl Hrun)
    as (ta & combined & nm & H).
  exists encodings, h', ta, combined, nm. split; [reflexivity|exact H].
Defined.

(** One residual layer on the node encodings of the example. *)
Lemma gat_layers_keep_shape_witness :
  ∃ enc',
    PGPEncoder.gat_layers [example_gat] [[[true; false]; [false; true]]]
      [[[4]; [1]]]%Q = Ok enc' ∧
    shape3 enc' = shape3 [[[4]; [1]]]%Q.
Proof.
  exists [[[4]; [1]]]%Q. split; [vm_compute; reflexivity|].
  apply (gat_layers_keep_shape [example_gat] [[[true; false]; [false; true]]]
           [[[4]; [1]]]%Q [[[4]; [1]]]%Q).
  vm_compute. reflexivity.
Defined.

(** Node 1 is masked: its encoding is 2 on one side and 7 on the other. *)
Lemma compute_goal_probs_ignores_masked_witness :
  GoalConditioned.compute_goal_probs example_aggregator
    [[1]]%Q [[[1]; [2]]]%Q [[0; 1]]%Q
  = GoalConditioned.compute_goal_probs example_aggregator
      [[1]]%Q [[[1]; [7]]]%Q [[0; 1]]%Q.
Proof.
  apply (compute_goal_probs_ignores_masked example_aggregator
           [[1]]%Q [[[1]; [2]]]%Q [[[1]; [7]]]%Q [[0; 1]]%Q 1 2 1);
    [reflexivity..|].
  intros b n m Hm H0.
  destruct b as [|b], n as [|[|n]]; vm_compute in Hm; try discriminate Hm;
    [reflexivity|].
  injection Hm as <-. vm_compute in H0. discriminate H0.
Defined.

(** The valid node of an example of two nodes. *)
Lemma compute_goal_probs_valid_nonpositive_witness :
  ∃ glp p,
    GoalConditioned.compute_goal_probs example_aggregator
      [[1]]%Q [[[1]; [2]]]%Q [[0; 1]]%Q = Ok glp ∧
    get2 glp 0 0 = Some (Fin p) ∧ (p <= 0)%R.
Proof.
  destruct (GoalConditioned.compute_goal_probs example_aggregator
              [[1]]%Q [[[1]; [2]]]%Q [[0; 1]]%Q) as [glp|e] eqn:Hrun.
  2:{ exfalso. revert Hrun. unfold GoalConditioned.compute_goal_probs.
      simpl. discriminate. }
  destruct (compute_goal_probs_valid_nonpositive example_aggregator
              [[1]]%Q [[[1]; [2]]]%Q [[0; 1]]%Q glp 0 0 0%Q
              Hrun eq_refl eq_refl eq_refl) as [p Hp].
  exists glp, p. split; [reflexivity|exact Hp].
Defined.

(** The score of the valid node: the header adds the two features. *)
Lemma compute_goal_probs_valid_entries_witness :
  ∃ glp L v,
    GoalConditioned.compute_goal_probs example_aggregator
      [[1]]%Q [[[1]; [2]]]%Q [[0; 1]]%Q = Ok glp ∧
    GoalConditioned.goal_head example_aggregator ([1] ++ [1])%Q = Ok [v] ∧
    get2 glp 0 0 = Some (Fin (Q2R v - L)).
Proof.
  destruct (GoalConditioned.compute_goal_probs example_aggregator
              [[1]]%Q [[[1]; [2]]]%Q [[0; 1]]%Q) as [glp|e] eqn:Hrun.
  2:{ exfalso. revert Hrun. unfold GoalConditioned.compute_goal_probs.
      simpl. discriminate. }
  destruct (compute_goal_probs_valid_entries example_aggregator
              [[1]]%Q [[[1]; [2]]]%Q [[0; 1]]%Q glp 0 [1]%Q
              Hrun eq_refl eq_refl eq_refl) as [L HL].
  destruct (HL 0 [1]%Q 0%Q eq_refl eq_refl eq_refl) as (v & Hv & Hget).
  exists glp, L, v. split; [reflexivity|]. split; [exact Hv|exact Hget].
Defined.

(** One example of two nodes, two goals: the last node and the first. *)
Lemma gather_spec_witness :
  ∃ ge,
    GoalConditioned.gather [[[1]; [2]]]%Q
      (map (fun b => replicate 2 b) (arange 1)) [[-1; 0]]%Z = Ok ge ∧
    shape2 ge = replicate 1 2 ∧
    ∀ b s g, get2 [[-1; 0]]%Z b s = Some g →
      ∃ nodes k node,
        [[[1]; [2]]]%Q !! b = Some nodes ∧
        norm_index (length nodes) g = Ok k ∧
        nodes !! k = Some node ∧ get2 ge b s = Some node.
Proof.
  apply (gather_spec [[[1]; [2]]]%Q 2 [[-1; 0]]%Z); [reflexivity|].
  intros b s g nodes Hg Hnodes.
  destruct b as [|b]; [|discriminate Hg]. injection Hnodes as <-.
  destruct s as [|[|s]]; try discriminate Hg; injection Hg as <-; simpl; lia.
Defined.

(** Goal 2 in an example of two nodes. *)
Lemma gather_index_error_witness :
  GoalConditioned.gather [[[1]; [2]]]%Q
    (map (fun b => replicate 2 b) (arange 1)) [[2; 0]]%Z
  = Raise IndexError.
Proof.
  apply (gather_index_error [[[1]; [2]]]%Q 2 [[2; 0]]%Z 0 0 2%Z [[1]; [2]]%Q);
    [reflexivity..|]. simpl. lia.
Defined.

(** The example encodings in pretraining mode, seed 5. *)
Lemma forward_pretrain_keeps_random_state_witness :
  (GoalConditioned.forward counter_sample example_attention
     example_aggregator example_encodings 5).2 = 5.
Proof.
  apply (forward_pretrain_keeps_random_state counter_sample example_attention
           example_aggregator example_encodings 5); reflexivity.
Defined.

(** The example encodings: the ground truth ends in 3, so the goal of the
    example is node 1, whose encoding is [1]; the context is [1]. *)
Lemma forward_pretrain_output_witness :
  ∃ glp X,
    GoalConditioned.forward counter_sample example_attention
      example_aggregator example_encodings 5
    = (Ok {[ "agg_encoding" := PFloat3 X;
             "goal_log_probs" := PXReal2 glp ]}, 5) ∧
    get2 X 0 1 = Some ([1] ++ [1])%Q.
Proof.
  destruct (GoalConditioned.compute_goal_probs example_aggregator
              [[1]]%Q [[[4]; [1]]]%Q [[0; 1]]%Q) as [glp|e] eqn:Hrun.
  2:{ exfalso. revert Hrun. unfold GoalConditioned.compute_goal_probs.
      simpl. discriminate. }
  destruct (forward_pretrain_output counter_sample example_attention
              example_aggregator example_encodings
              {[ "combined" := PFloat3 [[[4]; [1]]]%Q;
                 "combined_masks" := PFloat2 [[0; 1]]%Q ]}
              [[1]]%Q [[[4]; [1]]]%Q [[0; 1]]%Q [[2; 3]]%Q glp [[1]]%Q 5
              eq_refl eq_refl eq_refl eq_refl eq_refl eq_refl eq_refl
              Hrun eq_refl eq_refl eq_refl) as (X & HX & _ & Hrows).
  { intros b seq nodes Hseq Hnodes.
    destruct b as [|b]; [|discriminate Hseq].
    injection Hseq as <-. injection Hnodes as <-.
    split; [discriminate|]. vm_compute. split; congruence. }
  exists glp, X. split; [exact HX|].
  destruct (Hrows 0 1 [1]%Q [2; 3]%Q [[4]; [1]]%Q) as (k & node & Hk & Hn & Hg);
    [simpl; lia|reflexivity..|].
  vm_compute in Hk. injection Hk as <-. injection Hn as <-. exact Hg.
Defined.

(** Evaluation mode on the example: both draws of the example see the
    same probability vector, with probability 0 for the masked node 1. *)
Lemma select_goals_samples_distribution_witness :
  ∃ glp probs,
    GoalConditioned.compute_goal_probs example_sampling_aggregator
      [[1]]%Q [[[4]; [1]]]%Q [[0; 1]]%Q = Ok glp ∧
    (∀ r, GoalConditioned.select_goals counter_sample
            example_sampling_aggregator example_encodings [[0; 1]]%Q glp r
          = counter_sample probs r) ∧
    shape2 probs = replicate (length glp) 2 ∧
    ∀ b s p masks,
      get2 probs b s = Some p → [[0; 1]]%Q !! b = Some masks →
      existsb (fun m => Qeq_bool m 0) masks = true →
      length p = length masks ∧ xsum p = Fin 1 ∧
      ∀ n m, masks !! n = Some m → Qeq_bool m 1 = true →
             p !! n = Some (Fin 0).
Proof.
  destruct (GoalConditioned.compute_goal_probs example_sampling_aggregator
              [[1]]%Q [[[4]; [1]]]%Q [[0; 1]]%Q) as [glp|e] eqn:Hrun.
  2:{ exfalso. revert Hrun. unfold GoalConditioned.compute_goal_probs.
      simpl. discriminate. }
  destruct (select_goals_samples_distribution counter_sample
              example_sampling_aggregator example_encodings
              [[1]]%Q [[[4]; [1]]]%Q [[0; 1]]%Q glp eq_refl Hrun eq_refl)
    as (probs & H).
  exists glp, probs. split; [reflexivity|exact H].
Defined.

(** Evaluation mode on the example encodings without ground truth, seed 1:
    the sampler returns its seed as every goal, so both goals are node 1. *)
Lemma forward_sampled_output_witness :
  ∃ glp X,
    GoalConditioned.forward counter_sample example_attention
      example_sampling_aggregator (delete "node_seq_gt" example_encodings) 1
    = (Ok {[ "agg_encoding" := PFloat3 X;
             "goal_log_probs" := PXReal2 glp ]}, 2) ∧
    get2 X 0 0 = Some ([1] ++ [1])%Q.
Proof.
  destruct (GoalConditioned.compute_goal_probs example_sampling_aggregator
              [[1]]%Q [[[4]; [1]]]%Q [[0; 1]]%Q) as [glp|e] eqn:Hrun.
  2:{ exfalso. revert Hrun. unfold GoalConditioned.compute_goal_probs.
      simpl. discriminate. }
  destruct (compute_goal_probs_rows _ _ _ _ _ Hrun) as (ops & Hsh & Hglp).
  destruct ops as [|o [|]]; try discriminate Hsh.
  simpl in Hglp.
  destruct (forward_sampled_output counter_sample example_attention
              example_sampling_aggregator
              (delete "node_seq_gt" example_encodings)
              {[ "combined" := PFloat3 [[[4]; [1]]]%Q;
                 "combined_masks" := PFloat2 [[0; 1]]%Q ]}
              [[1]]%Q [[[4]; [1]]]%Q [[0; 1]]%Q glp [[1]]%Q [[1; 1]]%Z 1 2)
    as (X & HX & _ & Hrows);
    [reflexivity|reflexivity|reflexivity|reflexivity|reflexivity|exact Hrun
    |by rewrite Hglp|reflexivity|reflexivity|reflexivity| |].
  { intros b s g nodes Hg Hnodes.
    destruct b as [|b]; [|discriminate Hg].
    injection Hnodes as <-.
    destruct s as [|[|s]]; try discriminate Hg;
      injection Hg as <-; simpl; lia. }
  exists glp, X. split; [exact HX|].
  destruct (Hrows 0 0 [1]%Q 1%Z [[4]; [1]]%Q eq_refl eq_refl eq_refl)
    as (k & node & Hk & Hn & Hg).
  vm_compute in Hk. injection Hk as <-. injection Hn as <-. exact Hg.
Defined.

(** * The example instances are built as the constructors build them *)



Lemma example_aggregator_init :
  GoalConditionedInit.init example_header_args example_aggregator.
Proof. repeat split; repeat constructor. Qed.


(** The header of the example on the encodings of the example. *)
Lemma compute_goal_probs_returns_witness :
  ∃ glp,
    GoalConditioned.compute_goal_probs example_aggregator
      [[1]]%Q [[[4]; [1]]]%Q [[0; 1]]%Q = Ok glp ∧
    shape2 glp = replicate 1 2.
Proof.
  apply (compute_goal_probs_returns example_header_args example_aggregator
           [[1]]%Q [[[4]; [1]]]%Q [[0; 1]]%Q 1 2);
    [exact example_aggregator_init|simpl; lia|reflexivity..].
Defined.

